(** * AMB <-> Nostr converter: a shallow embedding of the transcoding engine

    The two converters of the repository, [ambToNostr]
    (src/converters/ambToNostr.ts) and [nostrToAmb]
    (src/converters/nostrToAmb.ts), are embedded as Rocq functions and
    the properties of the specification are stated about them.

    Modelling conventions.
    - JavaScript strings are [string]s; [split(':')], [startsWith] and
      [===] only look at the ASCII colon and at equality of code units, so
      they do not depend on the encoding.  [toLowerCase] is modelled on the
      ASCII letters, and the statements about it are about strings of
      ASCII characters ([asciiOnly]).
    - A JavaScript object used as a record of own properties is an
      association list in insertion order with unique keys ([obj]).
      Property names that JavaScript resolves through a prototype
      ([constructor], [__proto__], [hasOwnProperty] and the like), the
      own properties of a string primitive ([length], the indices) and
      the names that are array indices, which JavaScript lists first, are
      outside the model; the hypotheses [ownName], [plainSegment],
      [modelledKey], [plainCodes], [plainObject] and [numericName] set
      them aside.
    - The converters are ES modules, hence strict code: creating a property
      on a string primitive raises a [TypeError].  Code that can raise
      returns an [option], [None] standing for the exception.
    - [Date.now()] is the only input that is not an argument; it is made
      one ([now], in unix seconds).

    The part "Further properties of the code" also covers the tag
    helpers of src/types/nostr.ts, the type guards of src/types/amb.ts,
    [parsePrivateKey] of src/utils/signing.ts, where the bech32 decoder of
    the library is a parameter, and [parseDirection] of
    src/cli/commands/convert.ts, where [trim] is modelled on ASCII
    strings.  The last part, "Nested fields on the round trip", states
    what the lemmas of that part give for labels in several languages and
    for lists of objects. *)

From Stdlib Require Import Strings.String Strings.Ascii Lists.List ZArith Bool Lia.
From Stdlib Require Import Sorting.Permutation.
From Stdlib Require Strings.Byte.
Import ListNotations.

Set Warnings "-register-all".

Open Scope string_scope.
Open Scope list_scope.

(** ** Strings *)

Module Str.

(** Truthiness of a JavaScript string. *)
Definition truthy (s : string) : bool := negb (s =? "").

Definition colon : ascii := ":"%char.

(** [s.split(':')] *)
Fixpoint split (s : string) : list string :=
  match s with
  | EmptyString => [""]
  | String c s' =>
      if Ascii.eqb c colon then "" :: split s'
      else match split s' with
           | h :: t => String c h :: t
           | [] => [String c ""]
           end
  end.

(** [parts.join(':')] *)
Fixpoint join (parts : list string) : string :=
  match parts with
  | [] => ""
  | [p] => p
  | p :: ps => p ++ ":" ++ join ps
  end.

(** [key.split(':')[0]] *)
Definition baseKey (key : string) : string := hd "" (split key).

(** [s.includes(':')] *)
Fixpoint hasColon (s : string) : bool :=
  match s with
  | EmptyString => false
  | String c s' => Ascii.eqb c colon || hasColon s'
  end.

(** [s.startsWith(p)] *)
Definition startsWith (s p : string) : bool := String.prefix p s.

Definition lowerAscii (c : ascii) : ascii :=
  let n := nat_of_ascii c in
  if (65 <=? n)%nat && (n <=? 90)%nat then ascii_of_nat (n + 32) else c.

(** [s.toLowerCase()] on a string of ASCII characters: the letters A to Z
    are lowered and every other character is kept.  JavaScript also lowers
    the letters outside ASCII, which this function keeps; what is stated
    about lower-casing is stated of ASCII strings ([asciiOnly], below). *)
Fixpoint toLowerCase (s : string) : string :=
  match s with
  | EmptyString => EmptyString
  | String c s' => String (lowerAscii c) (toLowerCase s')
  end.

(** [xs.includes(s)] on an array of strings. *)
Definition mem (s : string) (xs : list string) : bool :=
  existsb (String.eqb s) xs.

End Str.

(** ** JavaScript values and objects *)

Inductive jsval : Type :=
| JUndef
| JStr (s : string)
| JArr (items : list jsval)
| JObj (fields : list (string * jsval)).

(** An object: own properties in insertion order. *)
Definition obj : Type := list (string * jsval).

Definition js_truthy (v : jsval) : bool :=
  match v with
  | JUndef => false
  | JStr s => Str.truthy s
  | JArr _ => true
  | JObj _ => true
  end.

Definition isArray (v : jsval) : bool :=
  match v with JArr _ => true | _ => false end.

(** [v === undefined] *)
Definition isUndefined (v : jsval) : bool :=
  match v with JUndef => true | _ => false end.

(** [o[k]], [None] when [k] is not an own property. *)
Fixpoint obj_get (k : string) (o : obj) : option jsval :=
  match o with
  | [] => None
  | (k', v) :: rest => if k =? k' then Some v else obj_get k rest
  end.

(** [o.hasOwnProperty(k)] *)
Definition obj_has (k : string) (o : obj) : bool :=
  match obj_get k o with Some _ => true | None => false end.

(** [o[k] = v] for a name [k] that is the name of an own property like
    any other: an existing property keeps its place, a new one is added
    last.  Two kinds of names are outside the model: [__proto__], whose
    assignment changes the prototype and adds no property, and the names
    that are array indices, which JavaScript lists before the other
    properties whatever the order of the assignments ([ownName] and
    [numericName], below). *)
Fixpoint obj_set (k : string) (v : jsval) (o : obj) : obj :=
  match o with
  | [] => [(k, v)]
  | (k', v') :: rest =>
      if k =? k' then (k', v) :: rest else (k', v') :: obj_set k v rest
  end.

(** Truthiness of [o[k]], [undefined] when absent. *)
Definition prop_truthy (k : string) (o : obj) : bool :=
  match obj_get k o with Some v => js_truthy v | None => false end.

(** ** Results and errors (src/types/index.ts) *)

Inductive ConversionErrorCode : Type :=
| INVALID_INPUT
| MISSING_REQUIRED_FIELD
| INVALID_FORMAT
| CONVERSION_FAILED
| VALIDATION_FAILED.

Record ConversionError : Type := mkError {
  message : string;
  code : ConversionErrorCode
}.

Inductive ConversionResult (T : Type) : Type :=
| Success (data : T) (warnings : list string)
| Failure (error : ConversionError).

Arguments Success {T} data warnings.
Arguments Failure {T} error.

(** ** AMB resources (src/types/amb.ts) *)

(** [LocalizedString]: language code to label, in insertion order, which is
    the order of [Object.entries] (keys that are array indices, which
    JavaScript enumerates first, are outside the model). *)
Definition LocalizedString : Type := list (string * string).

Record Concept : Type := mkConcept {
  concept_id : string;
  concept_type : option string;
  concept_prefLabel : option LocalizedString
}.

Record Organization : Type := mkOrganization {
  org_id : option string;
  org_type : string;
  org_name : string
}.

Record Person : Type := mkPerson {
  person_id : option string;
  person_type : string;
  person_name : string;
  person_honorificPrefix : option string;
  person_affiliation : option Organization
}.

(** [Person | Organization] *)
Inductive Agent : Type :=
| AgentPerson (p : Person)
| AgentOrganization (o : Organization).

Record License : Type := mkLicense { license_id : string }.

(** [AmbLearningResourceReference] *)
Record Reference : Type := mkReference {
  ref_id : string;
  ref_type : option (list string);
  ref_name : option string
}.

(** [AmbLearningResourceBase].  [id] and [name] are optional here because
    the converter checks for their absence.  [type] is the [string[]] of
    the interface: the wrapping of a value that is not an array, which the
    converter also provides for, is never taken. *)
Record AmbLearningResource : Type := mkAmb {
  amb_id : option string;
  amb_type : list string;
  amb_name : option string;
  amb_description : option string;
  amb_keywords : option (list string);
  amb_inLanguage : option (list string);
  amb_creator : option (list Agent);
  amb_publisher : option (list Agent);
  amb_license : option License;
  amb_isAccessibleForFree : option bool;
  amb_conditionsOfAccess : option Concept;
  amb_about : option (list Concept);
  amb_educationalLevel : option (list Concept);
  amb_audience : option (list Concept);
  amb_learningResourceType : option (list Concept);
  amb_datePublished : option string;
  amb_dateCreated : option string;
  amb_image : option string;
  amb_hasPart : option (list Reference);
  amb_isPartOf : option (list Reference);
  amb_isBasedOn : option (list Reference)
}.

(** ** Nostr events (src/types/nostr.ts) *)

(** A tag: [string[]], the first element is the key. *)
Definition NostrTag : Type := list string.

Definition createTag (type : string) (value : string) : NostrTag :=
  [type; value].

Definition AMB_KIND : Z := 30142.

Record NostrEducationalEvent : Type := mkEvent {
  pubkey : string;
  created_at : Z;
  kind : Z;
  tags : list NostrTag;
  content : string
}.

Record ConversionOptions : Type := mkOptions {
  opt_pubkey : option string;
  opt_includeRelationships : option bool;
  opt_timestamp : option Z;
  opt_deterministicIds : option bool;
  opt_relayHints : option (list string)
}.

(** ** The flattener (src/converters/ambToNostr.ts) *)

Definition DEFAULT_PUBKEY : string :=
  "0000000000000000000000000000000000000000000000000000000000000000".

(** [if (s) tags.push(createTag(key, s))] *)
Definition strTag (key : string) (s : string) : list NostrTag :=
  if Str.truthy s then [createTag key s] else [].

(** The same for an optional property. *)
Definition optTag (key : string) (v : option string) : list NostrTag :=
  match v with
  | Some s => strTag key s
  | None => []
  end.

(** [if (xs && xs.length > 0) xs.forEach(x => ...)] *)
Definition forEachOpt {A : Type} (xs : option (list A))
    (f : A -> list NostrTag) : list NostrTag :=
  match xs with
  | Some l => flat_map f l
  | None => []
  end.

Definition agent_id (e : Agent) : option string :=
  match e with
  | AgentPerson p => person_id p
  | AgentOrganization o => org_id o
  end.

Definition agent_type (e : Agent) : string :=
  match e with
  | AgentPerson p => person_type p
  | AgentOrganization o => org_type o
  end.

Definition agent_name (e : Agent) : string :=
  match e with
  | AgentPerson p => person_name p
  | AgentOrganization o => org_name o
  end.

(** ['honorificPrefix' in entity && entity.honorificPrefix] *)
Definition agent_honorificPrefix (e : Agent) : option string :=
  match e with
  | AgentPerson p => person_honorificPrefix p
  | AgentOrganization _ => None
  end.

Definition agent_affiliation (e : Agent) : option Organization :=
  match e with
  | AgentPerson p => person_affiliation p
  | AgentOrganization _ => None
  end.

Definition getPersonOrOrgName (entity : Agent) : string :=
  match agent_honorificPrefix entity with
  | Some h => if Str.truthy h then h ++ " " ++ agent_name entity
              else agent_name entity
  | None => agent_name entity
  end.

Definition creatorTags (creator : Agent) : list NostrTag :=
  [createTag "creator:name" (getPersonOrOrgName creator);
   createTag "creator:type" (agent_type creator)]
  ++ optTag "creator:id" (agent_id creator)
  ++ optTag "creator:honorificPrefix" (agent_honorificPrefix creator)
  ++ match agent_affiliation creator with
     | Some a =>
         strTag "creator:affiliation:name" (org_name a)
         ++ strTag "creator:affiliation:type" (org_type a)
         ++ optTag "creator:affiliation:id" (org_id a)
     | None => []
     end.

Definition publisherTags (publisher : Agent) : list NostrTag :=
  [createTag "publisher:name" (getPersonOrOrgName publisher);
   createTag "publisher:type" (agent_type publisher)]
  ++ optTag "publisher:id" (agent_id publisher).

(** The three steps every Concept-valued field goes through; [field] is the
    literal the source writes in front of [:id], [:prefLabel:<lang>] and
    [:type]. *)
Definition conceptTags (field : string) (c : Concept) : list NostrTag :=
  strTag (field ++ ":id") (concept_id c)
  ++ match concept_prefLabel c with
     | Some labels =>
         map (fun e => createTag (field ++ ":prefLabel:" ++ fst e) (snd e)) labels
     | None => []
     end
  ++ optTag (field ++ ":type") (concept_type c).

Definition typeTags (field : string) (t : option (list string)) : list NostrTag :=
  match t with
  | Some types => map (createTag (field ++ ":type")) types
  | None => []
  end.

Definition hasPartTags (part : Reference) : list NostrTag :=
  [createTag "hasPart:id" (ref_id part)]
  ++ optTag "hasPart:name" (ref_name part)
  ++ typeTags "hasPart" (ref_type part).

Definition isPartOfTags (parent : Reference) : list NostrTag :=
  [createTag "isPartOf:id" (ref_id parent)]
  ++ optTag "isPartOf:name" (ref_name parent)
  ++ typeTags "isPartOf" (ref_type parent).

Definition isBasedOnTags (source : Reference) : list NostrTag :=
  [createTag "isBasedOn:id" (ref_id source)]
  ++ optTag "isBasedOn:name" (ref_name source).

(** The relationship blocks, under [options.includeRelationships !== false]. *)
Definition relationshipTags (r : AmbLearningResource) : list NostrTag :=
  forEachOpt (amb_hasPart r) hasPartTags
  ++ forEachOpt (amb_isPartOf r) isPartOfTags
  ++ forEachOpt (amb_isBasedOn r) isBasedOnTags.

Definition includesRelationships (options : ConversionOptions) : bool :=
  match opt_includeRelationships options with
  | Some false => false
  | _ => true
  end.

Definition boolToString (b : bool) : string :=
  if b then "true" else "false".

(** Everything pushed before the relationship blocks, in source order. *)
Definition coreTags (id name : string) (r : AmbLearningResource)
    (options : ConversionOptions) : list NostrTag :=
  [createTag "d" id]
  ++ map (createTag "type") (amb_type r)
  ++ [createTag "name" name]
  ++ optTag "description" (amb_description r)
  ++ forEachOpt (amb_keywords r)
       (fun keyword => [createTag "t" (Str.toLowerCase keyword)])
  ++ forEachOpt (amb_inLanguage r) (fun lang => [createTag "inLanguage" lang])
  ++ forEachOpt (amb_creator r) creatorTags
  ++ forEachOpt (amb_publisher r) publisherTags
  ++ match amb_license r with
     | Some l => strTag "license:id" (license_id l)
     | None => []
     end
  ++ match amb_isAccessibleForFree r with
     | Some b => [createTag "isAccessibleForFree" (boolToString b)]
     | None => []
     end
  ++ match amb_conditionsOfAccess r with
     | Some c => conceptTags "conditionsOfAccess" c
     | None => []
     end
  ++ forEachOpt (amb_about r) (conceptTags "about")
  ++ forEachOpt (amb_educationalLevel r) (conceptTags "educationalLevel")
  ++ forEachOpt (amb_audience r) (conceptTags "audience")
  ++ forEachOpt (amb_learningResourceType r) (conceptTags "learningResourceType")
  ++ optTag "datePublished" (amb_datePublished r)
  ++ optTag "dateCreated" (amb_dateCreated r)
  ++ optTag "image" (amb_image r)
  ++ forEachOpt (opt_relayHints options) (fun relay => [createTag "r" relay]).

Definition buildTags (id name : string) (r : AmbLearningResource)
    (options : ConversionOptions) : list NostrTag :=
  coreTags id name r options
  ++ (if includesRelationships options then relationshipTags r else []).

(** [options.pubkey || DEFAULT_PUBKEY] *)
Definition pubkeyOf (options : ConversionOptions) : string :=
  match opt_pubkey options with
  | Some p => if Str.truthy p then p else DEFAULT_PUBKEY
  | None => DEFAULT_PUBKEY
  end.

(** [options.timestamp || Math.floor(Date.now() / 1000)] *)
Definition createdAtOf (now : Z) (options : ConversionOptions) : Z :=
  match opt_timestamp options with
  | Some ts => if Z.eqb ts 0 then now else ts
  | None => now
  end.

Definition defaultPubkeyWarning : string :=
  "Using default pubkey - should provide a real pubkey in production".

(** [!ambResource.id], [!ambResource.name]: absent or empty. *)
Definition presentString (v : option string) : option string :=
  match v with
  | Some s => if Str.truthy s then Some s else None
  | None => None
  end.

Definition ambToNostr (now : Z) (ambResource : AmbLearningResource)
    (options : ConversionOptions) : ConversionResult NostrEducationalEvent :=
  match presentString (amb_id ambResource) with
  | None =>
      Failure (mkError "AMB resource must have an id" MISSING_REQUIRED_FIELD)
  | Some id =>
      match presentString (amb_name ambResource) with
      | None =>
          Failure (mkError "AMB resource must have a name" MISSING_REQUIRED_FIELD)
      | Some name =>
          let pubkey := pubkeyOf options in
          let warnings :=
            if pubkey =? DEFAULT_PUBKEY then [defaultPubkeyWarning] else [] in
          Success
            {| pubkey := pubkey;
               created_at := createdAtOf now options;
               kind := AMB_KIND;
               tags := buildTags id name ambResource options;
               content := "" |}
            warnings
      end
  end.

(** ** The unflattener (src/converters/nostrToAmb.ts) *)

(** A small exception monad: [None] is a thrown [TypeError]. *)
Definition bind {A B : Type} (m : option A) (f : A -> option B) : option B :=
  match m with
  | Some a => f a
  | None => None
  end.

Notation "x <- m ;; k" := (bind m (fun x => k))
  (at level 61, m at next level, right associativity).

(** A loop that pushes something for some of the elements it visits. *)
Fixpoint filterMap {A B : Type} (f : A -> option B) (l : list A) : list B :=
  match l with
  | [] => []
  | x :: rest =>
      match f x with
      | Some y => y :: filterMap f rest
      | None => filterMap f rest
      end
  end.

(** An element of [relatedTags]: [{ key, values }]. *)
Record RelatedTag : Type := mkRelated {
  rt_key : string;
  rt_values : list string
}.

(** [values[0]] as a JavaScript value. *)
Definition firstValue (values : list string) : jsval :=
  match values with
  | v :: _ => JStr v
  | [] => JUndef
  end.

(** The string behind a truthy [values[0]]. *)
Definition truthyFirst (values : list string) : option string :=
  match values with
  | v :: _ => if Str.truthy v then Some v else None
  | [] => None
  end.

(** The walk [for (i = 1; i < parts.length - 1; i++)] from [target], along
    the non-empty inner segments [path]: a missing or falsy property is
    replaced by [{}].  The walk returns the updated object.  When it
    reaches a non-empty string, the loop body is bound to raise: either the
    next [target[part] = {}] or, at the end of the path, the assignment
    [target[finalKey] = ...] creates a property on a primitive (no boundary
    is raised there, a string has none of the modelled keys).

    The walk looks at own properties.  It is the walk of the code for the
    keys of [modelledKey], below: segments that are no inherited names
    (the code follows the value an object inherits), that are not [length]
    and no indices (own properties of a string, at which the code starts a
    new object or walks on), and at most one inner segment (from a string
    the code walks on through the methods of strings). *)
Fixpoint navigate (path : list string) (target : obj) : option obj :=
  match path with
  | [] => Some target
  | part :: rest =>
      match obj_get part target with
      | Some (JObj child) =>
          child' <- navigate rest child ;;
          Some (obj_set part (JObj child') target)
      | Some v =>
          if js_truthy v then None
          else child' <- navigate rest [] ;;
               Some (obj_set part (JObj child') target)
      | None =>
          child' <- navigate rest [] ;;
          Some (obj_set part (JObj child') target)
      end
  end.

(** The object the walk ends in. *)
Fixpoint targetAt (path : list string) (o : obj) : obj :=
  match path with
  | [] => o
  | part :: rest =>
      match obj_get part o with
      | Some (JObj child) => targetAt rest child
      | _ => []
      end
  end.

(** [target[k] = v] for the target at the end of [path]. *)
Fixpoint assignAt (path : list string) (k : string) (v : jsval) (o : obj) : obj :=
  match path with
  | [] => obj_set k v o
  | part :: rest =>
      match obj_get part o with
      | Some (JObj child) => obj_set part (JObj (assignAt rest k v child)) o
      | _ => o
      end
  end.

(** [parts[parts.length - 1]] *)
Definition finalKeyOf (parts : list string) : string := last parts "".

(** The segments visited by the walk: [parts[1 .. length-2]], the empty
    ones skipped ([if (part)]). *)
Definition innerPath (parts : list string) : list string :=
  filter Str.truthy (removelast (tl parts)).

(** [parts.slice(0, -1).concat('inLanguage').join(':')] *)
Definition langKeyOf (parts : list string) : string :=
  Str.join (removelast parts ++ ["inLanguage"]).

(** [tags.find((t, idx) => p(t, idx))], [idx] counted from [from]. *)
Fixpoint findIdx (p : RelatedTag -> Z -> bool) (ts : list RelatedTag)
    (from : Z) : option RelatedTag :=
  match ts with
  | [] => None
  | t :: rest => if p t from then Some t else findIdx p rest (from + 1)
  end.

(** The [inLanguage] tag looked for next to the [prefLabel] tag at
    [currentIndex]. *)
Definition findLangTag (all : list RelatedTag) (parts : list string)
    (currentIndex : Z) : option RelatedTag :=
  findIdx (fun t idx =>
             (rt_key t =? langKeyOf parts)
             && (currentIndex - 2 <? idx)%Z && (idx <? currentIndex + 2)%Z)
          all 0%Z.

(** The loop state: [objects] and [currentObject]. *)
Definition NestedState : Type := (list obj * obj)%type.

Definition isEmptyObj (o : obj) : bool :=
  match o with [] => true | _ => false end.

(** Boundary detection on the target reached by the walk, an object
    whose [hasOwnProperty] is the method it inherits.  A target with an
    own property [hasOwnProperty] makes the call in the code raise, and a
    target that is a string has the own properties [length] and its
    indices: both are outside the model ([plainObject] and [plainSegment],
    below). *)
Definition shouldStartNewObject (currentObject target : obj)
    (finalKey : string) : bool :=
  if negb (isEmptyObj currentObject) then
    if (finalKey =? "id") && obj_has "id" target then true
    else obj_has finalKey target
  else false.

(** One iteration of the loop of [reconstructNestedObjects] for the tag at
    index [currentIndex] of [all] ([tags.indexOf(tag)]: the elements of
    [relatedTags] are distinct objects). *)
Definition nestedStep (all : list RelatedTag) (currentIndex : Z)
    (tag : RelatedTag) (st : NestedState) : option NestedState :=
  let '(objects, currentObject) := st in
  let parts := Str.split (rt_key tag) in
  let finalKey := finalKeyOf parts in
  match truthyFirst (rt_values tag) with
  | None => Some st
  | Some value =>
      if negb (Str.truthy finalKey) then Some st
      else
        let path := innerPath parts in
        walked <- navigate path currentObject ;;
        st' <- (if shouldStartNewObject walked (targetAt path walked) finalKey
                then fresh <- navigate path [] ;; Some (objects ++ [walked], fresh)
                else Some (objects, walked)) ;;
        let '(objects', current') := st' in
        if finalKey =? "prefLabel" then
          let written :=
            match findLangTag all parts currentIndex with
            | Some langTag =>
                match truthyFirst (rt_values langTag) with
                | Some lang => JObj [(lang, JStr value)]
                | None => JStr value
                end
            | None => JStr value
            end in
          Some (objects', assignAt path finalKey written current')
        else if (finalKey =? "inLanguage")
                && prop_truthy "prefLabel" (targetAt path current') then
          Some (objects', current')
        else
          Some (objects', assignAt path finalKey (JStr value) current')
  end.

Fixpoint nestedLoop (all rest : list RelatedTag) (idx : Z)
    (st : NestedState) : option NestedState :=
  match rest with
  | [] => Some st
  | tag :: rest' =>
      st' <- nestedStep all idx tag st ;;
      nestedLoop all rest' (idx + 1)%Z st'
  end.

(** [objects] when the loop is over, the last object added. *)
Definition collectObjects (tags : list RelatedTag) : option (list obj) :=
  st <- nestedLoop tags tags 0%Z ([], []) ;;
  let '(objects, currentObject) := st in
  Some (if isEmptyObj currentObject then objects else objects ++ [currentObject]).

Definition reconstructNestedObjects (tags : list RelatedTag) : option jsval :=
  objects <- collectObjects tags ;;
  Some (match objects with
        | [o] => JObj o
        | _ => JArr (map JObj objects)
        end).

Definition reconstructProperty (baseKey : string) (tags : list RelatedTag)
    : option jsval :=
  if existsb (fun t => Str.hasColon (rt_key t)) tags then
    reconstructNestedObjects tags
  else
    Some (match tags with
          | [t] => firstValue (rt_values t)
          | _ => JArr (map (fun t => firstValue (rt_values t)) tags)
          end).

(** [[key, ...values] = tag] for a tag that passes [tag.length < 2] and
    [!key]. *)
Definition destTag (tag : NostrTag) : option (string * list string) :=
  match tag with
  | key :: v :: vs => if Str.truthy key then Some (key, v :: vs) else None
  | _ => None
  end.

(** [tagGroups]: a [Map] in insertion order. *)
Definition TagGroups : Type := list (string * list (list string)).

Fixpoint groupPush (key : string) (values : list string) (g : TagGroups)
    : TagGroups :=
  match g with
  | [] => [(key, [values])]
  | (k, vs) :: rest =>
      if key =? k then (k, vs ++ [values]) :: rest
      else (k, vs) :: groupPush key values rest
  end.

Record Pass1 : Type := mkPass1 {
  p1_result : obj;
  p1_groups : TagGroups;
  p1_keywords : list string
}.

(** The body of the first loop of [unflattenTags]. *)
Definition collectTag (st : Pass1) (tag : NostrTag) : Pass1 :=
  match destTag tag with
  | None => st
  | Some (key, values) =>
      match (if key =? "d" then truthyFirst values else None) with
      | Some v =>
          mkPass1 (obj_set "id" (JStr v) (p1_result st)) (p1_groups st)
                  (p1_keywords st)
      | None =>
          match (if key =? "t" then truthyFirst values else None) with
          | Some v =>
              mkPass1 (p1_result st) (p1_groups st) (p1_keywords st ++ [v])
          | None =>
              mkPass1 (p1_result st) (groupPush key values (p1_groups st))
                      (p1_keywords st)
          end
      end
  end.

(** The inner loop of the second pass: the tags collected for [key]. *)
Definition relatedTo (key baseKey : string) (tag : NostrTag) : option RelatedTag :=
  match destTag tag with
  | None => None
  | Some (tagKey, values) =>
      if (tagKey =? "d") || (tagKey =? "t") then None
      else if (tagKey =? key) || Str.startsWith tagKey (baseKey ++ ":")
           then Some (mkRelated tagKey values)
           else None
  end.

Definition relatedTags (key baseKey : string) (tags : list NostrTag)
    : list RelatedTag :=
  filterMap (relatedTo key baseKey) tags.

Definition arrayFields : list string :=
  ["type"; "inLanguage"; "about"; "creator"; "contributor";
   "learningResourceType"; "audience"; "publisher"; "funder"].

(** [arrayFields.includes(baseKey) ? (Array.isArray(value) ? value : [value])
    : value] *)
Definition coerceArray (baseKey : string) (value : jsval) : jsval :=
  if Str.mem baseKey arrayFields then
    if isArray value then value else JArr [value]
  else value.

(** The second loop of [unflattenTags], over the entries of [tagGroups];
    [processedKeys] is a list used as a set. *)
Fixpoint processGroups (tags : list NostrTag) (groups : TagGroups)
    (processedKeys : list string) (result : obj) : option obj :=
  match groups with
  | [] => Some result
  | (key, _) :: rest =>
      if Str.mem key processedKeys then
        processGroups tags rest processedKeys result
      else
        let baseKey := Str.baseKey key in
        if negb (Str.truthy baseKey) then
          processGroups tags rest processedKeys result
        else
          let related := relatedTags key baseKey tags in
          let processedKeys' := processedKeys ++ map rt_key related in
          value <- reconstructProperty baseKey related ;;
          if isUndefined value then
            processGroups tags rest processedKeys' result
          else
            processGroups tags rest processedKeys'
              (obj_set baseKey (coerceArray baseKey value) result)
  end.

Definition AMB_CONTEXT : string := "https://w3id.org/kim/amb/context.jsonld".

Definition initialResult (defaultLanguage : string) : obj :=
  [("@context",
    JArr [JStr AMB_CONTEXT; JObj [("@language", JStr defaultLanguage)]])].

Definition firstPass (tags : list NostrTag) (defaultLanguage : string) : Pass1 :=
  fold_left collectTag tags (mkPass1 (initialResult defaultLanguage) [] []).

Definition unflattenTags (tags : list NostrTag) (defaultLanguage : string)
    : option obj :=
  let st := firstPass tags defaultLanguage in
  let result :=
    match p1_keywords st with
    | [] => p1_result st
    | ks => obj_set "keywords" (JArr (map JStr ks)) (p1_result st)
    end in
  processGroups tags (p1_groups st) [] result.

(** The event as [nostrToAmb] receives it: [tags] may be missing or not an
    array ([None]). *)
Record NostrEvent : Type := mkNostrEvent {
  ev_kind : Z;
  ev_tags : option (list NostrTag)
}.

Definition eventOf (e : NostrEducationalEvent) : NostrEvent :=
  mkNostrEvent (kind e) (Some (tags e)).

(** [options?.defaultLanguage || 'de'] *)
Definition languageOf (defaultLanguage : option string) : string :=
  match defaultLanguage with
  | Some l => if Str.truthy l then l else "de"
  | None => "de"
  end.

(** [!amb.type || !Array.isArray(amb.type) || amb.type.length === 0] *)
Definition missingType (amb : obj) : bool :=
  match obj_get "type" amb with
  | Some (JArr (_ :: _)) => false
  | _ => true
  end.

(** The text of the engine's exception, which follows the prefix in the
    source, is not modelled. *)
Definition conversionFailed : ConversionError :=
  mkError "Conversion failed: " CONVERSION_FAILED.

Definition nostrToAmb (event : NostrEvent) (defaultLanguage : option string)
    : ConversionResult obj :=
  if negb (ev_kind event =? AMB_KIND)%Z then
    Failure (mkError "Invalid event kind. Expected 30142 for AMB events."
                     INVALID_FORMAT)
  else
    match ev_tags event with
    | None => Failure (mkError "Event must have a tags array" INVALID_FORMAT)
    | Some tags =>
        match unflattenTags tags (languageOf defaultLanguage) with
        | None => Failure conversionFailed
        | Some amb =>
            if negb (prop_truthy "id" amb) then
              Failure (mkError "Missing required field: id (d tag)"
                               MISSING_REQUIRED_FIELD)
            else if negb (prop_truthy "name" amb) then
              Failure (mkError "Missing required field: name"
                               MISSING_REQUIRED_FIELD)
            else if missingType amb then
              Failure (mkError "Missing required field: type"
                               MISSING_REQUIRED_FIELD)
            else Success amb []
        end
    end.

(** ** Vocabulary of the properties *)

(** A two-element tag whose key has base key [b]. *)
Definition tagOf (b : string) (t : NostrTag) : Prop :=
  exists k v, t = [k; v] /\ Str.baseKey k = b.

(** The output of the flattener as a sequence of blocks, each under one
    base key. *)
Definition coreBlocks (id name : string) (r : AmbLearningResource)
    (options : ConversionOptions) : list (string * list NostrTag) :=
  [ ("d", [createTag "d" id]);
    ("type", map (createTag "type") (amb_type r));
    ("name", [createTag "name" name]);
    ("description", optTag "description" (amb_description r));
    ("t", forEachOpt (amb_keywords r)
            (fun keyword => [createTag "t" (Str.toLowerCase keyword)]));
    ("inLanguage",
      forEachOpt (amb_inLanguage r) (fun lang => [createTag "inLanguage" lang]));
    ("creator", forEachOpt (amb_creator r) creatorTags);
    ("publisher", forEachOpt (amb_publisher r) publisherTags);
    ("license", match amb_license r with
                | Some l => strTag "license:id" (license_id l)
                | None => []
                end);
    ("isAccessibleForFree",
      match amb_isAccessibleForFree r with
      | Some b => [createTag "isAccessibleForFree" (boolToString b)]
      | None => []
      end);
    ("conditionsOfAccess",
      match amb_conditionsOfAccess r with
      | Some c => conceptTags "conditionsOfAccess" c
      | None => []
      end);
    ("about", forEachOpt (amb_about r) (conceptTags "about"));
    ("educationalLevel",
      forEachOpt (amb_educationalLevel r) (conceptTags "educationalLevel"));
    ("audience", forEachOpt (amb_audience r) (conceptTags "audience"));
    ("learningResourceType",
      forEachOpt (amb_learningResourceType r)
        (conceptTags "learningResourceType"));
    ("datePublished", optTag "datePublished" (amb_datePublished r));
    ("dateCreated", optTag "dateCreated" (amb_dateCreated r));
    ("image", optTag "image" (amb_image r));
    ("r", forEachOpt (opt_relayHints options) (fun relay => [createTag "r" relay]))
  ].

Definition relationshipBlocks (r : AmbLearningResource)
    : list (string * list NostrTag) :=
  [ ("hasPart", forEachOpt (amb_hasPart r) hasPartTags);
    ("isPartOf", forEachOpt (amb_isPartOf r) isPartOfTags);
    ("isBasedOn", forEachOpt (amb_isBasedOn r) isBasedOnTags) ].

Definition flatten (blocks : list (string * list NostrTag)) : list NostrTag :=
  flat_map snd blocks.

Definition based (blocks : list (string * list NostrTag)) : Prop :=
  Forall (fun bt => Forall (tagOf (fst bt)) (snd bt)) blocks.

(** A resource with a non-empty [id] and a non-empty [name]. *)
Definition identified (r : AmbLearningResource) (id name : string) : Prop :=
  amb_id r = Some id /\ id <> "" /\ amb_name r = Some name /\ name <> "".

(** An optional string that is absent or empty. *)
Definition missing (v : option string) : Prop := v = None \/ v = Some "".

(** [s.includes(sub)], as the tests use it on error messages. *)
Fixpoint includes (s sub : string) : bool :=
  String.prefix sub s
  || match s with
     | EmptyString => false
     | String _ s' => includes s' sub
     end.

(** The tags whose key starts with [hasPart:], [isPartOf:] or [isBasedOn:]. *)
Definition isRelationshipTag (t : NostrTag) : bool :=
  match t with
  | key :: _ =>
      Str.startsWith key "hasPart:" || Str.startsWith key "isPartOf:"
      || Str.startsWith key "isBasedOn:"
  | [] => false
  end.

(** The tags of a result, when there are any. *)
Definition resultTags (res : ConversionResult NostrEducationalEvent)
    : option (list NostrTag) :=
  match res with
  | Success e _ => Some (tags e)
  | Failure _ => None
  end.

(** The key under which the first pass files a tag in [tagGroups], if it
    does. *)
Definition groupedKey (tag : NostrTag) : option string :=
  match destTag tag with
  | None => None
  | Some (key, values) =>
      match (if key =? "d" then truthyFirst values else None) with
      | Some _ => None
      | None =>
          match (if key =? "t" then truthyFirst values else None) with
          | Some _ => None
          | None => Some key
          end
      end
  end.

(** The values the first pass assigns to [result.id], in order. *)
Definition dValue (tag : NostrTag) : option string :=
  match destTag tag with
  | Some (key, values) => if key =? "d" then truthyFirst values else None
  | None => None
  end.

Definition dValues (tags : list NostrTag) : list string :=
  filterMap dValue tags.

(** The values the first pass pushes on [keywords], in order. *)
Definition tValue (tag : NostrTag) : option string :=
  match destTag tag with
  | Some (key, values) =>
      if key =? "t" then truthyFirst values else None
  | None => None
  end.

Definition tValues (tags : list NostrTag) : list string :=
  filterMap tValue tags.

(** [result] after the first pass and the assignment of [keywords]. *)
Definition resultAfterFirstPass (tags : list NostrTag) (defaultLanguage : string)
    : obj :=
  let st := firstPass tags defaultLanguage in
  match p1_keywords st with
  | [] => p1_result st
  | ks => obj_set "keywords" (JArr (map JStr ks)) (p1_result st)
  end.

(** The tags give nothing under base key [b]. *)
Definition givesNothing (b : string) (tags : list NostrTag) : Prop :=
  forall tag k, In tag tags -> groupedKey tag = Some k -> Str.baseKey k <> b.

Definition failsWith (c : ConversionErrorCode) (res : ConversionResult obj)
    : Prop :=
  exists e, res = Failure e /\ code e = c.

Definition keyOf (t : NostrTag) : string := hd "" t.

(** The element of [relatedTags] made from a tag. *)
Definition asRelated (t : NostrTag) : RelatedTag := mkRelated (hd "" t) (tl t).

(** The blocks filed under base key [b]. *)
Definition blocksOf (b : string) (blocks : list (string * list NostrTag))
    : list (string * list NostrTag) :=
  filter (fun bt => fst bt =? b) blocks.

(** A block whose keys are all [b], or all start with [b:]. *)
Definition uniformBlock (b : string) (ts : list NostrTag) : Prop :=
  Forall (fun t => keyOf t = b) ts
  \/ Forall (fun t => Str.startsWith (keyOf t) (b ++ ":") = true) ts.

(** A base key that is neither empty nor one of the reserved keys. *)
Definition plainBase (b : string) : Prop :=
  b <> "" /\ b <> "d" /\ b <> "t" /\ Str.hasColon b = false.

(** All the blocks of an event. *)
Definition allBlocks (id name : string) (r : AmbLearningResource)
    (options : ConversionOptions) : list (string * list NostrTag) :=
  coreBlocks id name r options
  ++ (if includesRelationships options then relationshipBlocks r else []).

(** A resource that has none of the optional fields beyond [description],
    [keywords] and [inLanguage]. *)
Definition simple (r : AmbLearningResource) : Prop :=
  amb_creator r = None /\ amb_publisher r = None /\ amb_license r = None
  /\ amb_isAccessibleForFree r = None /\ amb_conditionsOfAccess r = None
  /\ amb_about r = None /\ amb_educationalLevel r = None
  /\ amb_audience r = None /\ amb_learningResourceType r = None
  /\ amb_datePublished r = None /\ amb_dateCreated r = None
  /\ amb_image r = None /\ amb_hasPart r = None /\ amb_isPartOf r = None
  /\ amb_isBasedOn r = None.

(** An array of strings as a JavaScript value. *)
Definition strings (l : list string) : jsval := JArr (map JStr l).

(** A resource with only [id], [type], [name] and keywords. *)
Definition resourceWithKeywords (keywords : list string) : AmbLearningResource :=
  {| amb_id := Some "https://example.org/c1";
     amb_type := ["LearningResource"; "Course"];
     amb_name := Some "X";
     amb_description := None;
     amb_keywords := Some keywords;
     amb_inLanguage := None;
     amb_creator := None; amb_publisher := None; amb_license := None;
     amb_isAccessibleForFree := None; amb_conditionsOfAccess := None;
     amb_about := None; amb_educationalLevel := None; amb_audience := None;
     amb_learningResourceType := None; amb_datePublished := None;
     amb_dateCreated := None; amb_image := None; amb_hasPart := None;
     amb_isPartOf := None; amb_isBasedOn := None |}.

Definition noOptions : ConversionOptions :=
  {| opt_pubkey := None; opt_includeRelationships := None;
     opt_timestamp := None; opt_deterministicIds := None;
     opt_relayHints := None |}.

(** The first conversion chained into the second. *)
Definition roundTrip (now : Z) (r : AmbLearningResource)
    (o : ConversionOptions) (dl : option string) : option (ConversionResult obj) :=
  match ambToNostr now r o with
  | Success e _ => Some (nostrToAmb (eventOf e) dl)
  | Failure _ => None
  end.

Definition isAboutPrefLabelTag (t : NostrTag) : bool :=
  Str.startsWith (keyOf t) "about:prefLabel:".

(** A [prefLabel] object: language code to label. *)
Definition labelObject (labels : LocalizedString) : jsval :=
  JObj (map (fun e => (fst e, JStr (snd e))) labels).

(** The object a Concept comes back as, with the given labels. *)
Definition conceptObject (c : Concept) (labels : LocalizedString) : obj :=
  (if Str.truthy (concept_id c) then [("id", JStr (concept_id c))] else [])
  ++ [("prefLabel", labelObject labels)]
  ++ match concept_type c with
     | Some t => if Str.truthy t then [("type", JStr t)] else []
     | None => []
     end.

(** A resource with one subject, labelled in three languages. *)
Definition resourceAbout (labels : LocalizedString) : AmbLearningResource :=
  {| amb_id := Some "https://example.org/c1";
     amb_type := ["LearningResource"; "Course"];
     amb_name := Some "X";
     amb_description := None;
     amb_keywords := None;
     amb_inLanguage := None;
     amb_creator := None; amb_publisher := None; amb_license := None;
     amb_isAccessibleForFree := None; amb_conditionsOfAccess := None;
     amb_about :=
       Some [ {| concept_id := "http://example.org/concept";
                 concept_type := Some "Concept";
                 concept_prefLabel := Some labels |} ];
     amb_educationalLevel := None; amb_audience := None;
     amb_learningResourceType := None; amb_datePublished := None;
     amb_dateCreated := None; amb_image := None; amb_hasPart := None;
     amb_isPartOf := None; amb_isBasedOn := None |}.

(** The two tags of an agent given by its name and type, as
    [relatedTags] holds them. *)
Definition creatorPair (a : string * string) : list RelatedTag :=
  [mkRelated "creator:name" [fst a]; mkRelated "creator:type" [snd a]].

Definition agentObject (a : string * string) : obj :=
  [("name", JStr (fst a)); ("type", JStr (snd a))].

Definition wellNamed (a : string * string) : Prop :=
  fst a <> "" /\ snd a <> "".

(** [objects] with [currentObject] added when it is not empty. *)
Definition finish (st : NestedState) : list obj :=
  if isEmptyObj (snd st) then fst st else fst st ++ [snd st].

(** The tag at position [n] is an [inLanguage] sibling of the tag whose
    key has the segments [parts]. *)
Definition siblingAt (all : list RelatedTag) (parts : list string) (n : nat)
    (s : RelatedTag) : Prop :=
  nth_error all n = Some s /\ rt_key s = langKeyOf parts.

(** Position [n] is within one position of [idx]. *)
Definition nextTo (idx : Z) (n : nat) : Prop :=
  (idx - 1 <= Z.of_nat n <= idx + 1)%Z.

(** The keys of [groups] are keys that the first pass files. *)
Definition fromTags (tags : list NostrTag) (groups : TagGroups) : Prop :=
  forall k, In k (map fst groups) ->
            exists tag, In tag tags /\ groupedKey tag = Some k.

(** A course that lists no type. *)
Definition untypedAbout (labels : LocalizedString) : AmbLearningResource :=
  {| amb_id := Some "https://example.org/c1";
     amb_type := [];
     amb_name := Some "X";
     amb_description := None;
     amb_keywords := None;
     amb_inLanguage := None;
     amb_creator := None; amb_publisher := None; amb_license := None;
     amb_isAccessibleForFree := None; amb_conditionsOfAccess := None;
     amb_about :=
       Some [ {| concept_id := "http://example.org/concept";
                 concept_type := Some "Concept";
                 concept_prefLabel := Some labels |} ];
     amb_educationalLevel := None; amb_audience := None;
     amb_learningResourceType := None; amb_datePublished := None;
     amb_dateCreated := None; amb_image := None; amb_hasPart := None;
     amb_isPartOf := None; amb_isBasedOn := None |}.

(** Two [d] tags and a tag under [id]. *)
Definition twoDAndIdTags : list NostrTag :=
  [["d"; "a"]; ["d"; "b"]; ["id"; "c"]; ["name"; "n"]; ["type"; "T"]].

Definition twoDAndIdResource : obj :=
  [("@context", JArr [JStr AMB_CONTEXT; JObj [("@language", JStr "de")]]);
   ("id", JStr "c"); ("name", JStr "n"); ("type", JArr [JStr "T"])].

(** ** Sample inputs *)

(** An event of the AMB kind with the given tags. *)
Definition ambEvent (tags : list NostrTag) : NostrEvent :=
  mkNostrEvent AMB_KIND (Some tags).

(** Two [d] tags. *)
Definition twoDTags : list NostrTag :=
  [["d"; "a"]; ["d"; "b"]; ["name"; "n"]; ["type"; "T"]].

Definition twoDResource : obj :=
  [("@context", JArr [JStr AMB_CONTEXT; JObj [("@language", JStr "de")]]);
   ("id", JStr "b"); ("name", JStr "n"); ("type", JArr [JStr "T"])].

(** A scalar under [a:b], then a property below it. *)
Definition nestedUnderScalar : list NostrTag :=
  [["d"; "i"]; ["name"; "n"]; ["type"; "T"]; ["a:b"; "x"]; ["a:b:c"; "y"]].

Definition optionsAt (timestamp : Z) : ConversionOptions :=
  {| opt_pubkey := Some "1234567890abcdef1234567890abcdef1234567890abcdef1234567890abcdef";
     opt_includeRelationships := None;
     opt_timestamp := Some timestamp;
     opt_deterministicIds := None;
     opt_relayHints := None |}.

Definition withoutRelationships : ConversionOptions :=
  {| opt_pubkey := None; opt_includeRelationships := Some false;
     opt_timestamp := Some 1700000000%Z; opt_deterministicIds := None;
     opt_relayHints := None |}.

(** A course with one part and one parent. *)
Definition courseWithParts : AmbLearningResource :=
  {| amb_id := Some "https://oer.gitlab.io/OS";
     amb_type := ["LearningResource"; "Course"];
     amb_name := Some "Computer Structures and Operating Systems";
     amb_description := None; amb_keywords := None; amb_inLanguage := Some ["en"];
     amb_creator := None; amb_publisher := None; amb_license := None;
     amb_isAccessibleForFree := Some true; amb_conditionsOfAccess := None;
     amb_about := None; amb_educationalLevel := None; amb_audience := None;
     amb_learningResourceType := None; amb_datePublished := None;
     amb_dateCreated := None; amb_image := None;
     amb_hasPart :=
       Some [ {| ref_id := "https://oer.gitlab.io/OS/Operating-Systems-JiTT.html";
                 ref_type := Some ["LearningResource"];
                 ref_name := Some "JiTT" |} ];
     amb_isPartOf :=
       Some [ {| ref_id := "https://example.org/programme";
                 ref_type := None; ref_name := None |} ];
     amb_isBasedOn := None |}.

(** The same course without an [id]. *)
Definition courseWithoutId : AmbLearningResource :=
  {| amb_id := None;
     amb_type := ["LearningResource"; "Course"];
     amb_name := Some "Computer Structures and Operating Systems";
     amb_description := None; amb_keywords := None; amb_inLanguage := None;
     amb_creator := None; amb_publisher := None; amb_license := None;
     amb_isAccessibleForFree := None; amb_conditionsOfAccess := None;
     amb_about := None; amb_educationalLevel := None; amb_audience := None;
     amb_learningResourceType := None; amb_datePublished := None;
     amb_dateCreated := None; amb_image := None; amb_hasPart := None;
     amb_isPartOf := None; amb_isBasedOn := None |}.

(** A label, then its language. *)
Definition labelThenLanguage : list RelatedTag :=
  [mkRelated "about:prefLabel" ["Informatik"]; mkRelated "about:inLanguage" ["de"]].

(** ** Tag helpers (src/types/nostr.ts) and type guards (src/types/amb.ts) *)

(** [tag[0] === tagType] *)
Definition hasKey (tagType : string) (tag : NostrTag) : bool :=
  match tag with
  | key :: _ => key =? tagType
  | [] => false
  end.

(** [tag[1]], [None] for [undefined]. *)
Definition tagValue (tag : NostrTag) : option string := nth_error tag 1.

Definition findTags (event : NostrEducationalEvent) (tagType : string)
    : list NostrTag :=
  filter (hasKey tagType) (tags event).

Definition getTagValue (event : NostrEducationalEvent) (tagType : string)
    : option string :=
  match find (hasKey tagType) (tags event) with
  | Some tag => tagValue tag
  | None => None
  end.

(** [filter(...).map(tag => tag[1]).filter(value => value !== undefined)] *)
Definition getTagValues (event : NostrEducationalEvent) (tagType : string)
    : list string :=
  filterMap (fun value => value)
    (map tagValue (filter (hasKey tagType) (tags event))).

(** [isValidNostrEvent] on an event of the interface: the [typeof] tests
    hold by typing, what is left is [obj.pubkey.length === 64] (the length
    in code units, which is the length of the string for the ASCII keys
    the converter deals with). *)
Definition isValidNostrEvent (obj : NostrEducationalEvent) : bool :=
  Nat.eqb (String.length (pubkey obj)) 64.

(** [Object.values(NostrEducationalKind)] is [["AMB", 30142]]: a number is
    included when it is 30142. *)
Definition isEducationalEvent (event : NostrEducationalEvent) : bool :=
  isValidNostrEvent event && (kind event =? AMB_KIND)%Z.

Definition getNostrResourceType (event : NostrEducationalEvent)
    : option string :=
  getTagValue event "resource_type".

(** [isAmbLearningResource] on a resource of the interface: [id] and
    [name] are strings when they are there, [type] is an array. *)
Definition isAmbLearningResource (obj : AmbLearningResource) : bool :=
  match amb_id obj with Some _ => true | None => false end
  && Str.mem "LearningResource" (amb_type obj)
  && match amb_name obj with Some _ => true | None => false end.

Definition getResourceType (resource : AmbLearningResource) : string :=
  let types :=
    filter (fun t => negb (t =? "LearningResource")) (amb_type resource) in
  match types with
  | t :: _ => if Str.truthy t then t else "LearningResource"
  | [] => "LearningResource"
  end.

Definition isResourceType (resource : AmbLearningResource) (type : string)
    : bool :=
  Str.mem type (amb_type resource).

(** A tag that the unflattener does not skip. *)
Definition wellFormed (tag : NostrTag) : bool :=
  match destTag tag with Some _ => true | None => false end.

(** [xs || []] for an optional list. *)
Definition orEmpty {A : Type} (xs : option (list A)) : list A :=
  match xs with Some l => l | None => [] end.

(** A course by Dr. Jens, with a publisher. *)
Definition authoredCourse : AmbLearningResource :=
  {| amb_id := Some "https://oer.gitlab.io/OS";
     amb_type := ["LearningResource"; "Course"];
     amb_name := Some "Computer Structures and Operating Systems";
     amb_description := Some "An introduction";
     amb_keywords := Some ["Computer Science"; "operation systems"];
     amb_inLanguage := Some ["en"];
     amb_creator :=
       Some [ AgentPerson
                {| person_id := Some "https://orcid.org/0000-0002-3064-147X";
                   person_type := "Person";
                   person_name := "Jens";
                   person_honorificPrefix := Some "Dr.";
                   person_affiliation :=
                     Some {| org_id := None; org_type := "Organization";
                             org_name := "WWU" |} |} ];
     amb_publisher :=
       Some [ AgentOrganization
                {| org_id := None; org_type := "Organization";
                   org_name := "Tutory" |} ];
     amb_license :=
       Some {| license_id := "https://creativecommons.org/licenses/by-sa/4.0/" |};
     amb_isAccessibleForFree := Some true;
     amb_conditionsOfAccess := None;
     amb_about := None; amb_educationalLevel := None; amb_audience := None;
     amb_learningResourceType := None;
     amb_datePublished := Some "2020-06-25";
     amb_dateCreated := Some "2020-06-25";
     amb_image := Some "https://example.org/image.png";
     amb_hasPart := None; amb_isPartOf := None; amb_isBasedOn := None |}.

(** A resource whose [id] is the empty string. *)
Definition courseWithEmptyId : AmbLearningResource :=
  {| amb_id := Some "";
     amb_type := ["LearningResource"; ""; "Course"];
     amb_name := Some "Computer Structures and Operating Systems";
     amb_description := None; amb_keywords := None; amb_inLanguage := None;
     amb_creator := None; amb_publisher := None; amb_license := None;
     amb_isAccessibleForFree := None; amb_conditionsOfAccess := None;
     amb_about := None; amb_educationalLevel := None; amb_audience := None;
     amb_learningResourceType := None; amb_datePublished := None;
     amb_dateCreated := None; amb_image := None; amb_hasPart := None;
     amb_isPartOf := None; amb_isBasedOn := None |}.

(** ** Segments of a key *)

(** The segments the walk of [reconstructNestedObjects] visits for a key,
    and the property name it assigns at the end. *)
Definition innerSegments (key : string) : list string :=
  innerPath (Str.split key).

Definition lastSegment (key : string) : string :=
  finalKeyOf (Str.split key).

(** A key with no inner segment whose last segment is not in [P], or with
    one inner segment, which is in [P]. *)
Definition nestsUnder (P : list string) (key : string) : Prop :=
  (innerSegments key = [] /\ ~ In (lastSegment key) P)
  \/ (exists p, innerSegments key = [p] /\ In p P).

(** The properties named in [P] are absent or hold objects. *)
Definition objectsAt (P : list string) (o : obj) : Prop :=
  forall p, In p P ->
    obj_get p o = None \/ exists child, obj_get p o = Some (JObj child).

(** The property names every object inherits: the model of objects as
    own properties does not cover keys with such a segment. *)
Definition prototypeNames : list string :=
  ["constructor"; "__proto__"; "hasOwnProperty"; "isPrototypeOf";
   "propertyIsEnumerable"; "toLocaleString"; "toString"; "valueOf";
   "__defineGetter__"; "__defineSetter__"; "__lookupGetter__";
   "__lookupSetter__"].

Definition ownName (s : string) : Prop := ~ In s prototypeNames.

(** A key none of whose segments is an inherited name. *)
Definition ownNames (key : string) : Prop := Forall ownName (Str.split key).

(** ** The inputs the model covers *)

(** A name made of digits only.  JavaScript lists the properties whose
    name is an array index before the others, whatever the order in which
    they were written; the model keeps the order of writing, so names of
    this form are set aside. *)
Fixpoint allDigits (s : string) : bool :=
  match s with
  | EmptyString => true
  | String c s' =>
      let n := nat_of_ascii c in
      (48 <=? n)%nat && (n <=? 57)%nat && allDigits s'
  end.

Definition numericName (s : string) : bool :=
  Str.truthy s && allDigits s.

(** A segment of a key that is the name of an own property like any other:
    not an inherited name, not an own property of a string ([length], the
    indices), not an array index. *)
Definition plainSegment (s : string) : Prop :=
  ownName s /\ s <> "length" /\ numericName s = false.

(** A key made of such segments, with at most one inner segment: a walk
    that reaches a string then ends there, and the assignment raises. *)
Definition modelledKey (key : string) : Prop :=
  Forall plainSegment (Str.split key)
  /\ (length (innerSegments key) <= 1)%nat.

(** A tag with such a key; the value of an [inLanguage] tag, which the
    [prefLabel] case makes the name of a property, is no inherited name. *)
Definition modelledTag (t : NostrTag) : Prop :=
  modelledKey (keyOf t)
  /\ (lastSegment (keyOf t) = "inLanguage" -> ownName (hd "" (tl t))).

(** An object none of whose properties, at any depth, has an inherited
    name: [hasOwnProperty] called on it is the method of the prototype. *)
Fixpoint plainValue (v : jsval) : bool :=
  match v with
  | JUndef => true
  | JStr _ => true
  | JArr items => forallb plainValue items
  | JObj fields =>
      forallb (fun kv => match kv with
                         | (k, v') =>
                             negb (Str.mem k prototypeNames) && plainValue v'
                         end) fields
  end.

Definition plainObject (o : obj) : Prop := plainValue (JObj o) = true.

(** An affiliation given under [creator:affiliation:name] only. *)
Definition affiliatedCreator : list NostrTag :=
  [["d"; "i"]; ["name"; "n"]; ["type"; "T"]; ["broken"];
   ["creator:name"; "Jens"]; ["creator:affiliation:name"; "WWU"]].

(** The first value of a tag whose key is [K]. *)
Definition valueAt (K : string) (t : NostrTag) : option string :=
  match destTag t with
  | Some (k, v :: _) => if k =? K then Some v else None
  | _ => None
  end.

Definition valuesAt (K : string) (tags : list NostrTag) : list string :=
  filterMap (valueAt K) tags.

(** [@context] as [unflattenTags] sets it up. *)
Definition contextFor (language : string) : jsval :=
  JArr [JStr AMB_CONTEXT; JObj [("@language", JStr language)]].

(** Two [name] tags, two [t] tags of which one is empty. *)
Definition twoNames : list NostrTag :=
  [["d"; "i"]; ["name"; "a"]; ["t"; "x"]; ["name"; "b"; "c"]; ["t"; ""];
   ["type"; "T"]; ["t"; "y"]].

Definition twoNamesResource : obj :=
  [("@context", contextFor "de"); ("id", JStr "i");
   ("keywords", strings ["x"; "y"]); ("name", strings ["a"; "b"]);
   ("t", JArr []); ("type", strings ["T"])].

(** ** Round trips *)

(** The Concepts of a resource, in the order in which they are flattened. *)
Definition conceptsOf (r : AmbLearningResource) : list Concept :=
  match amb_conditionsOfAccess r with Some c => [c] | None => [] end
  ++ orEmpty (amb_about r)
  ++ orEmpty (amb_educationalLevel r)
  ++ orEmpty (amb_audience r)
  ++ orEmpty (amb_learningResourceType r).

(** The language codes of the labels of a Concept. *)
Definition languagesOf (c : Concept) : list string :=
  map fst (orEmpty (concept_prefLabel c)).

(** A language code that is one segment of a key, and no inherited name. *)
Definition plainCode (l : string) : Prop :=
  Str.hasColon l = false /\ ownName l.

Definition plainCodes (r : AmbLearningResource) : Prop :=
  Forall (fun c => Forall plainCode (languagesOf c)) (conceptsOf r).

(** The inner segments of the keys the flattener writes. *)
Definition nestingNames : list string := ["affiliation"; "prefLabel"].

(** What [authoredCourse] comes back as. *)
Definition authoredCourseBack : obj :=
  [("@context", contextFor "de");
   ("id", JStr "https://oer.gitlab.io/OS");
   ("keywords", strings ["computer science"; "operation systems"]);
   ("type", strings ["LearningResource"; "Course"]);
   ("name", JStr "Computer Structures and Operating Systems");
   ("description", JStr "An introduction");
   ("inLanguage", strings ["en"]);
   ("creator",
     JArr [JObj [("name", JStr "Dr. Jens"); ("type", JStr "Person");
                 ("id", JStr "https://orcid.org/0000-0002-3064-147X");
                 ("honorificPrefix", JStr "Dr.");
                 ("affiliation",
                   JObj [("name", JStr "WWU");
                         ("type", JStr "Organization")])]]);
   ("publisher",
     JArr [JObj [("name", JStr "Tutory"); ("type", JStr "Organization")]]);
   ("license",
     JObj [("id", JStr "https://creativecommons.org/licenses/by-sa/4.0/")]);
   ("isAccessibleForFree", JStr "true");
   ("datePublished", JStr "2020-06-25");
   ("dateCreated", JStr "2020-06-25");
   ("image", JStr "https://example.org/image.png")].

(** Keywords of which one is empty. *)
Definition emptyKeyword : AmbLearningResource :=
  resourceWithKeywords ["Physics"; ""; "OER"].

Definition emptyKeywordBack : obj :=
  [("@context", contextFor "de");
   ("id", JStr "https://example.org/c1");
   ("keywords", strings ["physics"; "oer"]);
   ("type", strings ["LearningResource"; "Course"]);
   ("name", JStr "X");
   ("t", JArr [])].

(** ** Objects that come back *)

(** [[o]] collapses to [o], as at the end of [reconstructNestedObjects]. *)
Definition collapse (objects : list obj) : jsval :=
  match objects with
  | [o] => JObj o
  | _ => JArr (map JObj objects)
  end.

(** A property that is there when its value is not empty. *)
Definition field (k v : string) : obj :=
  if Str.truthy v then [(k, JStr v)] else [].

Definition optField (k : string) (v : option string) : obj :=
  match v with
  | Some s => field k s
  | None => []
  end.

(** The tags of a reference under [field], as [hasPart] and [isPartOf]
    write them. *)
Definition referenceTags (field : string) (p : Reference) : list NostrTag :=
  [createTag (field ++ ":id") (ref_id p)]
  ++ optTag (field ++ ":name") (ref_name p)
  ++ typeTags field (ref_type p).

(** A reference with a non-empty [id] and at most one type. *)
Definition simpleReference (p : Reference) : Prop :=
  ref_id p <> "" /\ (length (orEmpty (ref_type p)) <= 1)%nat.

(** What a reference comes back as: its one type is a string. *)
Definition referenceBack (p : Reference) : obj :=
  [("id", JStr (ref_id p))]
  ++ optField "name" (ref_name p)
  ++ match ref_type p with
     | Some [t] => field "type" t
     | _ => []
     end.

(** A reference without its types, as [isBasedOn] writes it. *)
Definition untyped (p : Reference) : Reference :=
  {| ref_id := ref_id p; ref_type := None; ref_name := ref_name p |}.

(** An object with the one property [type]. *)
Definition typeOnly (t : string) : obj := [("type", JStr t)].

(** The first object a reference with several types comes back as. *)
Definition firstFragment (p : Reference) (t : string) : obj :=
  [("id", JStr (ref_id p))] ++ optField "name" (ref_name p)
  ++ [("type", JStr t)].

Definition courseWithPartsBack : obj :=
  [("@context", contextFor "de");
   ("id", JStr "https://oer.gitlab.io/OS");
   ("type", strings ["LearningResource"; "Course"]);
   ("name", JStr "Computer Structures and Operating Systems");
   ("inLanguage", strings ["en"]);
   ("isAccessibleForFree", JStr "true");
   ("hasPart",
     JObj [("id", JStr "https://oer.gitlab.io/OS/Operating-Systems-JiTT.html");
           ("name", JStr "JiTT"); ("type", JStr "LearningResource")]);
   ("isPartOf", JObj [("id", JStr "https://example.org/programme")])].

(** A course whose part has two types. *)
Definition courseWithTypedPart : AmbLearningResource :=
  {| amb_id := Some "https://oer.gitlab.io/OS";
     amb_type := ["LearningResource"; "Course"];
     amb_name := Some "Computer Structures and Operating Systems";
     amb_description := None; amb_keywords := None; amb_inLanguage := None;
     amb_creator := None; amb_publisher := None; amb_license := None;
     amb_isAccessibleForFree := None; amb_conditionsOfAccess := None;
     amb_about := None; amb_educationalLevel := None; amb_audience := None;
     amb_learningResourceType := None; amb_datePublished := None;
     amb_dateCreated := None; amb_image := None;
     amb_hasPart :=
       Some [ {| ref_id := "https://oer.gitlab.io/OS/Operating-Systems-JiTT.html";
                 ref_type := Some ["LearningResource"; "Presentation"];
                 ref_name := Some "JiTT" |} ];
     amb_isPartOf := None;
     amb_isBasedOn := None |}.

Definition courseWithTypedPartBack : obj :=
  [("@context", contextFor "de");
   ("id", JStr "https://oer.gitlab.io/OS");
   ("type", strings ["LearningResource"; "Course"]);
   ("name", JStr "Computer Structures and Operating Systems");
   ("hasPart",
     JArr [JObj [("id",
                  JStr "https://oer.gitlab.io/OS/Operating-Systems-JiTT.html");
                 ("name", JStr "JiTT"); ("type", JStr "LearningResource")];
           JObj [("type", JStr "Presentation")]])].

(** A nested object under [p], which is there when it has a property. *)
Definition nested (p : string) (child : obj) : obj :=
  match child with
  | [] => []
  | _ => [(p, JObj child)]
  end.

(** The entries with a non-empty value. *)
Definition present (fields : list (string * string)) : list (string * string) :=
  filter (fun kv => Str.truthy (snd kv)) fields.

(** The properties written for the entries with a non-empty value. *)
Definition written (fields : list (string * string)) : obj :=
  map (fun kv => (fst kv, JStr (snd kv))) (present fields).

(** A property name below an inner segment that the loop treats like any
    other. *)
Definition ordinaryKey (k : string) : Prop :=
  k <> "" /\ k <> "prefLabel" /\ k <> "inLanguage".

(** The properties of an affiliation. *)
Definition orgFields (org : Organization) : list (string * string) :=
  [("name", org_name org); ("type", org_type org);
   ("id", match org_id org with Some i => i | None => "" end)].

Definition affiliationBack (a : option Organization) : obj :=
  match a with
  | Some org => nested "affiliation" (written (orgFields org))
  | None => []
  end.

(** What a creator comes back as: the name is the one the flattener wrote,
    with the honorific prefix in front. *)
Definition creatorBack (a : Agent) : obj :=
  [("name", JStr (getPersonOrOrgName a))]
  ++ field "type" (agent_type a)
  ++ optField "id" (agent_id a)
  ++ optField "honorificPrefix" (agent_honorificPrefix a)
  ++ affiliationBack (agent_affiliation a).

Definition publisherBack (a : Agent) : obj :=
  [("name", JStr (getPersonOrOrgName a))]
  ++ field "type" (agent_type a)
  ++ optField "id" (agent_id a).

(** An agent whose [creator:name] tag is not empty. *)
Definition named (a : Agent) : Prop := getPersonOrOrgName a <> "".

(** A language code that the loop treats like any other property name,
    and that an object lists where it was added: it is not empty, not
    [prefLabel] or [inLanguage], has no colon, is no inherited name and is
    not made of digits. *)
Definition labelCode (l : string) : Prop :=
  ordinaryKey l /\ Str.hasColon l = false /\ ownName l
  /\ numericName l = false.

(** A Concept with an [id] and labels under distinct language codes. *)
Definition wellLabelled (c : Concept) : Prop :=
  concept_id c <> ""
  /\ NoDup (languagesOf c)
  /\ Forall labelCode (languagesOf c).

(** What a Concept comes back as: the labels with an empty text are gone. *)
Definition conceptBack (c : Concept) : obj :=
  [("id", JStr (concept_id c))]
  ++ nested "prefLabel" (written (orEmpty (concept_prefLabel c)))
  ++ optField "type" (concept_type c).

(** A course with two subjects and one educational level. *)
Definition courseWithSubjects : AmbLearningResource :=
  {| amb_id := Some "https://oer.gitlab.io/OS";
     amb_type := ["LearningResource"; "Course"];
     amb_name := Some "Computer Structures and Operating Systems";
     amb_description := None; amb_keywords := None; amb_inLanguage := None;
     amb_creator := None; amb_publisher := None; amb_license := None;
     amb_isAccessibleForFree := None; amb_conditionsOfAccess := None;
     amb_about :=
       Some [ {| concept_id := "https://w3id.org/kim/hochschulfaechersystematik/n079";
                 concept_type := Some "Concept";
                 concept_prefLabel :=
                   Some [("de", "Informatik"); ("en", "Computer Science")] |};
              {| concept_id := "https://w3id.org/kim/hochschulfaechersystematik/n37";
                 concept_type := None;
                 concept_prefLabel := Some [("de", "Mathematik"); ("en", "")] |} ];
     amb_educationalLevel :=
       Some [ {| concept_id := "https://w3id.org/kim/educationalLevel/level_06";
                 concept_type := None;
                 concept_prefLabel := Some [("en", "Bachelor")] |} ];
     amb_audience := None;
     amb_learningResourceType := None; amb_datePublished := None;
     amb_dateCreated := None; amb_image := None;
     amb_hasPart := None; amb_isPartOf := None; amb_isBasedOn := None |}.

Definition courseWithSubjectsBack : obj :=
  [("@context", contextFor "de");
   ("id", JStr "https://oer.gitlab.io/OS");
   ("type", strings ["LearningResource"; "Course"]);
   ("name", JStr "Computer Structures and Operating Systems");
   ("about",
     JArr [JObj [("id", JStr "https://w3id.org/kim/hochschulfaechersystematik/n079");
                 ("prefLabel",
                   JObj [("de", JStr "Informatik");
                         ("en", JStr "Computer Science")]);
                 ("type", JStr "Concept")];
           JObj [("id", JStr "https://w3id.org/kim/hochschulfaechersystematik/n37");
                 ("prefLabel", JObj [("de", JStr "Mathematik")])]]);
   ("educationalLevel",
     JObj [("id", JStr "https://w3id.org/kim/educationalLevel/level_06");
           ("prefLabel", JObj [("en", JStr "Bachelor")])])].

(** ** Private keys (src/utils/signing.ts) *)

(** The class [[0-9a-fA-F]]. *)
Definition isHexDigit (c : ascii) : bool :=
  let n := nat_of_ascii c in
  ((48 <=? n)%nat && (n <=? 57)%nat)
  || ((97 <=? n)%nat && (n <=? 102)%nat)
  || ((65 <=? n)%nat && (n <=? 70)%nat).

Fixpoint allHex (s : string) : bool :=
  match s with
  | EmptyString => true
  | String c s' => isHexDigit c && allHex s'
  end.

(** [/^[0-9a-fA-F]{64}$/.test(key)] *)
Definition isHex64 (key : string) : bool :=
  Nat.eqb (String.length key) 64 && allHex key.

(** The digit of [n < 16] in [toString(16)]. *)
Definition hexDigit (n : N) : ascii :=
  match n with
  | 0%N => "0" | 1%N => "1" | 2%N => "2" | 3%N => "3" | 4%N => "4"
  | 5%N => "5" | 6%N => "6" | 7%N => "7" | 8%N => "8" | 9%N => "9"
  | 10%N => "a" | 11%N => "b" | 12%N => "c" | 13%N => "d" | 14%N => "e"
  | _ => "f"
  end%char.

(** [b.toString(16)] for an element of a [Uint8Array]. *)
Definition toString16 (b : Byte.byte) : string :=
  let n := Byte.to_N b in
  if (n <? 16)%N then String (hexDigit n) ""
  else String (hexDigit (n / 16)) (String (hexDigit (n mod 16)) "").

(** [s.padStart(2, '0')] *)
Definition padStart2 (s : string) : string :=
  match s with
  | EmptyString => "00"
  | String c EmptyString => String "0" (String c "")
  | _ => s
  end.

(** [Array.from(bytes).map(b => b.toString(16).padStart(2, '0')).join('')] *)
Fixpoint toHex (bytes : list Byte.byte) : string :=
  match bytes with
  | [] => ""
  | b :: rest => padStart2 (toString16 b) ++ toHex rest
  end.

(** What [nip19.decode] returns: [{ type, data }], the data a string or a
    [Uint8Array] depending on the version of the library. *)
Inductive KeyData : Type :=
| KeyString (s : string)
| KeyBytes (bytes : list Byte.byte).

Record Decoded : Type := mkDecoded {
  dec_type : string;
  dec_data : KeyData
}.

(** The two errors of [parsePrivateKey]: [Failed to decode nsec: ...] and
    [Private key must be 64 hex characters or nsec1... format]. *)
Inductive KeyError : Type :=
| DecodeFailed
| NotHex.

(** [parsePrivateKey], with [nip19.decode] as a parameter ([None] when it
    raises). *)
Definition parsePrivateKey (decode : string -> option Decoded) (key : string)
    : KeyError + string :=
  if Str.startsWith key "nsec1" then
    match decode key with
    | None => inl DecodeFailed
    | Some decoded =>
        if negb (dec_type decoded =? "nsec") then inl DecodeFailed
        else
          match dec_data decoded with
          | KeyString data => inr (Str.toLowerCase data)
          | KeyBytes bytes => inr (toHex bytes)
          end
    end
  else if negb (isHex64 key) then inl NotHex
  else inr (Str.toLowerCase key).

Definition isValidPrivateKey (decode : string -> option Decoded)
    (key : string) : bool :=
  match parsePrivateKey decode key with
  | inr _ => true
  | inl _ => false
  end.

(** A string without upper-case letters. *)
Definition lowerCase (s : string) : Prop := Str.toLowerCase s = s.

(** A decoder that knows one key. *)
Definition sampleDecode (key : string) : option Decoded :=
  if key =? "nsec1sample"
  then Some (mkDecoded "nsec" (KeyBytes (repeat Byte.x0a 31 ++ [Byte.xff])))
  else None.

Definition sampleHexKey : string :=
  "1234567890ABCDEF1234567890abcdef1234567890ABCDEF1234567890abcdef".

(** ** The direction of a conversion (src/cli/commands/convert.ts) *)

(** ['amb:nostr' | 'nostr:amb'] *)
Inductive ConversionDirection : Type :=
| AmbToNostr
| NostrToAmb.

Definition directionName (d : ConversionDirection) : string :=
  match d with
  | AmbToNostr => "amb:nostr"
  | NostrToAmb => "nostr:amb"
  end.

(** The white space of [trim] among the ASCII characters: tab, line feed,
    vertical tab, form feed, carriage return and space. *)
Definition isSpace (c : ascii) : bool :=
  let n := nat_of_ascii c in
  ((9 <=? n)%nat && (n <=? 13)%nat) || Nat.eqb n 32.

Fixpoint allSpace (s : string) : bool :=
  match s with
  | EmptyString => true
  | String c s' => isSpace c && allSpace s'
  end.

Fixpoint trimStart (s : string) : string :=
  match s with
  | EmptyString => EmptyString
  | String c s' => if isSpace c then trimStart s' else s
  end.

Fixpoint trimEnd (s : string) : string :=
  match s with
  | EmptyString => EmptyString
  | String c s' =>
      let t := trimEnd s' in
      if isSpace c && (t =? "") then EmptyString else String c t
  end.

(** [s.trim()], on ASCII strings. *)
Definition trim (s : string) : string := trimEnd (trimStart s).

(** A string of ASCII characters: on these, [toLowerCase] and [trim] are as
    modelled. *)
Fixpoint asciiOnly (s : string) : bool :=
  match s with
  | EmptyString => true
  | String c s' => (nat_of_ascii c <? 128)%nat && asciiOnly s'
  end.

(** [parseDirection]; [None] stands for the error [Invalid conversion
    direction: ...]. *)
Definition parseDirection (direction : string) : option ConversionDirection :=
  let normalized := trim (Str.toLowerCase direction) in
  if (normalized =? "amb:nostr") || (normalized =? "amb-nostr")
  then Some AmbToNostr
  else if (normalized =? "nostr:amb") || (normalized =? "nostr-amb")
  then Some NostrToAmb
  else None.

(** Options that differ from [optionsAt] in everything but the relay hints
    and the relationships. *)
Definition otherOptions : ConversionOptions :=
  {| opt_pubkey := None; opt_includeRelationships := Some true;
     opt_timestamp := Some 1%Z; opt_deterministicIds := Some true;
     opt_relayHints := None |}.

(** An event with a tag that has no value. *)
Definition bareTagEvent : NostrEducationalEvent :=
  {| pubkey := DEFAULT_PUBKEY; created_at := 0; kind := AMB_KIND;
     tags := [["d"; "i"]; ["t"]; ["t"; "x"; "y"]; ["name"; "n"]];
     content := "" |}.

(** ** Records under one base key *)

(** A record: property names and values, in the order of the tags. *)
Definition Fields : Type := list (string * string).

(** The tags [F:k] of a record, as [relatedTags] holds them. *)
Definition recordTags (F : string) (rec : Fields) : list RelatedTag :=
  map (fun kv => mkRelated (F ++ ":" ++ fst kv) [snd kv]) rec.

Definition recordObject (rec : Fields) : obj :=
  map (fun kv => (fst kv, JStr (snd kv))) rec.

Definition firstKey (rec : Fields) : string :=
  match rec with
  | (k, _) :: _ => k
  | [] => ""
  end.

(** A record with at least one property, distinct property names that
    are single segments, no inherited names and not made of digits, and no
    empty value. *)
Definition properRecord (rec : Fields) : Prop :=
  rec <> []
  /\ NoDup (map fst rec)
  /\ Forall (fun kv => ordinaryKey (fst kv) /\ Str.hasColon (fst kv) = false
                       /\ ownName (fst kv) /\ snd kv <> ""
                       /\ numericName (fst kv) = false) rec.

(** Every record but the first starts with a property that the record
    before it has. *)
Fixpoint chained (records : list Fields) : Prop :=
  match records with
  | r1 :: ((r2 :: _) as rest) => In (firstKey r2) (map fst r1) /\ chained rest
  | _ => True
  end.

(** Two records of different shape. *)
Definition twoRecords : list Fields :=
  [[("name", "Jens"); ("role", "author")];
   [("role", "editor"); ("name", "Ada"); ("since", "2020")]].

(** * Properties *)

(** ** Strings and keys *)

Section StringFacts.

Lemma truthy_true (s : string) : Str.truthy s = true <-> s <> "".
Proof.
  unfold Str.truthy. destruct s; simpl; split; intro H;
    congruence || discriminate || reflexivity.
Qed.

Lemma truthy_false (s : string) : Str.truthy s = false <-> s = "".
Proof.
  unfold Str.truthy. destruct s; simpl; split; intro H;
    congruence || discriminate || reflexivity.
Qed.

Lemma split_not_nil (s : string) : Str.split s <> [].
Proof.
  induction s as [|c s IH]; simpl; [discriminate|].
  destruct (Ascii.eqb c Str.colon); [discriminate|].
  destruct (Str.split s); [contradiction | discriminate].
Qed.

Lemma baseKey_cons (c : ascii) (s : string) :
  Str.baseKey (String c s) =
    if Ascii.eqb c Str.colon then "" else String c (Str.baseKey s).
Proof.
  unfold Str.baseKey; simpl.
  destruct (Ascii.eqb c Str.colon); [reflexivity|].
  pose proof (split_not_nil s) as Hs.
  destruct (Str.split s); [contradiction | reflexivity].
Qed.

Lemma baseKey_empty : Str.baseKey "" = "".
Proof. reflexivity. Qed.

Lemma baseKey_no_colon (k : string) : Str.hasColon (Str.baseKey k) = false.
Proof.
  induction k as [|c k IH]; [reflexivity|].
  rewrite baseKey_cons.
  destruct (Ascii.eqb c Str.colon) eqn:E; [reflexivity|].
  simpl. rewrite E, IH. reflexivity.
Qed.

Lemma baseKey_flat (k : string) : Str.hasColon k = false -> Str.baseKey k = k.
Proof.
  induction k as [|c k IH]; [reflexivity|].
  simpl. intro H. apply orb_false_iff in H as [E H].
  rewrite baseKey_cons, E, IH by assumption. reflexivity.
Qed.

(** A key that starts with [b:] has base key [b]. *)
Lemma baseKey_prefixed (b rest : string) :
  Str.hasColon b = false -> Str.baseKey (b ++ ":" ++ rest) = b.
Proof.
  induction b as [|c b IH]; intro H.
  - reflexivity.
  - simpl in H. apply orb_false_iff in H as [E H].
    change ((String c b ++ ":" ++ rest)%string)
      with (String c (b ++ ":" ++ rest)%string).
    rewrite baseKey_cons, E, IH by assumption. reflexivity.
Qed.

Lemma prefix_cons (a b : ascii) (p s : string) :
  String.prefix (String a p) (String b s) = Ascii.eqb a b && String.prefix p s.
Proof.
  cbn [String.prefix]. destruct (ascii_dec a b) as [->|N].
  - rewrite Ascii.eqb_refl. reflexivity.
  - apply Ascii.eqb_neq in N. rewrite N. reflexivity.
Qed.

Lemma prefix_empty (a : ascii) (p : string) :
  String.prefix (String a p) "" = false.
Proof. reflexivity. Qed.

Lemma startsWith_base (k b : string) :
  Str.hasColon b = false ->
  Str.startsWith k (b ++ ":") = true -> Str.baseKey k = b.
Proof.
  unfold Str.startsWith. revert k.
  induction b as [|c b IH]; intros k Hb H.
  - change (("" ++ ":")%string) with (String Str.colon "") in H.
    destruct k as [|c' k]; [discriminate H|].
    rewrite prefix_cons in H. apply andb_prop in H as [E _].
    apply Ascii.eqb_eq in E. subst c'. reflexivity.
  - simpl in Hb. apply orb_false_iff in Hb as [E Hb].
    change ((String c b ++ ":")%string) with (String c (b ++ ":")%string) in H.
    destruct k as [|c' k]; [discriminate H|].
    rewrite prefix_cons in H. apply andb_prop in H as [E' H].
    apply Ascii.eqb_eq in E'. subst c'.
    rewrite baseKey_cons, E. f_equal. apply IH; assumption.
Qed.

(** A key with base key [b] is [b] or starts with [b:]. *)
Lemma base_cases (k : string) :
  k = Str.baseKey k \/ Str.startsWith k (Str.baseKey k ++ ":") = true.
Proof.
  unfold Str.startsWith.
  induction k as [|c k IH]; [left; reflexivity|].
  rewrite baseKey_cons.
  destruct (Ascii.eqb c Str.colon) eqn:E.
  - right. apply Ascii.eqb_eq in E. subst c.
    change (("" ++ ":")%string) with (String Str.colon "").
    rewrite prefix_cons, Ascii.eqb_refl. destruct k; reflexivity.
  - destruct IH as [IH|IH].
    + left. congruence.
    + right.
      change ((String c (Str.baseKey k) ++ ":")%string)
        with (String c (Str.baseKey k ++ ":")%string).
      rewrite prefix_cons, Ascii.eqb_refl. exact IH.
Qed.

Lemma base_test (k b : string) :
  Str.hasColon b = false ->
  ((k =? b) || Str.startsWith k (b ++ ":")) = (Str.baseKey k =? b).
Proof.
  intro Hb.
  destruct (Str.baseKey k =? b) eqn:E.
  - apply String.eqb_eq in E. subst b.
    destruct (base_cases k) as [H|H].
    + rewrite <- H, String.eqb_refl. reflexivity.
    + rewrite H. apply orb_true_r.
  - apply String.eqb_neq in E.
    apply orb_false_iff; split.
    + apply String.eqb_neq. intros ->. apply E, baseKey_flat, Hb.
    + destruct (Str.startsWith k (b ++ ":")) eqn:P; [|reflexivity].
      exfalso. apply E, startsWith_base; assumption.
Qed.

Lemma mem_In (s : string) (xs : list string) :
  Str.mem s xs = true <-> In s xs.
Proof.
  unfold Str.mem. rewrite existsb_exists. split.
  - intros [x [Hx E]]. apply String.eqb_eq in E. subst. assumption.
  - intro H. exists s. split; [assumption | apply String.eqb_refl].
Qed.

Lemma mem_app (s : string) (xs ys : list string) :
  Str.mem s (xs ++ ys) = Str.mem s xs || Str.mem s ys.
Proof. unfold Str.mem. apply existsb_app. Qed.

End StringFacts.

(** ** Objects *)

Section ObjectFacts.

Lemma obj_get_set_same (k : string) (v : jsval) (o : obj) :
  obj_get k (obj_set k v o) = Some v.
Proof.
  induction o as [|[k' v'] o IH]; simpl.
  - rewrite String.eqb_refl. reflexivity.
  - destruct (k =? k') eqn:E; simpl; rewrite E; [reflexivity | exact IH].
Qed.

Lemma obj_get_set_other (k k' : string) (v : jsval) (o : obj) :
  k <> k' -> obj_get k (obj_set k' v o) = obj_get k o.
Proof.
  intro N. induction o as [|[k0 v0] o IH]; simpl.
  - apply String.eqb_neq in N. rewrite N. reflexivity.
  - destruct (k' =? k0) eqn:E; simpl.
    + apply String.eqb_eq in E. subst k0.
      apply String.eqb_neq in N. rewrite N. reflexivity.
    + destruct (k =? k0); [reflexivity | exact IH].
Qed.

End ObjectFacts.

(** ** The shape of the flattener's output *)

Section TagBlocks.

Lemma createTag_of (b key value : string) :
  Str.baseKey key = b -> tagOf b (createTag key value).
Proof. intro H. exists key, value. split; [reflexivity | exact H]. Qed.

Lemma strTag_of (b key s : string) :
  Str.baseKey key = b -> Forall (tagOf b) (strTag key s).
Proof.
  intro H. unfold strTag. destruct (Str.truthy s); constructor.
  - apply createTag_of, H.
  - constructor.
Qed.

Lemma optTag_of (b key : string) (v : option string) :
  Str.baseKey key = b -> Forall (tagOf b) (optTag key v).
Proof.
  intro H. destruct v; simpl; [apply strTag_of, H | constructor].
Qed.

Lemma map_of {A : Type} (b : string) (f : A -> NostrTag) (l : list A) :
  (forall x, tagOf b (f x)) -> Forall (tagOf b) (map f l).
Proof. intro H. induction l; simpl; constructor; auto. Qed.

Lemma forEachOpt_of {A : Type} (P : NostrTag -> Prop)
    (xs : option (list A)) (f : A -> list NostrTag) :
  (forall x, Forall P (f x)) -> Forall P (forEachOpt xs f).
Proof.
  intro H. destruct xs as [l|]; simpl; [|constructor].
  induction l; simpl; [constructor|]. apply Forall_app; split; auto.
Qed.

Lemma conceptTags_of (field : string) (c : Concept) :
  Str.hasColon field = false -> Forall (tagOf field) (conceptTags field c).
Proof.
  intro H. unfold conceptTags.
  repeat (apply Forall_app; split).
  - apply strTag_of. apply (baseKey_prefixed field "id" H).
  - destruct (concept_prefLabel c) as [labels|]; [|constructor].
    apply map_of. intro e. apply createTag_of.
    apply (baseKey_prefixed field ("prefLabel:" ++ fst e) H).
  - apply optTag_of. apply (baseKey_prefixed field "type" H).
Qed.

Lemma typeTags_of (field : string) (t : option (list string)) :
  Str.hasColon field = false -> Forall (tagOf field) (typeTags field t).
Proof.
  intro H. destruct t as [l|]; simpl; [|constructor].
  apply map_of. intro x. apply createTag_of.
  apply (baseKey_prefixed field "type" H).
Qed.

Ltac blocks :=
  repeat first
    [ apply Forall_nil
    | apply Forall_app; split
    | apply Forall_cons
    | apply strTag_of; reflexivity
    | apply optTag_of; reflexivity
    | apply createTag_of; reflexivity
    | apply typeTags_of; reflexivity ].

Lemma creatorTags_of (c : Agent) : Forall (tagOf "creator") (creatorTags c).
Proof.
  unfold creatorTags. destruct (agent_affiliation c); blocks.
Qed.

Lemma publisherTags_of (p : Agent) :
  Forall (tagOf "publisher") (publisherTags p).
Proof. unfold publisherTags. blocks. Qed.

Lemma hasPartTags_of (p : Reference) : Forall (tagOf "hasPart") (hasPartTags p).
Proof. unfold hasPartTags. blocks. Qed.

Lemma isPartOfTags_of (p : Reference) :
  Forall (tagOf "isPartOf") (isPartOfTags p).
Proof. unfold isPartOfTags. blocks. Qed.

Lemma isBasedOnTags_of (p : Reference) :
  Forall (tagOf "isBasedOn") (isBasedOnTags p).
Proof. unfold isBasedOnTags. blocks. Qed.

End TagBlocks.

Section FlattenerShape.

Variables (id name : string) (r : AmbLearningResource)
          (options : ConversionOptions).

Lemma coreTags_blocks :
  coreTags id name r options = flatten (coreBlocks id name r options).
Proof.
  unfold coreTags, flatten, coreBlocks. cbn [flat_map snd].
  rewrite app_nil_r. reflexivity.
Qed.

Lemma relationshipTags_blocks :
  relationshipTags r = flatten (relationshipBlocks r).
Proof.
  unfold relationshipTags, flatten, relationshipBlocks. cbn [flat_map snd].
  rewrite app_nil_r. reflexivity.
Qed.

Lemma coreBlocks_based : based (coreBlocks id name r options).
Proof.
  unfold based, coreBlocks.
  repeat (apply Forall_cons; cbn [fst snd]); try apply Forall_nil;
    try (apply forEachOpt_of; intro);
    try match goal with |- context [match ?x with _ => _ end] => destruct x end;
    first
      [ apply creatorTags_of | apply publisherTags_of
      | apply conceptTags_of; reflexivity
      | apply map_of; intro; apply createTag_of; reflexivity
      | apply optTag_of; reflexivity
      | apply strTag_of; reflexivity
      | repeat constructor; apply createTag_of; reflexivity
      | constructor ].
Qed.

Lemma relationshipBlocks_based : based (relationshipBlocks r).
Proof.
  unfold based, relationshipBlocks.
  repeat (apply Forall_cons; cbn [fst snd]); try apply Forall_nil;
    apply forEachOpt_of; intro;
    first [apply hasPartTags_of | apply isPartOfTags_of | apply isBasedOnTags_of].
Qed.

End FlattenerShape.

(** ** The flattener: validation, clock, relationships *)

Section Flattener.

Lemma presentString_missing (v : option string) :
  missing v -> presentString v = None.
Proof. intros [->| ->]; reflexivity. Qed.

Lemma presentString_some (v : option string) (s : string) :
  v = Some s -> s <> "" -> presentString v = Some s.
Proof.
  intros -> H. simpl. apply truthy_true in H. rewrite H. reflexivity.
Qed.

(** What the flattener returns on an identified resource. *)
Lemma ambToNostr_identified (now : Z) (r : AmbLearningResource)
    (o : ConversionOptions) (id name : string) :
  identified r id name ->
  ambToNostr now r o =
    Success
      {| pubkey := pubkeyOf o;
         created_at := createdAtOf now o;
         kind := AMB_KIND;
         tags := buildTags id name r o;
         content := "" |}
      (if pubkeyOf o =? DEFAULT_PUBKEY then [defaultPubkeyWarning] else []).
Proof.
  intros (Hid & Nid & Hname & Nname). unfold ambToNostr.
  rewrite (presentString_some _ _ Hid Nid), (presentString_some _ _ Hname Nname).
  reflexivity.
Qed.

Lemma filter_none {A : Type} (f : A -> bool) (l : list A) :
  Forall (fun x => f x = false) l -> filter f l = [].
Proof.
  induction 1 as [|x l Hx _ IH]; simpl; [reflexivity|]. rewrite Hx. exact IH.
Qed.

Lemma filter_all {A : Type} (f : A -> bool) (l : list A) :
  Forall (fun x => f x = true) l -> filter f l = l.
Proof.
  induction 1 as [|x l Hx _ IH]; simpl; [reflexivity|]. rewrite Hx, IH.
  reflexivity.
Qed.

Lemma relationship_base (b : string) (t : NostrTag) :
  tagOf b t ->
  isRelationshipTag t = true ->
  In b ["hasPart"; "isPartOf"; "isBasedOn"].
Proof.
  intros (k & v & -> & Hb) H. simpl in H.
  apply orb_prop in H as [H|H]; [apply orb_prop in H as [H|H]|].
  - apply (startsWith_base k "hasPart" eq_refl) in H.
    rewrite Hb in H. subst b. simpl. auto.
  - apply (startsWith_base k "isPartOf" eq_refl) in H.
    rewrite Hb in H. subst b. simpl. auto.
  - apply (startsWith_base k "isBasedOn" eq_refl) in H.
    rewrite Hb in H. subst b. simpl. auto.
Qed.

Lemma based_no_relationship (blocks : list (string * list NostrTag)) :
  based blocks ->
  Forall (fun bt => ~ In (fst bt) ["hasPart"; "isPartOf"; "isBasedOn"]) blocks ->
  Forall (fun t => isRelationshipTag t = false) (flatten blocks).
Proof.
  unfold flatten. induction 1 as [|[b ts] blocks Hb _ IH]; intro Hn; simpl.
  - constructor.
  - inversion Hn as [|? ? Hnb Hrest]; subst. apply Forall_app; split.
    + simpl in *. eapply Forall_impl; [|exact Hb]. intros t Ht.
      destruct (isRelationshipTag t) eqn:E; [|reflexivity].
      exfalso. apply Hnb. eapply relationship_base; eassumption.
    + apply IH, Hrest.
Qed.

Lemma coreTags_no_relationship (id name : string) (r : AmbLearningResource)
    (o : ConversionOptions) :
  Forall (fun t => isRelationshipTag t = false) (coreTags id name r o).
Proof.
  rewrite coreTags_blocks. apply based_no_relationship.
  - apply coreBlocks_based.
  - unfold coreBlocks.
    repeat (apply Forall_cons;
            [cbn [fst In]; intro H;
             repeat (destruct H as [H|H]; [discriminate H|]); exact H|]).
    apply Forall_nil.
Qed.

Lemma relationshipTags_all (r : AmbLearningResource) :
  Forall (fun t => isRelationshipTag t = true) (relationshipTags r).
Proof.
  unfold relationshipTags.
  repeat (apply Forall_app; split); apply forEachOpt_of; intro p.
  - unfold hasPartTags, optTag, strTag, typeTags.
    destruct (ref_name p) as [n|]; [destruct (Str.truthy n)|];
      destruct (ref_type p);
      repeat first [apply Forall_app; split | apply Forall_cons | apply Forall_nil
                   | reflexivity | apply Forall_forall; intros ? Hin;
                     apply in_map_iff in Hin as (? & <- & _) ].
  - unfold isPartOfTags, optTag, strTag, typeTags.
    destruct (ref_name p) as [n|]; [destruct (Str.truthy n)|];
      destruct (ref_type p);
      repeat first [apply Forall_app; split | apply Forall_cons | apply Forall_nil
                   | reflexivity | apply Forall_forall; intros ? Hin;
                     apply in_map_iff in Hin as (? & <- & _) ].
  - unfold isBasedOnTags, optTag, strTag.
    destruct (ref_name p) as [n|]; [destruct (Str.truthy n)|];
      repeat first [apply Forall_app; split | apply Forall_cons | apply Forall_nil
                   | reflexivity ].
Qed.

End Flattener.

(** C6. A resource whose [id] is absent or empty is refused with
    [MISSING_REQUIRED_FIELD] and a message that names [id], whatever its
    [name] is (the [id] check comes first); with a non-empty [id] and an
    absent or empty [name] it is refused with [MISSING_REQUIRED_FIELD] and
    a message that names [name]; with both non-empty the flattener
    succeeds. *)
Theorem flatten_required_fields (now : Z) (r : AmbLearningResource)
    (o : ConversionOptions) :
  (missing (amb_id r) ->
   exists e, ambToNostr now r o = Failure e
             /\ code e = MISSING_REQUIRED_FIELD
             /\ includes (message e) "id" = true)
  /\ (forall id, amb_id r = Some id -> id <> "" -> missing (amb_name r) ->
      exists e, ambToNostr now r o = Failure e
                /\ code e = MISSING_REQUIRED_FIELD
                /\ includes (message e) "name" = true)
  /\ (forall id name, identified r id name ->
      exists e w, ambToNostr now r o = Success e w).
Proof.
  repeat split.
  - intro H. unfold ambToNostr. rewrite (presentString_missing _ H).
    eexists. repeat split; reflexivity.
  - intros id Hid Nid H. unfold ambToNostr.
    rewrite (presentString_some _ _ Hid Nid), (presentString_missing _ H).
    eexists. repeat split; reflexivity.
  - intros id name H. rewrite (ambToNostr_identified now r o id name H).
    eexists. eexists. reflexivity.
Qed.

(** C8. With [includeRelationships] set to [false] the event has no tag
    whose key starts with [hasPart:], [isPartOf:] or [isBasedOn:]; with
    the option omitted or [true], the tags with such a key are exactly the
    ones the relationship entries of the resource give, in order, and
    every entry has its [:id] tag in the event. *)
Theorem relationships_suppressed (now : Z) (r : AmbLearningResource)
    (o : ConversionOptions) (id name : string) :
  identified r id name ->
  exists e w,
    ambToNostr now r o = Success e w
    /\ (opt_includeRelationships o = Some false ->
        filter isRelationshipTag (tags e) = [])
    /\ (opt_includeRelationships o <> Some false ->
        filter isRelationshipTag (tags e) = relationshipTags r)
    /\ (opt_includeRelationships o <> Some false ->
        (forall parts p, amb_hasPart r = Some parts -> In p parts ->
           In (createTag "hasPart:id" (ref_id p)) (tags e))
        /\ (forall parents p, amb_isPartOf r = Some parents -> In p parents ->
              In (createTag "isPartOf:id" (ref_id p)) (tags e))
        /\ (forall sources p, amb_isBasedOn r = Some sources -> In p sources ->
              In (createTag "isBasedOn:id" (ref_id p)) (tags e))).
Proof.
  intro H. rewrite (ambToNostr_identified now r o id name H).
  eexists. eexists. split; [reflexivity|]. cbn [tags]. unfold buildTags.
  rewrite filter_app, (filter_none _ _ (coreTags_no_relationship id name r o)).
  unfold includesRelationships. split; [|split]; intro Ho.
  - rewrite Ho. reflexivity.
  - destruct (opt_includeRelationships o) as [[|]|]; try congruence;
      apply filter_all, relationshipTags_all.
  - assert (Hrel : forall t, In t (relationshipTags r) ->
              In t (coreTags id name r o
                    ++ (if match opt_includeRelationships o with
                           | Some false => false
                           | _ => true
                           end
                        then relationshipTags r else []))).
    { intros t Ht. apply in_or_app. right.
      destruct (opt_includeRelationships o) as [[|]|]; congruence. }
    unfold relationshipTags in Hrel at 1.
    repeat split; intros l p Hl Hp; apply Hrel; rewrite Hl; cbn [forEachOpt].
    + apply in_or_app. left. apply in_flat_map. exists p.
      split; [exact Hp | left; reflexivity].
    + apply in_or_app. right. apply in_or_app. left.
      apply in_flat_map. exists p. split; [exact Hp | left; reflexivity].
    + apply in_or_app. right. apply in_or_app. right.
      apply in_flat_map. exists p. split; [exact Hp | left; reflexivity].
Qed.

(** C9, as the code has it.  The tag sequence never depends on the clock;
    with a supplied timestamp other than 0 the whole result is the same at
    any two clock readings. *)
Theorem flatten_deterministic (now1 now2 : Z) (r : AmbLearningResource)
    (o : ConversionOptions) :
  resultTags (ambToNostr now1 r o) = resultTags (ambToNostr now2 r o)
  /\ (forall ts, opt_timestamp o = Some ts -> ts <> 0%Z ->
      ambToNostr now1 r o = ambToNostr now2 r o).
Proof.
  split.
  - unfold ambToNostr. destruct (presentString (amb_id r)); [|reflexivity].
    destruct (presentString (amb_name r)); reflexivity.
  - intros ts Hts N. unfold ambToNostr, createdAtOf. rewrite Hts.
    apply Z.eqb_neq in N. rewrite N. reflexivity.
Qed.


(** ** The two passes of [unflattenTags] *)

Section FirstPass.

Lemma obj_set_twice (k : string) (v w : jsval) (o : obj) :
  obj_set k w (obj_set k v o) = obj_set k w o.
Proof.
  induction o as [|[k' v'] o IH]; simpl.
  - rewrite String.eqb_refl. reflexivity.
  - destruct (k =? k') eqn:E; simpl; rewrite E; [reflexivity|].
    rewrite IH. reflexivity.
Qed.

Lemma last_cons {A : Type} (w d : A) (ws : list A) :
  last (w :: ws) d = last ws w.
Proof.
  revert w d. induction ws as [|x ws IH]; intros w d; [reflexivity|].
  change (last (w :: x :: ws) d) with (last (x :: ws) d).
  rewrite IH. symmetry. apply IH.
Qed.

Lemma groupPush_keys (key : string) (values : list string) (g : TagGroups)
    (k : string) :
  In k (map fst (groupPush key values g)) <-> In k (map fst g) \/ k = key.
Proof.
  induction g as [|[k' vs] g IH]; simpl.
  - intuition congruence.
  - destruct (key =? k') eqn:E; simpl.
    + apply String.eqb_eq in E. subst k'. intuition.
    + rewrite IH. intuition.
Qed.

Lemma collectTag_cases (st : Pass1) (tag : NostrTag) :
  (exists v, dValue tag = Some v /\ tValue tag = None /\ groupedKey tag = None
             /\ collectTag st tag =
                  mkPass1 (obj_set "id" (JStr v) (p1_result st)) (p1_groups st)
                          (p1_keywords st))
  \/ (exists v, tValue tag = Some v /\ dValue tag = None /\ groupedKey tag = None
                /\ collectTag st tag =
                     mkPass1 (p1_result st) (p1_groups st)
                             (p1_keywords st ++ [v]))
  \/ (exists key values,
        groupedKey tag = Some key /\ dValue tag = None /\ tValue tag = None
        /\ collectTag st tag =
             mkPass1 (p1_result st) (groupPush key values (p1_groups st))
                     (p1_keywords st))
  \/ (groupedKey tag = None /\ dValue tag = None /\ tValue tag = None
      /\ collectTag st tag = st).
Proof.
  unfold collectTag, dValue, tValue, groupedKey.
  destruct (destTag tag) as [[key values]|];
    [|right; right; right; repeat split; reflexivity].
  destruct (key =? "d") eqn:Ed.
  - apply String.eqb_eq in Ed. subst key. cbn [String.eqb Ascii.eqb Bool.eqb].
    destruct (truthyFirst values) as [v|] eqn:Ev.
    + left. exists v. repeat split; reflexivity.
    + right. right. left. exists "d", values. repeat split; reflexivity.
  - destruct (key =? "t") eqn:Et.
    + destruct (truthyFirst values) as [v|] eqn:Ev.
      * right. left. exists v. repeat split; reflexivity.
      * right. right. left. exists key, values. repeat split; reflexivity.
    + right. right. left. exists key, values. repeat split; reflexivity.
Qed.

(** The state after the first loop, from any starting state. *)
Lemma collect_fold (tags : list NostrTag) (st : Pass1) :
  let st' := fold_left collectTag tags st in
  p1_result st' =
    match dValues tags with
    | [] => p1_result st
    | v :: vs => obj_set "id" (JStr (last vs v)) (p1_result st)
    end
  /\ p1_keywords st' = p1_keywords st ++ tValues tags
  /\ (forall k, In k (map fst (p1_groups st')) <->
                In k (map fst (p1_groups st))
                \/ exists tag, In tag tags /\ groupedKey tag = Some k).
Proof.
  revert st. induction tags as [|tag tags IH]; intro st; cbn zeta.
  - simpl. rewrite app_nil_r. repeat split; auto.
    intros [H|(tag & [] & _)]. exact H.
  - cbn [fold_left]. specialize (IH (collectTag st tag)). cbn zeta in IH.
    destruct IH as (IHr & IHk & IHg).
    rewrite IHr, IHk. unfold dValues, tValues. cbn [filterMap].
    fold (dValues tags) (tValues tags).
    destruct (collectTag_cases st tag)
      as [(v & Hd & Ht & Hg & Hc)
         |[(v & Ht & Hd & Hg & Hc)
          |[(key & values & Hg & Hd & Ht & Hc)
           |(Hg & Hd & Ht & Hc)]]];
      rewrite Hd, Ht; rewrite Hc in *; cbn [p1_result p1_keywords p1_groups];
      (split; [|split]).
    + destruct (dValues tags) as [|w ws]; [reflexivity|].
      rewrite obj_set_twice, last_cons. reflexivity.
    + reflexivity.
    + intro k. rewrite IHg. cbn [p1_groups]. split.
      * intros [H|(t' & Hin & Ht')]; [auto|]. right. exists t'. simpl. auto.
      * intros [H|(t' & [<-|Hin] & Ht')]; [auto|congruence|].
        right. exists t'. auto.
    + reflexivity.
    + rewrite <- app_assoc. reflexivity.
    + intro k. rewrite IHg. cbn [p1_groups]. split.
      * intros [H|(t' & Hin & Ht')]; [auto|]. right. exists t'. simpl. auto.
      * intros [H|(t' & [<-|Hin] & Ht')]; [auto|congruence|].
        right. exists t'. auto.
    + reflexivity.
    + reflexivity.
    + intro k. rewrite IHg. cbn [p1_groups]. rewrite groupPush_keys. split.
      * intros [[H| ->]|(t' & Hin & Ht')]; [auto| |].
        -- right. exists tag. simpl. auto.
        -- right. exists t'. simpl. auto.
      * intros [H|(t' & [<-|Hin] & Ht')]; [auto| |].
        -- left. right. congruence.
        -- right. exists t'. auto.
    + reflexivity.
    + reflexivity.
    + intro k. rewrite IHg. split.
      * intros [H|(t' & Hin & Ht')]; [auto|]. right. exists t'. simpl. auto.
      * intros [H|(t' & [<-|Hin] & Ht')]; [auto|congruence|].
        right. exists t'. auto.
Qed.

Lemma firstPass_groups (tags : list NostrTag) (dl k : string) :
  In k (map fst (p1_groups (firstPass tags dl))) <->
  exists tag, In tag tags /\ groupedKey tag = Some k.
Proof.
  unfold firstPass.
  destruct (collect_fold tags (mkPass1 (initialResult dl) [] [])) as (_ & _ & H).
  rewrite H. simpl. intuition.
Qed.

Lemma firstPass_keywords (tags : list NostrTag) (dl : string) :
  p1_keywords (firstPass tags dl) = tValues tags.
Proof.
  unfold firstPass.
  destruct (collect_fold tags (mkPass1 (initialResult dl) [] [])) as (_ & H & _).
  exact H.
Qed.

Lemma firstPass_result (tags : list NostrTag) (dl : string) :
  p1_result (firstPass tags dl) =
    match dValues tags with
    | [] => initialResult dl
    | v :: vs => initialResult dl ++ [("id", JStr (last vs v))]
    end.
Proof.
  unfold firstPass.
  destruct (collect_fold tags (mkPass1 (initialResult dl) [] [])) as (H & _ & _).
  rewrite H. destruct (dValues tags); reflexivity.
Qed.

End FirstPass.

Section SecondPass.

Variable tags : list NostrTag.

Lemma relatedTo_spec (key b : string) (tag : NostrTag) (rt : RelatedTag) :
  relatedTo key b tag = Some rt ->
  exists v vs,
    destTag tag = Some (rt_key rt, v :: vs)
    /\ rt_values rt = v :: vs
    /\ ((rt_key rt =? key) || Str.startsWith (rt_key rt) (b ++ ":")) = true.
Proof.
  unfold relatedTo. destruct (destTag tag) as [[tagKey values]|] eqn:D;
    [|discriminate].
  destruct ((tagKey =? "d") || (tagKey =? "t")); [discriminate|].
  destruct ((tagKey =? key) || Str.startsWith tagKey (b ++ ":")) eqn:E;
    [|discriminate].
  intro H. injection H as <-. simpl.
  unfold destTag in D. destruct tag as [|k [|v vs]]; try discriminate.
  destruct (Str.truthy k); [|discriminate]. injection D as <- <-.
  exists v, vs. auto.
Qed.

Lemma filterMap_In {A B : Type} (f : A -> option B) (l : list A) (y : B) :
  In y (filterMap f l) <-> exists x, In x l /\ f x = Some y.
Proof.
  induction l as [|a l IH]; simpl.
  - split; [contradiction | intros (x & [] & _)].
  - destruct (f a) as [b|] eqn:E; simpl; rewrite IH; split.
    + intros [<-|(x & Hin & Hx)]; [exists a; auto | exists x; auto].
    + intros (x & [<-|Hin] & Hx); [left; congruence | right; exists x; auto].
    + intros (x & Hin & Hx). exists x. auto.
    + intros (x & [<-|Hin] & Hx); [congruence | exists x; auto].
Qed.

Lemma relatedTags_In (key b : string) (rt : RelatedTag) (ts : list NostrTag) :
  In rt (relatedTags key b ts) ->
  exists tag, In tag ts /\ relatedTo key b tag = Some rt.
Proof. apply filterMap_In. Qed.

(** Every tag collected for a key has the base key of that key. *)
Lemma relatedTags_base (key : string) (rt : RelatedTag) :
  In rt (relatedTags key (Str.baseKey key) tags) ->
  Str.baseKey (rt_key rt) = Str.baseKey key.
Proof.
  intro H. apply relatedTags_In in H as (tag & _ & H).
  apply relatedTo_spec in H as (v & vs & _ & _ & H).
  apply orb_prop in H as [H|H].
  - apply String.eqb_eq in H. congruence.
  - apply startsWith_base in H; [exact H | apply baseKey_no_colon].
Qed.

Lemma relatedTags_values (key b : string) (ts : list NostrTag) :
  Forall (fun rt => rt_values rt <> []) (relatedTags key b ts).
Proof.
  apply Forall_forall. intros rt H.
  apply relatedTags_In in H as (tag & _ & H).
  apply relatedTo_spec in H as (v & vs & _ & -> & _). discriminate.
Qed.

(** [reconstructProperty] never returns [undefined] on collected tags. *)
Lemma reconstructProperty_defined (b : string) (rts : list RelatedTag)
    (v : jsval) :
  Forall (fun rt => rt_values rt <> []) rts ->
  reconstructProperty b rts = Some v -> isUndefined v = false.
Proof.
  intro Hv. unfold reconstructProperty, reconstructNestedObjects.
  destruct (existsb _ rts).
  - destruct (collectObjects rts) as [[|o [|o' os]]|]; simpl; intro H;
      try discriminate; injection H as <-; reflexivity.
  - intro H. injection H as <-.
    destruct rts as [|rt [|rt' rts]]; try reflexivity.
    inversion Hv as [|? ? Hrt _]; subst.
    destruct (rt_values rt); [contradiction|reflexivity].
Qed.

(** A property no group writes keeps its value. *)
Lemma processGroups_frame (b : string) (groups : TagGroups)
    (processed : list string) (result res : obj) :
  (forall k, In k (map fst groups) -> Str.baseKey k <> b) ->
  processGroups tags groups processed result = Some res ->
  obj_get b res = obj_get b result.
Proof.
  revert processed result.
  induction groups as [|[key vs] groups IH]; intros processed result Hb; simpl.
  - intro H. injection H as <-. reflexivity.
  - assert (Hrest : forall k, In k (map fst groups) -> Str.baseKey k <> b)
      by (intros k Hk; apply Hb; simpl; auto).
    assert (Hkey : Str.baseKey key <> b) by (apply Hb; simpl; auto).
    destruct (Str.mem key processed); [apply IH, Hrest|].
    destruct (negb (Str.truthy (Str.baseKey key))); [apply IH, Hrest|].
    destruct (reconstructProperty _ _) as [value|]; simpl; [|discriminate].
    intro H.
    assert (Hset : obj_get b res =
                   obj_get b (obj_set (Str.baseKey key)
                                (coerceArray (Str.baseKey key) value) result)).
    { destruct (isUndefined value); [|eapply IH; [exact Hrest | exact H]].
      etransitivity; [eapply IH; [exact Hrest | exact H]|].
      symmetry. apply obj_get_set_other. congruence. }
    rewrite Hset. apply obj_get_set_other. congruence.
Qed.

(** The second pass returns when every reconstruction it attempts does. *)
Lemma processGroups_returns (groups : TagGroups) (processed : list string)
    (result : obj) :
  (forall k, In k (map fst groups) ->
     reconstructProperty (Str.baseKey k)
       (relatedTags k (Str.baseKey k) tags) <> None) ->
  exists res, processGroups tags groups processed result = Some res.
Proof.
  revert processed result.
  induction groups as [|[key vs] groups IH]; intros processed result Hk; simpl.
  - eexists. reflexivity.
  - assert (Hrest : forall k, In k (map fst groups) ->
              reconstructProperty (Str.baseKey k)
                (relatedTags k (Str.baseKey k) tags) <> None)
      by (intros k Hin; apply Hk; simpl; auto).
    destruct (Str.mem key processed); [apply IH, Hrest|].
    destruct (negb (Str.truthy (Str.baseKey key))); [apply IH, Hrest|].
    destruct (reconstructProperty _ _) as [value|] eqn:E; simpl.
    + destruct (isUndefined value); apply IH, Hrest.
    + exfalso. eapply Hk; [simpl; left; reflexivity | exact E].
Qed.

Section Written.

Variables (b : string) (related : list RelatedTag) (value : jsval).

(** Every group under base key [b] collects the same tags. *)
Hypothesis same_related :
  forall k, (exists tag, In tag tags /\ groupedKey tag = Some k) ->
            Str.baseKey k = b ->
            relatedTags k b tags = related.
Hypothesis reconstructed : reconstructProperty b related = Some value.
Hypothesis named : b <> "".

Lemma fromTags_tail (g : string * list (list string)) (groups : TagGroups) :
  fromTags tags (g :: groups) -> fromTags tags groups.
Proof. intros H k Hk. apply H. simpl. auto. Qed.

(** Once [result[b]] holds the value, it holds it to the end. *)
Lemma processGroups_written (groups : TagGroups) (processed : list string)
    (result res : obj) :
  fromTags tags groups ->
  obj_get b result = Some (coerceArray b value) ->
  processGroups tags groups processed result = Some res ->
  obj_get b res = Some (coerceArray b value).
Proof.
  revert processed result.
  induction groups as [|[key vs] groups IH]; intros processed result Hg Hr;
    simpl.
  - intro H. injection H as <-. exact Hr.
  - pose proof (fromTags_tail _ _ Hg) as Hg'.
    destruct (Str.mem key processed); [apply IH; assumption|].
    destruct (negb (Str.truthy (Str.baseKey key))); [apply IH; assumption|].
    destruct (reconstructProperty (Str.baseKey key)
                (relatedTags key (Str.baseKey key) tags)) as [v|] eqn:E;
      simpl; [|discriminate].
    pose proof (reconstructProperty_defined _ _ _
                  (relatedTags_values _ _ _) E) as Hv.
    assert (Hnext : obj_get b (obj_set (Str.baseKey key)
                                 (coerceArray (Str.baseKey key) v) result)
                    = Some (coerceArray b value)).
    { destruct (string_dec (Str.baseKey key) b) as [Eb|Nb].
      - rewrite Eb in E |- *.
        rewrite (same_related key) in E;
          [|apply Hg; simpl; auto | exact Eb].
        rewrite reconstructed in E. injection E as E. subst v.
        apply obj_get_set_same.
      - rewrite obj_get_set_other by congruence. exact Hr. }
    rewrite Hv. intro H. eapply IH; eassumption.
Qed.

(** A group under [b] that is still to be processed makes the loop
    write the value. *)
Lemma processGroups_first (groups : TagGroups) (processed : list string)
    (result res : obj) :
  fromTags tags groups ->
  (exists k, In k (map fst groups) /\ Str.baseKey k = b
             /\ Str.mem k processed = false) ->
  processGroups tags groups processed result = Some res ->
  obj_get b res = Some (coerceArray b value).
Proof.
  revert processed result.
  induction groups as [|[key vs] groups IH];
    intros processed result Hg (k & Hin & Hb & Hp); simpl.
  - destruct Hin.
  - pose proof (fromTags_tail _ _ Hg) as Hg'. simpl in Hin.
    destruct (Str.mem key processed) eqn:M.
    { apply IH; [exact Hg'|]. exists k. repeat split; try assumption.
      destruct Hin as [->|Hin]; [congruence | exact Hin]. }
    destruct (negb (Str.truthy (Str.baseKey key))) eqn:T.
    { apply IH; [exact Hg'|]. exists k. repeat split; try assumption.
      destruct Hin as [->|Hin]; [|exact Hin].
      apply negb_true_iff, truthy_false in T. congruence. }
    destruct (reconstructProperty (Str.baseKey key)
                (relatedTags key (Str.baseKey key) tags)) as [v|] eqn:E;
      simpl; [|discriminate].
    pose proof (reconstructProperty_defined _ _ _
                  (relatedTags_values _ _ _) E) as Hv.
    destruct (string_dec (Str.baseKey key) b) as [Eb|Nb].
    + rewrite Eb in E |- *.
      rewrite (same_related key) in E;
        [|apply Hg; simpl; auto | exact Eb].
      rewrite reconstructed in E. injection E as E. subst v.
      rewrite Hv. intro H.
      eapply processGroups_written;
        [exact Hg' | apply obj_get_set_same | exact H].
    + assert (Hk : exists k0, In k0 (map fst groups) /\ Str.baseKey k0 = b
                   /\ Str.mem k0 (processed ++
                        map rt_key (relatedTags key (Str.baseKey key) tags))
                      = false).
      { exists k. destruct Hin as [->|Hin]; [congruence|].
        repeat split; try assumption.
        rewrite mem_app, Hp. simpl.
        destruct (Str.mem k (map rt_key _)) eqn:X; [|reflexivity].
        exfalso. apply mem_In, in_map_iff in X as (rt & <- & Hrt).
        apply relatedTags_base in Hrt. congruence. }
      rewrite Hv. intro H. eapply IH; eassumption.
Qed.

End Written.

End SecondPass.

Section Unflatten.

Variables (tags : list NostrTag) (defaultLanguage : string).

Lemma unflattenTags_unfold :
  unflattenTags tags defaultLanguage =
    processGroups tags (p1_groups (firstPass tags defaultLanguage)) []
      (resultAfterFirstPass tags defaultLanguage).
Proof. reflexivity. Qed.

Lemma firstPass_fromTags :
  fromTags tags (p1_groups (firstPass tags defaultLanguage)).
Proof. intros k Hk. apply firstPass_groups in Hk. exact Hk. Qed.

(** The value of a property that the tags give under base key [b]. *)
Lemma unflattenTags_field (b : string) (related : list RelatedTag)
    (value : jsval) (res : obj) :
  b <> "" ->
  (forall k, (exists tag, In tag tags /\ groupedKey tag = Some k) ->
             Str.baseKey k = b -> relatedTags k b tags = related) ->
  reconstructProperty b related = Some value ->
  (exists tag k, In tag tags /\ groupedKey tag = Some k /\ Str.baseKey k = b) ->
  unflattenTags tags defaultLanguage = Some res ->
  obj_get b res = Some (coerceArray b value).
Proof.
  intros Hb Hrel Hrec (tag & k & Hin & Hg & Hk). rewrite unflattenTags_unfold.
  apply (processGroups_first tags b related value Hrel Hrec Hb).
  - apply firstPass_fromTags.
  - exists k. repeat split; [|exact Hk].
    apply firstPass_groups. exists tag. auto.
Qed.

(** A property under which the tags give nothing is as the first pass
    left it. *)
Lemma unflattenTags_frame (b : string) (res : obj) :
  (forall tag k, In tag tags -> groupedKey tag = Some k -> Str.baseKey k <> b) ->
  unflattenTags tags defaultLanguage = Some res ->
  obj_get b res = obj_get b (resultAfterFirstPass tags defaultLanguage).
Proof.
  intros H. rewrite unflattenTags_unfold. apply processGroups_frame.
  intros k Hk. apply firstPass_groups in Hk as (tag & Hin & Hg).
  eapply H; eassumption.
Qed.

Lemma unflattenTags_returns :
  (forall tag k, In tag tags -> groupedKey tag = Some k ->
     reconstructProperty (Str.baseKey k)
       (relatedTags k (Str.baseKey k) tags) <> None) ->
  exists res, unflattenTags tags defaultLanguage = Some res.
Proof.
  intro H. rewrite unflattenTags_unfold. apply processGroups_returns.
  intros k Hk. apply firstPass_groups in Hk as (tag & Hin & Hg).
  eapply H; eassumption.
Qed.

End Unflatten.

(** ** The unflattener: required fields and the [d] tag *)

Section UnflattenOutcome.

Lemma resultAfterFirstPass_id (tags : list NostrTag) (dl : string) :
  obj_get "id" (resultAfterFirstPass tags dl) =
    match dValues tags with
    | [] => None
    | v :: vs => Some (JStr (last vs v))
    end.
Proof.
  unfold resultAfterFirstPass. rewrite firstPass_result.
  destruct (p1_keywords (firstPass tags dl));
    [|rewrite obj_get_set_other by discriminate];
    destruct (dValues tags); reflexivity.
Qed.

Lemma resultAfterFirstPass_keywords (tags : list NostrTag) (dl : string) :
  obj_get "keywords" (resultAfterFirstPass tags dl) =
    match tValues tags with
    | [] => None
    | ks => Some (JArr (map JStr ks))
    end.
Proof.
  unfold resultAfterFirstPass. rewrite firstPass_keywords, firstPass_result.
  destruct (tValues tags) as [|k ks].
  - destruct (dValues tags); reflexivity.
  - apply obj_get_set_same.
Qed.

Lemma resultAfterFirstPass_other (tags : list NostrTag) (dl b : string) :
  b <> "@context" -> b <> "id" -> b <> "keywords" ->
  obj_get b (resultAfterFirstPass tags dl) = None.
Proof.
  intros N1 N2 N3. unfold resultAfterFirstPass. rewrite firstPass_result.
  apply String.eqb_neq in N1, N2.
  destruct (p1_keywords (firstPass tags dl));
    [|rewrite obj_get_set_other by assumption];
    destruct (dValues tags); simpl; rewrite N1; try rewrite N2; reflexivity.
Qed.

(** What a successful conversion went through. *)
Lemma nostrToAmb_success (ev : NostrEvent) (dl : option string) (amb : obj)
    (w : list string) :
  nostrToAmb ev dl = Success amb w ->
  ev_kind ev = AMB_KIND
  /\ exists tags,
       ev_tags ev = Some tags
       /\ unflattenTags tags (languageOf dl) = Some amb
       /\ prop_truthy "id" amb = true
       /\ prop_truthy "name" amb = true
       /\ missingType amb = false.
Proof.
  unfold nostrToAmb.
  destruct (ev_kind ev =? AMB_KIND)%Z eqn:K; simpl; [|discriminate].
  destruct (ev_tags ev) as [tags|]; [|discriminate].
  destruct (unflattenTags tags (languageOf dl)) as [a|] eqn:U; [|discriminate].
  destruct (prop_truthy "id" a) eqn:I; simpl; [|discriminate].
  destruct (prop_truthy "name" a) eqn:N; simpl; [|discriminate].
  destruct (missingType a) eqn:T; [discriminate|].
  intro H. injection H as <- <-.
  split; [apply Z.eqb_eq, K|]. exists tags.
  split; [reflexivity|]. split; [exact U|]. auto.
Qed.

Lemma prop_truthy_absent (b : string) (o : obj) :
  obj_get b o = None -> prop_truthy b o = false.
Proof. unfold prop_truthy. intros ->. reflexivity. Qed.

End UnflattenOutcome.

(** C4, as the code has it.  When the tags carry one or more [d] tags with
    a non-empty value and nothing under the base key [id], the [id] of the
    resource is the value of the last of these [d] tags. *)
Theorem last_d_tag_wins (ev : NostrEvent) (dl : option string)
    (tags : list NostrTag) (amb : obj) (w : list string) :
  ev_tags ev = Some tags ->
  nostrToAmb ev dl = Success amb w ->
  givesNothing "id" tags ->
  dValues tags <> [] ->
  obj_get "id" amb = Some (JStr (last (dValues tags) "")).
Proof.
  intros Ht H Hn Hd.
  apply nostrToAmb_success in H as (_ & tags' & Ht' & Hu & _).
  rewrite Ht in Ht'. injection Ht' as <-.
  rewrite (unflattenTags_frame tags (languageOf dl) "id" amb Hn Hu).
  rewrite resultAfterFirstPass_id.
  destruct (dValues tags) as [|v vs]; [contradiction|].
  rewrite last_cons. reflexivity.
Qed.

(** C5, as the code has it.  A wrong [kind] or a [tags] field that is not a
    list gives [INVALID_FORMAT].  For the other events, when the keys of
    the tags that are read are made of segments that are no inherited
    names, not [length] and not made of digits, with at most one inner
    segment, and the value of no [inLanguage] tag is an inherited name:
    when the reconstruction raises, the result is
    [CONVERSION_FAILED]; otherwise a missing or empty [id] or [name], or a
    [type] that is not a non-empty list, gives [MISSING_REQUIRED_FIELD],
    and in all other cases the reconstructed object is returned.  Tags
    with no [d] value and nothing under [id], or nothing under [name], or
    nothing under [type], are among the [MISSING_REQUIRED_FIELD] cases
    when the reconstruction does not raise. *)
Theorem unflatten_outcomes (ev : NostrEvent) (dl : option string) :
  (ev_kind ev <> AMB_KIND \/ ev_tags ev = None ->
   failsWith INVALID_FORMAT (nostrToAmb ev dl))
  /\ (forall tags,
        ev_kind ev = AMB_KIND -> ev_tags ev = Some tags ->
        (forall t, In t tags -> wellFormed t = true -> modelledTag t) ->
        match unflattenTags tags (languageOf dl) with
        | None => failsWith CONVERSION_FAILED (nostrToAmb ev dl)
        | Some amb =>
            if negb (prop_truthy "id" amb) || negb (prop_truthy "name" amb)
               || missingType amb
            then failsWith MISSING_REQUIRED_FIELD (nostrToAmb ev dl)
            else nostrToAmb ev dl = Success amb []
        end)
  /\ (forall tags amb,
        ev_kind ev = AMB_KIND -> ev_tags ev = Some tags ->
        (forall t, In t tags -> wellFormed t = true -> modelledTag t) ->
        unflattenTags tags (languageOf dl) = Some amb ->
        (dValues tags = [] /\ givesNothing "id" tags)
        \/ givesNothing "name" tags \/ givesNothing "type" tags ->
        failsWith MISSING_REQUIRED_FIELD (nostrToAmb ev dl)).
Proof.
  assert (Hcases : forall tags,
            ev_kind ev = AMB_KIND -> ev_tags ev = Some tags ->
            match unflattenTags tags (languageOf dl) with
            | None => failsWith CONVERSION_FAILED (nostrToAmb ev dl)
            | Some amb =>
                if negb (prop_truthy "id" amb) || negb (prop_truthy "name" amb)
                   || missingType amb
                then failsWith MISSING_REQUIRED_FIELD (nostrToAmb ev dl)
                else nostrToAmb ev dl = Success amb []
            end).
  { intros tags K T. unfold nostrToAmb. rewrite K, T, Z.eqb_refl. simpl.
    destruct (unflattenTags tags (languageOf dl)) as [amb|].
    - destruct (prop_truthy "id" amb); simpl;
        [|eexists; split; reflexivity].
      destruct (prop_truthy "name" amb); simpl;
        [|eexists; split; reflexivity].
      destruct (missingType amb); [eexists; split; reflexivity | reflexivity].
    - eexists. split; reflexivity. }
  split; [|split].
  - intros [K|T]; unfold nostrToAmb.
    + apply Z.eqb_neq in K. rewrite K. eexists. split; reflexivity.
    + destruct (ev_kind ev =? AMB_KIND)%Z; simpl;
        [rewrite T|]; eexists; split; reflexivity.
  - intros tags K T _. exact (Hcases tags K T).
  - intros tags amb K T _ U H. specialize (Hcases tags K T).
    rewrite U in Hcases.
    assert (Hmiss : negb (prop_truthy "id" amb) || negb (prop_truthy "name" amb)
                    || missingType amb = true).
    { destruct H as [[Hd Hn]|[Hn|Hn]].
      - rewrite (prop_truthy_absent "id"); [reflexivity|].
        rewrite (unflattenTags_frame _ _ _ _ Hn U), resultAfterFirstPass_id, Hd.
        reflexivity.
      - rewrite (prop_truthy_absent "name");
          [destruct (prop_truthy "id" amb); reflexivity|].
        rewrite (unflattenTags_frame _ _ _ _ Hn U).
        apply resultAfterFirstPass_other; discriminate.
      - unfold missingType.
        rewrite (unflattenTags_frame _ _ _ _ Hn U).
        rewrite resultAfterFirstPass_other by discriminate.
        apply orb_true_r. }
    rewrite Hmiss in Hcases. exact Hcases.
Qed.

(** ** Unflattening what the flattener emits *)

Section Blocks.

Lemma filterMap_app {A B : Type} (f : A -> option B) (l1 l2 : list A) :
  filterMap f (l1 ++ l2) = filterMap f l1 ++ filterMap f l2.
Proof.
  induction l1 as [|x l1 IH]; simpl; [reflexivity|].
  destruct (f x); simpl; rewrite IH; reflexivity.
Qed.

Lemma filterMap_none {A B : Type} (f : A -> option B) (l : list A) :
  Forall (fun x => f x = None) l -> filterMap f l = [].
Proof.
  induction 1 as [|x l Hx _ IH]; simpl; [reflexivity|]. rewrite Hx. exact IH.
Qed.

Lemma filterMap_all {A B : Type} (f : A -> option B) (g : A -> B)
    (l : list A) :
  Forall (fun x => f x = Some (g x)) l -> filterMap f l = map g l.
Proof.
  induction 1 as [|x l Hx _ IH]; simpl; [reflexivity|]. rewrite Hx, IH.
  reflexivity.
Qed.

(** A collector that only looks at tags under [b] sees the blocks
    under [b]. *)
Lemma filterMap_blocks {B : Type} (f : NostrTag -> option B) (b : string)
    (blocks : list (string * list NostrTag)) :
  (forall b' t, tagOf b' t -> b' <> b -> f t = None) ->
  based blocks ->
  filterMap f (flatten blocks) = filterMap f (flatten (blocksOf b blocks)).
Proof.
  intros Hf. unfold flatten, blocksOf.
  induction 1 as [|[b' ts] blocks Hb _ IH]; simpl; [reflexivity|].
  rewrite filterMap_app, IH. destruct (b' =? b) eqn:E; simpl.
  - rewrite filterMap_app. reflexivity.
  - apply String.eqb_neq in E. rewrite filterMap_none; [reflexivity|].
    eapply Forall_impl; [|exact Hb]. intros t Ht. eapply Hf; eassumption.
Qed.

Lemma tagOf_key (b : string) (t : NostrTag) :
  tagOf b t -> Str.baseKey (keyOf t) = b /\ t = [keyOf t; hd "" (tl t)].
Proof. intros (k & v & -> & H). split; [exact H | reflexivity]. Qed.

Lemma tagOf_destTag (b : string) (t : NostrTag) :
  tagOf b t -> b <> "" -> destTag t = Some (keyOf t, tl t).
Proof.
  intros (k & v & -> & H) N. simpl.
  destruct (Str.truthy k) eqn:T; [reflexivity|].
  apply truthy_false in T. subst k. cbv in H. congruence.
Qed.

Lemma tagOf_grouped (b : string) (t : NostrTag) (k : string) :
  tagOf b t -> groupedKey t = Some k -> k = keyOf t /\ Str.baseKey k = b.
Proof.
  intros (k' & v & -> & H). unfold groupedKey, destTag.
  destruct (Str.truthy k'); [|discriminate].
  destruct (if k' =? "d" then _ else _); [discriminate|].
  destruct (if k' =? "t" then _ else _); [discriminate|].
  intro E. injection E as <-. auto.
Qed.

Lemma plain_grouped (b : string) (t : NostrTag) :
  plainBase b -> tagOf b t -> groupedKey t = Some (keyOf t).
Proof.
  intros (N & Nd & Nt & _) Ht. unfold groupedKey.
  rewrite (tagOf_destTag b t Ht N).
  destruct Ht as (k & v & -> & H). simpl.
  destruct (k =? "d") eqn:Ed;
    [apply String.eqb_eq in Ed; subst k; cbv in H; congruence|].
  destruct (k =? "t") eqn:Et;
    [apply String.eqb_eq in Et; subst k; cbv in H; congruence|].
  reflexivity.
Qed.

Lemma relatedTo_miss (key b b' : string) (t : NostrTag) :
  Str.baseKey key = b -> tagOf b' t -> b' <> b -> relatedTo key b t = None.
Proof.
  intros Hk (k & v & -> & H) N. unfold relatedTo, destTag.
  destruct (Str.truthy k); [|reflexivity].
  destruct ((k =? "d") || (k =? "t")); [reflexivity|].
  destruct ((k =? key) || Str.startsWith k (b ++ ":")) eqn:E; [|reflexivity].
  exfalso. apply N. apply orb_prop in E as [E|E].
  - apply String.eqb_eq in E. congruence.
  - apply startsWith_base in E; [congruence|].
    rewrite <- Hk. apply baseKey_no_colon.
Qed.

Lemma relatedTo_hit (key b : string) (t : NostrTag) :
  plainBase b -> tagOf b t ->
  keyOf t = key \/ Str.startsWith (keyOf t) (b ++ ":") = true ->
  relatedTo key b t = Some (asRelated t).
Proof.
  intros Hp Ht Hk. unfold relatedTo.
  destruct Hp as (N & Nd & Nt & Hc).
  rewrite (tagOf_destTag b t Ht N).
  destruct Ht as (k & v & -> & H). simpl in *.
  destruct (k =? "d") eqn:Ed;
    [apply String.eqb_eq in Ed; subst k; cbv in H; congruence|].
  destruct (k =? "t") eqn:Et;
    [apply String.eqb_eq in Et; subst k; cbv in H; congruence|].
  simpl.
  replace ((k =? key) || Str.startsWith k (b ++ ":")) with true;
    [reflexivity|].
  symmetry. destruct Hk as [->| ->];
    [rewrite String.eqb_refl; reflexivity | apply orb_true_r].
Qed.

Lemma In_flatten (t : NostrTag) (blocks : list (string * list NostrTag)) :
  In t (flatten blocks) <-> exists bt, In bt blocks /\ In t (snd bt).
Proof. unfold flatten. apply in_flat_map. Qed.

Lemma based_In (blocks : list (string * list NostrTag)) (b' : string)
    (ts' : list NostrTag) (t : NostrTag) :
  based blocks -> In (b', ts') blocks -> In t ts' -> tagOf b' t.
Proof.
  unfold based. rewrite Forall_forall. intros H Hbt Ht.
  specialize (H _ Hbt). simpl in H. rewrite Forall_forall in H. auto.
Qed.

Variables (blocks : list (string * list NostrTag)) (b : string)
          (ts : list NostrTag).

Hypothesis blocks_based : based blocks.
Hypothesis one_block : blocksOf b blocks = [(b, ts)].
Hypothesis plain : plainBase b.

Lemma block_tags : Forall (tagOf b) ts.
Proof.
  assert (H : In (b, ts) (blocksOf b blocks))
    by (rewrite one_block; left; reflexivity).
  apply filter_In in H as [H _].
  apply Forall_forall. intros t Ht. eapply based_In; eassumption.
Qed.

(** A tag of the output under base key [b] is in the block [ts]. *)
Lemma block_owns (t : NostrTag) :
  In t (flatten blocks) -> Str.baseKey (keyOf t) = b -> In t ts.
Proof.
  intros Hin Hb. apply In_flatten in Hin as ([b' ts'] & Hbt & Ht).
  simpl in Ht.
  assert (Hof : tagOf b' t) by (eapply based_In; eassumption).
  apply tagOf_key in Hof as [Hb' _].
  assert (E : b' = b) by congruence. rewrite E in Hbt.
  assert (H : In (b, ts') (blocksOf b blocks)).
  { apply filter_In. split; [exact Hbt | apply String.eqb_refl]. }
  rewrite one_block in H. destruct H as [H|[]]. congruence.
Qed.

Lemma related_of_block (key : string) :
  Str.baseKey key = b ->
  relatedTags key b (flatten blocks) = relatedTags key b ts.
Proof.
  intro Hk. unfold relatedTags.
  rewrite (filterMap_blocks _ b blocks); [|intros; eapply relatedTo_miss; eassumption|assumption].
  rewrite one_block. unfold flatten. simpl. rewrite app_nil_r. reflexivity.
Qed.

Hypothesis uniform : uniformBlock b ts.

Lemma related_uniform (key : string) :
  (exists t, In t ts /\ keyOf t = key) ->
  relatedTags key b ts = map asRelated ts.
Proof.
  intros (t0 & Hin0 & Hk0). unfold relatedTags. apply filterMap_all.
  pose proof block_tags as Hts. rewrite Forall_forall in Hts.
  apply Forall_forall. intros t Hin. apply relatedTo_hit; auto.
  destruct uniform as [U|U]; rewrite Forall_forall in U.
  - left. rewrite (U t Hin), <- Hk0. symmetry. apply U, Hin0.
  - right. apply U, Hin.
Qed.

(** The property that unflattening gives under [b] when the flattener
    emitted the non-empty block [ts] for it. *)
Lemma flattened_field (dl : string) (value : jsval) (res : obj) :
  ts <> [] ->
  reconstructProperty b (map asRelated ts) = Some value ->
  unflattenTags (flatten blocks) dl = Some res ->
  obj_get b res = Some (coerceArray b value).
Proof.
  intros Hne Hrec Hres.
  pose proof block_tags as Hts. rewrite Forall_forall in Hts.
  apply (unflattenTags_field (flatten blocks) dl b (map asRelated ts) value res);
    try assumption.
  - apply plain.
  - intros k (tag & Hin & Hg) Hk.
    rewrite related_of_block by exact Hk.
    apply related_uniform. exists tag.
    apply In_flatten in Hin as Hin'. destruct Hin' as ([b' ts'] & Hbt & Ht).
    assert (Hof : tagOf b' tag) by (eapply based_In; eassumption).
    destruct (tagOf_grouped _ _ _ Hof Hg) as [-> _].
    split; [|reflexivity]. apply block_owns; assumption.
  - destruct ts as [|t ts']; [contradiction|].
    exists t, (keyOf t).
    assert (Hin : In t (t :: ts')) by (left; reflexivity).
    split; [|split].
    + apply In_flatten. exists (b, t :: ts'). split; [|exact Hin].
      assert (H : In (b, t :: ts') (blocksOf b blocks))
        by (rewrite one_block; left; reflexivity).
      apply filter_In in H as [H _]. exact H.
    + apply (plain_grouped b); [exact plain | apply Hts, Hin].
    + apply tagOf_key. apply Hts, Hin.
Qed.

End Blocks.

Section BlocksFrame.

Variable blocks : list (string * list NostrTag).
Hypothesis blocks_based : based blocks.

Lemma flatten_givesNothing (b : string) :
  blocksOf b blocks = [] -> givesNothing b (flatten blocks).
Proof.
  intros Hnone tag k Hin Hg Hb.
  apply In_flatten in Hin as ([b' ts'] & Hbt & Ht). simpl in Ht.
  assert (Hof : tagOf b' tag) by (eapply based_In; eassumption).
  destruct (tagOf_grouped _ _ _ Hof Hg) as [_ Hb'].
  assert (H : In (b', ts') (blocksOf b blocks)).
  { apply filter_In. split; [exact Hbt|]. simpl. apply String.eqb_eq. congruence. }
  rewrite Hnone in H. destruct H.
Qed.

Lemma dValues_blocks :
  dValues (flatten blocks) = dValues (flatten (blocksOf "d" blocks)).
Proof.
  unfold dValues. apply filterMap_blocks; [|assumption].
  intros b' t (k & v & -> & H) N. unfold dValue, destTag.
  destruct (Str.truthy k); [|reflexivity].
  destruct (k =? "d") eqn:E; [|reflexivity].
  apply String.eqb_eq in E. subst k. cbv in H. congruence.
Qed.

Lemma tValues_blocks :
  tValues (flatten blocks) = tValues (flatten (blocksOf "t" blocks)).
Proof.
  unfold tValues. apply filterMap_blocks; [|assumption].
  intros b' t (k & v & -> & H) N. unfold tValue, destTag.
  destruct (Str.truthy k); [|reflexivity].
  destruct (k =? "t") eqn:E; [|reflexivity].
  apply String.eqb_eq in E. subst k. cbv in H. congruence.
Qed.

End BlocksFrame.

Section RoundTrip.

Variables (id name : string) (r : AmbLearningResource)
          (options : ConversionOptions).

Lemma buildTags_blocks :
  buildTags id name r options = flatten (allBlocks id name r options).
Proof.
  unfold buildTags, allBlocks, flatten. rewrite flat_map_app.
  fold (flatten (coreBlocks id name r options)).
  rewrite <- coreTags_blocks. f_equal.
  destruct (includesRelationships options); [|reflexivity].
  apply relationshipTags_blocks.
Qed.

Lemma allBlocks_based : based (allBlocks id name r options).
Proof.
  unfold based, allBlocks. apply Forall_app. split.
  - apply coreBlocks_based.
  - destruct (includesRelationships options);
      [apply relationshipBlocks_based | constructor].
Qed.

Lemma empty_block_givesNothing (b : string) :
  flatten (blocksOf b (allBlocks id name r options)) = [] ->
  givesNothing b (flatten (allBlocks id name r options)).
Proof.
  intros Hnone tag k Hin Hg Hb.
  apply In_flatten in Hin as ([b' ts'] & Hbt & Ht). simpl in Ht.
  assert (Hof : tagOf b' tag)
    by (eapply based_In; [apply allBlocks_based | eassumption | exact Ht]).
  destruct (tagOf_grouped _ _ _ Hof Hg) as [_ Hb'].
  assert (H : In tag (flatten (blocksOf b (allBlocks id name r options)))).
  { apply In_flatten. exists (b', ts'). split; [|exact Ht].
    apply filter_In. split; [exact Hbt|]. simpl. apply String.eqb_eq.
    congruence. }
  rewrite Hnone in H. destruct H.
Qed.

End RoundTrip.

Section FlatFields.

Lemma asRelated_createTag (key value : string) :
  asRelated (createTag key value) = mkRelated key [value].
Proof. reflexivity. Qed.

Lemma flat_no_colon (key : string) (l : list string) :
  Str.hasColon key = false ->
  existsb (fun t => Str.hasColon (rt_key t))
    (map asRelated (map (createTag key) l)) = false.
Proof.
  intro H. induction l as [|x l IH]; simpl; [reflexivity|].
  rewrite H, IH. reflexivity.
Qed.

(** A list of tags under one flat key gives a scalar when there is one
    and a list otherwise. *)
Lemma reconstruct_flat (key : string) (l : list string) :
  Str.hasColon key = false ->
  reconstructProperty key (map asRelated (map (createTag key) l)) =
    Some (match l with
          | [x] => JStr x
          | _ => strings l
          end).
Proof.
  intro H. unfold reconstructProperty. rewrite (flat_no_colon key l H).
  destruct l as [|x [|y l]]; try reflexivity.
  unfold strings. simpl. do 4 f_equal.
  rewrite !map_map. reflexivity.
Qed.

Lemma coerce_list (b : string) (l : list string) :
  Str.mem b arrayFields = true -> l <> [] ->
  coerceArray b (match l with [x] => JStr x | _ => strings l end) = strings l.
Proof.
  intros H N. unfold coerceArray. rewrite H.
  destruct l as [|x [|y l]]; [contradiction | reflexivity | reflexivity].
Qed.

Lemma forEach_single {A : Type} (l : list A) (f : A -> NostrTag) :
  flat_map (fun x => [f x]) l = map f l.
Proof. induction l; simpl; congruence. Qed.

Lemma toLowerCase_truthy (s : string) :
  Str.truthy (Str.toLowerCase s) = Str.truthy s.
Proof. destruct s; reflexivity. Qed.

Lemma tValues_keywords (ks : list string) :
  Forall (fun k => k <> "") ks ->
  tValues (map (fun k => createTag "t" (Str.toLowerCase k)) ks)
  = map Str.toLowerCase ks.
Proof.
  unfold tValues. induction 1 as [|k ks Hk _ IH]; simpl; [reflexivity|].
  unfold tValue at 1. simpl.
  rewrite toLowerCase_truthy. apply truthy_true in Hk. rewrite Hk, IH.
  reflexivity.
Qed.

Lemma map_fixed {A : Type} (f : A -> A) (l : list A) :
  Forall (fun x => f x = x) l -> map f l = l.
Proof. induction 1; simpl; congruence. Qed.

(** A flat group never makes the reconstruction raise. *)
Lemma flat_tags_return (tags : list NostrTag) (key b : string) :
  Forall (fun t => Str.hasColon (keyOf t) = false) tags ->
  reconstructProperty b (relatedTags key b tags) <> None.
Proof.
  intro H. unfold reconstructProperty.
  replace (existsb (fun t => Str.hasColon (rt_key t)) (relatedTags key b tags))
    with false; [discriminate|].
  symmetry. apply not_true_is_false. intro E.
  apply existsb_exists in E as (rt & Hin & Hc).
  apply relatedTags_In in Hin as (tag & Hin & Hrt).
  apply relatedTo_spec in Hrt as (v & vs & Hd & _ & _).
  rewrite Forall_forall in H. specialize (H tag Hin).
  unfold destTag in Hd. destruct tag as [|k [|v' vs']]; try discriminate.
  destruct (Str.truthy k); [|discriminate]. injection Hd as Hk _ _.
  rewrite <- Hk in Hc. simpl in H. congruence.
Qed.

End FlatFields.

(** ** Round trip on the simple fields *)

Section SimpleRoundTrip.

Variables (id name : string) (r : AmbLearningResource)
          (options : ConversionOptions) (dl : string).

Local Abbreviation blocks := (allBlocks id name r options).
Local Abbreviation emitted := (buildTags id name r options).

Hypothesis id_given : id <> "".
Hypothesis name_given : name <> "".

Lemma emitted_blocks : emitted = flatten blocks.
Proof. apply buildTags_blocks. Qed.

Lemma flat_field (b : string) (l : list string) (res : obj) :
  plainBase b ->
  blocksOf b blocks = [(b, map (createTag b) l)] ->
  l <> [] ->
  unflattenTags emitted dl = Some res ->
  obj_get b res =
    Some (coerceArray b (match l with [x] => JStr x | _ => strings l end)).
Proof.
  intros Hp Hb Hl Hres. rewrite emitted_blocks in Hres.
  eapply (flattened_field blocks b (map (createTag b) l)
            (allBlocks_based id name r options) Hb Hp).
  - left. apply Forall_forall. intros t Ht.
    apply in_map_iff in Ht as (x & <- & _). reflexivity.
  - destruct l; [contradiction | discriminate].
  - apply reconstruct_flat, Hp.
  - exact Hres.
Qed.

Lemma absent_field (b : string) (res : obj) :
  flatten (blocksOf b blocks) = [] ->
  unflattenTags emitted dl = Some res ->
  obj_get b res = obj_get b (resultAfterFirstPass emitted dl).
Proof.
  intros Hb Hres. apply unflattenTags_frame; [|exact Hres].
  rewrite emitted_blocks. apply empty_block_givesNothing, Hb.
Qed.

Ltac blocks_eq :=
  unfold allBlocks; destruct (includesRelationships options);
  reflexivity.

Lemma emitted_id (res : obj) :
  unflattenTags emitted dl = Some res -> obj_get "id" res = Some (JStr id).
Proof.
  intro Hres. rewrite (absent_field "id" res); [|blocks_eq|exact Hres].
  rewrite resultAfterFirstPass_id, emitted_blocks.
  rewrite (dValues_blocks blocks (allBlocks_based id name r options)).
  replace (flatten (blocksOf "d" blocks)) with [createTag "d" id]
    by blocks_eq.
  unfold dValues, dValue. simpl.
  apply truthy_true in id_given. rewrite id_given. reflexivity.
Qed.

Lemma emitted_name (res : obj) :
  unflattenTags emitted dl = Some res -> obj_get "name" res = Some (JStr name).
Proof.
  intro Hres.
  apply (flat_field "name" [name] res); try assumption.
  - repeat split; discriminate.
  - blocks_eq.
  - discriminate.
Qed.

Lemma emitted_type (res : obj) :
  amb_type r <> [] ->
  unflattenTags emitted dl = Some res ->
  obj_get "type" res = Some (strings (amb_type r)).
Proof.
  intros Ht Hres.
  rewrite (flat_field "type" (amb_type r) res); try assumption.
  - rewrite coerce_list; [reflexivity | reflexivity | exact Ht].
  - repeat split; discriminate.
  - blocks_eq.
Qed.

Lemma emitted_description (res : obj) :
  amb_description r <> Some "" ->
  unflattenTags emitted dl = Some res ->
  obj_get "description" res = option_map JStr (amb_description r).
Proof.
  intros Hd Hres.
  assert (Hb : blocksOf "description" blocks =
               [("description", optTag "description" (amb_description r))])
    by blocks_eq.
  destruct (amb_description r) as [d|] eqn:E.
  - assert (Nd : d <> "") by congruence.
    apply truthy_true in Nd. simpl in Hb. unfold strTag in Hb.
    rewrite Nd in Hb.
    apply (flat_field "description" [d] res); try assumption.
    + repeat split; discriminate.
    + discriminate.
  - rewrite (absent_field "description" res); [| |exact Hres].
    + apply resultAfterFirstPass_other; discriminate.
    + rewrite Hb. reflexivity.
Qed.

Lemma emitted_inLanguage (res : obj) :
  amb_inLanguage r <> Some [] ->
  unflattenTags emitted dl = Some res ->
  obj_get "inLanguage" res = option_map strings (amb_inLanguage r).
Proof.
  intros Hl Hres.
  assert (Hb : blocksOf "inLanguage" blocks =
               [("inLanguage",
                 forEachOpt (amb_inLanguage r)
                   (fun lang => [createTag "inLanguage" lang]))])
    by blocks_eq.
  destruct (amb_inLanguage r) as [l|] eqn:E.
  - assert (Nl : l <> []) by congruence.
    simpl in Hb. rewrite forEach_single in Hb.
    rewrite (flat_field "inLanguage" l res); try assumption.
    + simpl. rewrite coerce_list; [reflexivity | reflexivity | exact Nl].
    + repeat split; discriminate.
  - rewrite (absent_field "inLanguage" res); [| |exact Hres].
    + apply resultAfterFirstPass_other; discriminate.
    + rewrite Hb. reflexivity.
Qed.

(** [keywords] comes back lower-cased. *)
Lemma emitted_keywords (res : obj) :
  (forall ks, amb_keywords r = Some ks ->
              ks <> [] /\ Forall (fun k => k <> "") ks) ->
  unflattenTags emitted dl = Some res ->
  obj_get "keywords" res =
    option_map (fun ks => strings (map Str.toLowerCase ks)) (amb_keywords r).
Proof.
  intros Hk Hres.
  rewrite (absent_field "keywords" res); [|blocks_eq|exact Hres].
  rewrite resultAfterFirstPass_keywords, emitted_blocks.
  rewrite (tValues_blocks blocks (allBlocks_based id name r options)).
  replace (flatten (blocksOf "t" blocks))
    with (forEachOpt (amb_keywords r)
            (fun keyword => [createTag "t" (Str.toLowerCase keyword)]))
    by (unfold allBlocks; destruct (includesRelationships options);
        unfold flatten; simpl; rewrite app_nil_r; reflexivity).
  destruct (amb_keywords r) as [ks|]; [|reflexivity].
  destruct (Hk ks eq_refl) as [Hne Hall].
  simpl. rewrite forEach_single, (tValues_keywords ks Hall).
  destruct ks; [contradiction | reflexivity].
Qed.

Hypothesis is_simple : simple r.

Lemma simple_flat : Forall (fun t => Str.hasColon (keyOf t) = false) emitted.
Proof.
  destruct is_simple
    as (H1 & H2 & H3 & H4 & H5 & H6 & H7 & H8 & H9 & H10 & H11 & H12 & H13
        & H14 & H15).
  unfold buildTags, coreTags, relationshipTags.
  rewrite H1, H2, H3, H4, H5, H6, H7, H8, H9, H10, H11, H12, H13, H14, H15.
  cbn [forEachOpt optTag app].
  assert (Hmap : forall k (l : list string),
             Str.hasColon k = false ->
             Forall (fun t => Str.hasColon (keyOf t) = false)
               (map (createTag k) l)).
  { intros k l Hk. apply Forall_forall. intros t Ht.
    apply in_map_iff in Ht as (x & <- & _). exact Hk. }
  assert (Hflat : forall (f : string -> string) k (l : list string),
             Str.hasColon k = false ->
             Forall (fun t => Str.hasColon (keyOf t) = false)
               (flat_map (fun x => [createTag k (f x)]) l)).
  { intros f k l Hk. apply Forall_forall. intros t Ht.
    apply in_flat_map in Ht as (x & _ & [<-|[]]). exact Hk. }
  destruct (includesRelationships options); rewrite ?app_nil_r;
    repeat match goal with
      | |- Forall _ (_ :: _) => constructor; [reflexivity|]
      | |- Forall _ (_ ++ _) => apply Forall_app; split
      | |- Forall _ [] => constructor
      | |- Forall _ (map (createTag _) _) => apply Hmap; reflexivity
      | |- Forall _ (forEachOpt ?x _) => destruct x; simpl
      | |- Forall _ (flat_map _ _) =>
          first [ apply (Hflat Str.toLowerCase); reflexivity
                | apply (Hflat (fun x => x)); reflexivity ]
      | |- Forall _ (optTag _ ?x) => destruct x; simpl
      | |- Forall _ (strTag _ ?x) => unfold strTag; destruct (Str.truthy x)
      end.
Qed.

Lemma simple_returns : exists res, unflattenTags emitted dl = Some res.
Proof.
  apply unflattenTags_returns. intros tag k _ _.
  apply flat_tags_return, simple_flat.
Qed.

End SimpleRoundTrip.



(** ** Labels in several languages *)

Section Labels.

Lemma startsWith_append (p s : string) : Str.startsWith (p ++ s) p = true.
Proof.
  unfold Str.startsWith. induction p as [|c p IH]; simpl.
  - destruct s; reflexivity.
  - destruct (ascii_dec c c); [exact IH | congruence].
Qed.

Lemma append_assoc (a b c : string) :
  ((a ++ b) ++ c)%string = (a ++ b ++ c)%string.
Proof. induction a as [|x a IH]; simpl; congruence. Qed.

Lemma conceptTags_nested (field : string) (c : Concept) :
  Forall (fun t => Str.startsWith (keyOf t) (field ++ ":") = true)
    (conceptTags field c).
Proof.
  assert (H : forall rest value,
             Str.startsWith (keyOf (createTag (field ++ ":" ++ rest) value))
               (field ++ ":") = true).
  { intros rest value. unfold keyOf, createTag. cbn [hd].
    rewrite <- (append_assoc field ":" rest).
    exact (startsWith_append (field ++ ":") rest). }
  unfold conceptTags. repeat (apply Forall_app; split).
  - unfold strTag. destruct (Str.truthy (concept_id c)); [|constructor].
    constructor; [apply (H "id") | constructor].
  - destruct (concept_prefLabel c) as [labels|]; [|constructor].
    apply Forall_forall. intros t Ht.
    apply in_map_iff in Ht as (e & <- & _).
    apply (H ("prefLabel:" ++ fst e)%string).
  - unfold optTag, strTag. destruct (concept_type c) as [t|]; [|constructor].
    destruct (Str.truthy t); [|constructor].
    constructor; [apply (H "type") | constructor].
Qed.

Lemma filter_blocks (f : NostrTag -> bool) (b : string)
    (blocks : list (string * list NostrTag)) :
  (forall b' t, tagOf b' t -> b' <> b -> f t = false) ->
  based blocks ->
  filter f (flatten blocks) = filter f (flatten (blocksOf b blocks)).
Proof.
  intros Hf. unfold flatten, blocksOf.
  induction 1 as [|[b' ts] blocks Hb _ IH]; simpl; [reflexivity|].
  rewrite filter_app, IH. destruct (b' =? b) eqn:E; simpl.
  - rewrite filter_app. reflexivity.
  - apply String.eqb_neq in E. rewrite filter_none; [reflexivity|].
    eapply Forall_impl; [|exact Hb]. intros t Ht. eapply Hf; eassumption.
Qed.

Lemma prefLabel_tag_base (b' : string) (t : NostrTag) :
  tagOf b' t -> b' <> "about" -> isAboutPrefLabelTag t = false.
Proof.
  intros (k & v & -> & H) N. unfold isAboutPrefLabelTag. simpl.
  destruct (Str.startsWith k "about:prefLabel:") eqn:E; [|reflexivity].
  exfalso. apply N. rewrite <- H.
  unfold Str.startsWith in E.
  do 6 (destruct k as [|? k]; [discriminate E|];
        rewrite prefix_cons in E; apply andb_prop in E as [Ec E];
        apply Ascii.eqb_eq in Ec; subst).
  reflexivity.
Qed.

Lemma three_labels (labels : LocalizedString) :
  Permutation (map fst labels) ["en"; "de"; "fr"] ->
  exists l1 v1 l2 v2 l3 v3,
    labels = [(l1, v1); (l2, v2); (l3, v3)]
    /\ In "en" [l1; l2; l3] /\ In "de" [l1; l2; l3] /\ In "fr" [l1; l2; l3].
Proof.
  intro P. pose proof (Permutation_length P) as L.
  destruct labels as [|[l1 v1] [|[l2 v2] [|[l3 v3] [|? ?]]]]; try discriminate L.
  exists l1, v1, l2, v2, l3, v3. split; [reflexivity|].
  apply Permutation_sym in P.
  repeat split; apply (Permutation_in _ P); simpl; auto.
Qed.

End Labels.

Section AboutConcept.

Variables (c : Concept) (labels : LocalizedString).

Hypothesis has_labels : concept_prefLabel c = Some labels.
Hypothesis three_codes : Permutation (map fst labels) ["en"; "de"; "fr"].
Hypothesis labels_given : Forall (fun e => snd e <> "") labels.

(** The tags of the Concept reconstruct to one object that has the three
    labels. *)
Lemma about_reconstructed :
  reconstructProperty "about" (map asRelated (conceptTags "about" c))
  = Some (JObj (conceptObject c labels)).
Proof.
  destruct (three_labels labels three_codes)
    as (l1 & v1 & l2 & v2 & l3 & v3 & E & Hen & Hde & Hfr).
  pose proof labels_given as G. rewrite E in G.
  inversion G as [|? ? G1 G']; subst. inversion G' as [|? ? G2 G'']; subst.
  inversion G'' as [|? ? G3 _]; subst. simpl in G1, G2, G3.
  unfold conceptTags, conceptObject. rewrite has_labels.
  destruct c as [cid ctype cpl]. cbn [concept_id concept_type].
  destruct v1 as [|a1 s1]; [contradiction|].
  destruct v2 as [|a2 s2]; [contradiction|].
  destruct v3 as [|a3 s3]; [contradiction|].
  simpl in Hen, Hde, Hfr.
  destruct Hen as [Hen|[Hen|[Hen|[]]]];
    destruct Hde as [Hde|[Hde|[Hde|[]]]];
    destruct Hfr as [Hfr|[Hfr|[Hfr|[]]]];
    subst; try discriminate;
    destruct cid as [|ci cs]; destruct ctype as [[|ti tys]|];
    vm_compute; reflexivity.
Qed.

Lemma about_tags_given : conceptTags "about" c <> [].
Proof.
  destruct (three_labels labels three_codes)
    as (l1 & v1 & l2 & v2 & l3 & v3 & E & _).
  unfold conceptTags. rewrite has_labels, E.
  destruct (strTag ("about" ++ ":id") (concept_id c)); discriminate.
Qed.

Lemma about_prefLabel_tags :
  filter isAboutPrefLabelTag (conceptTags "about" c)
  = map (fun e => createTag ("about:prefLabel:" ++ fst e) (snd e)) labels.
Proof.
  unfold conceptTags. rewrite has_labels, !filter_app.
  replace (filter isAboutPrefLabelTag (strTag ("about" ++ ":id") (concept_id c)))
    with (@nil NostrTag)
    by (unfold strTag; destruct (Str.truthy (concept_id c)); reflexivity).
  replace (filter isAboutPrefLabelTag
             (optTag ("about" ++ ":type") (concept_type c)))
    with (@nil NostrTag)
    by (unfold optTag, strTag; destruct (concept_type c) as [t|];
        [destruct (Str.truthy t)|]; reflexivity).
  rewrite app_nil_r. cbn [app]. apply filter_all.
  apply Forall_forall. intros t Ht. apply in_map_iff in Ht as (e & <- & _).
  exact (startsWith_append "about:prefLabel:" (fst e)).
Qed.

Lemma prefLabel_keys_distinct :
  NoDup (map (fun e => ("about:prefLabel:" ++ fst e)%string) labels).
Proof.
  destruct (three_labels labels three_codes)
    as (l1 & v1 & l2 & v2 & l3 & v3 & E & Hen & Hde & Hfr).
  rewrite E. simpl in Hen, Hde, Hfr.
  destruct Hen as [Hen|[Hen|[Hen|[]]]];
    destruct Hde as [Hde|[Hde|[Hde|[]]]];
    destruct Hfr as [Hfr|[Hfr|[Hfr|[]]]];
    subst; try discriminate;
    repeat constructor; simpl; intuition discriminate.
Qed.

End AboutConcept.

Section GroupedKeys.

Lemma grouped_keyOf (tag : NostrTag) (k : string) :
  groupedKey tag = Some k -> keyOf tag = k.
Proof.
  unfold groupedKey, destTag. destruct tag as [|key [|v vs]]; try discriminate.
  destruct (Str.truthy key); [|discriminate].
  destruct (if key =? "d" then _ else _); [discriminate|].
  destruct (if key =? "t" then _ else _); [discriminate|].
  intro H. injection H as <-. reflexivity.
Qed.

End GroupedKeys.

(** C2 fails as stated: a label that is the empty string is flattened to a
    tag and lost in unflattening; and a resource whose [type] list is
    empty is flattened, but the event is refused by the unflattener, so
    that no Concept comes back. *)
Lemma empty_label_is_lost :
  (exists amb,
     roundTrip 0
       (resourceAbout [("en", ""); ("de", "Informatik"); ("fr", "Informatique")])
       noOptions None
     = Some (Success amb [])
     /\ obj_get "about" amb
        = Some (JArr [JObj [("id", JStr "http://example.org/concept");
                            ("prefLabel",
                             JObj [("de", JStr "Informatik");
                                   ("fr", JStr "Informatique")]);
                            ("type", JStr "Concept")]]))
  /\ roundTrip 0
       (untypedAbout [("en", "Computer Science"); ("de", "Informatik");
                      ("fr", "Informatique")])
       noOptions None
     = Some (Failure (mkError "Missing required field: type"
                              MISSING_REQUIRED_FIELD)).
Proof.
  split; [eexists; split; vm_compute; reflexivity | vm_compute; reflexivity].
Qed.

(** What holds instead is stated in the last part of the file, with the
    lemmas on the way back from the flattener at hand. *)

(** ** One object or a list of objects *)

(** The lemmas on the loop; the statement on the collapse is in the last
    part of the file, where it is also stated of whole conversions. *)

Section Collapse.

Lemma collectObjects_finish (tags : list RelatedTag) :
  collectObjects tags = option_map finish (nestedLoop tags tags 0%Z ([], [])).
Proof.
  unfold collectObjects, bind.
  destruct (nestedLoop tags tags 0%Z ([], [])) as [[objects cur]|]; reflexivity.
Qed.

(** The two tags of an agent close the object before, if there is one,
    and leave the object of the agent as the current one. *)
Lemma creator_steps (all : list RelatedTag) (idx : Z) (a : string * string)
    (rest : list RelatedTag) (objects : list obj) (cur : obj) :
  wellNamed a ->
  cur = [] \/ (exists a0, cur = agentObject a0) ->
  nestedLoop all (creatorPair a ++ rest) idx (objects, cur)
  = nestedLoop all rest (idx + 1 + 1)%Z (finish (objects, cur), agentObject a).
Proof.
  intros [Hn Ht] Hcur. destruct a as [n t]. simpl in Hn, Ht.
  destruct n as [|nc ns]; [contradiction|].
  destruct t as [|tc ts]; [contradiction|].
  destruct Hcur as [->|[[n0 t0] ->]]; reflexivity.
Qed.

Lemma creators_loop (all : list RelatedTag) (cs : list (string * string)) :
  Forall wellNamed cs ->
  forall idx objects cur,
    cur = [] \/ (exists a0, cur = agentObject a0) ->
    option_map finish
      (nestedLoop all (flat_map creatorPair cs) idx (objects, cur))
    = Some (finish (objects, cur) ++ map agentObject cs).
Proof.
  induction 1 as [|a cs Ha _ IH]; intros idx objects cur Hcur.
  - simpl. rewrite app_nil_r. reflexivity.
  - cbn [flat_map]. rewrite (creator_steps all idx a _ objects cur Ha Hcur).
    rewrite IH by (right; exists a; reflexivity).
    destruct a as [n t]. cbn [map]. unfold finish at 1. cbn [fst snd isEmptyObj agentObject].
    rewrite <- app_assoc. reflexivity.
Qed.

(** Any number of agents, each giving a name and a type, come back as
    as many objects, in the order of the tags. *)
Lemma creators_collected (cs : list (string * string)) :
  Forall wellNamed cs ->
  collectObjects (flat_map creatorPair cs) = Some (map agentObject cs).
Proof.
  intro H. rewrite collectObjects_finish.
  rewrite (creators_loop _ cs H 0%Z [] []) by (left; reflexivity).
  reflexivity.
Qed.

(** The objects closed so far are never touched again: one iteration
    leaves [objects] as it is or adds one object at its end. *)
Lemma nestedStep_appends (all : list RelatedTag) (idx : Z) (tag : RelatedTag)
    (objects objects' : list obj) (cur cur' : obj) :
  nestedStep all idx tag (objects, cur) = Some (objects', cur') ->
  objects' = objects \/ exists o, objects' = objects ++ [o].
Proof.
  unfold nestedStep.
  destruct (truthyFirst (rt_values tag)) as [value|];
    [|intro H; injection H as <- <-; auto].
  destruct (negb (Str.truthy (finalKeyOf (Str.split (rt_key tag)))));
    [intro H; injection H as <- <-; auto|].
  destruct (navigate _ cur) as [walked|]; simpl; [|discriminate].
  destruct (shouldStartNewObject _ _ _); simpl.
  - destruct (navigate _ []) as [fresh|]; simpl; [|discriminate].
    destruct (_ =? "prefLabel");
      [|destruct (_ && _)]; intro H; injection H as <- <-;
      right; eexists; reflexivity.
  - destruct (_ =? "prefLabel");
      [|destruct (_ && _)]; intro H; injection H as <- <-; auto.
Qed.

End Collapse.


(** ** Labels paired with a language tag *)

Section Navigation.

Lemma obj_set_same (k : string) (v : jsval) (o : obj) :
  obj_get k o = Some v -> obj_set k v o = o.
Proof.
  induction o as [|[k' v'] o IH]; simpl; [discriminate|].
  destruct (k =? k') eqn:E.
  - intro H. injection H as ->. reflexivity.
  - intro H. rewrite (IH H). reflexivity.
Qed.

(** After the walk, an assignment lands in the target. *)
Lemma target_assign (path : list string) (k : string) (v : jsval)
    (o o' : obj) :
  navigate path o = Some o' ->
  targetAt path (assignAt path k v o') = obj_set k v (targetAt path o').
Proof.
  revert o o'. induction path as [|p ps IH]; intros o o' H; [reflexivity|].
  simpl in H.
  assert (Hchild : exists c c', navigate ps c = Some c'
                                /\ o' = obj_set p (JObj c') o).
  { destruct (obj_get p o) as [[| | |child]|];
      try (destruct (js_truthy _); [discriminate|]);
      match type of H with
      | bind (navigate ps ?c) _ = _ =>
          destruct (navigate ps c) as [c'|] eqn:E; simpl in H;
          [injection H as <-; exists c, c'; auto | discriminate]
      end. }
  destruct Hchild as (c & c' & Hc & ->).
  cbn [assignAt targetAt]. rewrite obj_get_set_same.
  cbn [targetAt]. rewrite obj_get_set_same. apply (IH c c' Hc).
Qed.

(** A walk to a target that has a truthy property creates nothing. *)
Lemma navigate_existing (path : list string) (k : string) (o : obj) :
  prop_truthy k (targetAt path o) = true -> navigate path o = Some o.
Proof.
  revert o. induction path as [|p ps IH]; intros o H; [reflexivity|].
  simpl in H |- *.
  destruct (obj_get p o) as [[| | |child]|] eqn:E; try discriminate H.
  rewrite (IH child H). simpl. rewrite (obj_set_same _ _ _ E). reflexivity.
Qed.

Lemma navigate_fresh (path : list string) :
  exists fresh, navigate path [] = Some fresh.
Proof.
  induction path as [|p ps [fresh IH]]; simpl.
  - eexists. reflexivity.
  - rewrite IH. simpl. eexists. reflexivity.
Qed.

(** A walk to a target that has a property creates nothing. *)
Lemma navigate_present (path : list string) (k : string) (o : obj) :
  obj_has k (targetAt path o) = true -> navigate path o = Some o.
Proof.
  revert o. induction path as [|p ps IH]; intros o H; [reflexivity|].
  simpl in H |- *.
  destruct (obj_get p o) as [[| | |child]|] eqn:E; try discriminate H.
  rewrite (IH child H). simpl. rewrite (obj_set_same _ _ _ E). reflexivity.
Qed.

(** An object with a property at the end of a path is not empty. *)
Lemma present_not_empty (path : list string) (k : string) (o : obj) :
  obj_has k (targetAt path o) = true -> isEmptyObj o = false.
Proof.
  destruct o as [|kv o]; [|reflexivity].
  destruct path; intro H; discriminate H.
Qed.

(** The target of a walk from the empty object is empty. *)
Lemma fresh_target (path : list string) (fresh : obj) :
  navigate path [] = Some fresh -> targetAt path fresh = [].
Proof.
  revert fresh. induction path as [|p ps IH]; intros fresh H.
  - injection H as <-. reflexivity.
  - simpl in H. destruct (navigate ps []) as [child|] eqn:E;
      [|discriminate H].
    simpl in H. injection H as <-. cbn [targetAt obj_get].
    rewrite String.eqb_refl. apply IH. reflexivity.
Qed.

End Navigation.

Section LanguageWindow.

Variables (p : RelatedTag -> Z -> bool).

(** [find] returns the first element that passes the test. *)
Lemma findIdx_first (ts : list RelatedTag) (from : Z) (n : nat)
    (t : RelatedTag) :
  nth_error ts n = Some t ->
  p t (from + Z.of_nat n)%Z = true ->
  (forall m t', (m < n)%nat -> nth_error ts m = Some t' ->
                p t' (from + Z.of_nat m)%Z = false) ->
  findIdx p ts from = Some t.
Proof.
  revert from n. induction ts as [|x ts IH]; intros from n Hn Hp Hfirst.
  - destruct n; discriminate Hn.
  - destruct n as [|n]; simpl in Hn |- *.
    + injection Hn as ->. rewrite Z.add_0_r in Hp. rewrite Hp. reflexivity.
    + assert (H0 : p x from = false).
      { rewrite <- (Z.add_0_r from). apply (Hfirst 0%nat x); [lia|reflexivity]. }
      rewrite H0. apply (IH (from + 1)%Z n Hn).
      * replace (from + 1 + Z.of_nat n)%Z with (from + Z.of_nat (S n))%Z by lia.
        exact Hp.
      * intros m t' Hm Ht'.
        replace (from + 1 + Z.of_nat m)%Z with (from + Z.of_nat (S m))%Z by lia.
        apply Hfirst; [lia | exact Ht'].
Qed.

Lemma findIdx_found (ts : list RelatedTag) (from : Z) (t : RelatedTag) :
  findIdx p ts from = Some t ->
  exists n, nth_error ts n = Some t /\ p t (from + Z.of_nat n)%Z = true.
Proof.
  revert from. induction ts as [|x ts IH]; intros from; simpl; [discriminate|].
  destruct (p x from) eqn:E.
  - intro H. injection H as ->. exists 0%nat. rewrite Z.add_0_r. auto.
  - intro H. destruct (IH _ H) as (n & Hn & Hp). exists (S n).
    split; [exact Hn|].
    replace (from + Z.of_nat (S n))%Z with (from + 1 + Z.of_nat n)%Z by lia.
    exact Hp.
Qed.

Lemma findIdx_some (ts : list RelatedTag) (from : Z) (n : nat)
    (t : RelatedTag) :
  nth_error ts n = Some t -> p t (from + Z.of_nat n)%Z = true ->
  exists t', findIdx p ts from = Some t'.
Proof.
  revert from n. induction ts as [|x ts IH]; intros from n Hn Hp.
  - destruct n; discriminate Hn.
  - simpl. destruct (p x from) eqn:E; [eexists; reflexivity|].
    destruct n as [|n]; simpl in Hn.
    + injection Hn as ->. rewrite Z.add_0_r in Hp. congruence.
    + apply (IH (from + 1)%Z n Hn).
      replace (from + 1 + Z.of_nat n)%Z with (from + Z.of_nat (S n))%Z by lia.
      exact Hp.
Qed.

End LanguageWindow.

Section PrefLabel.

Variables (all : list RelatedTag) (idx : Z) (parts : list string).

Lemma findLangTag_sound (s : RelatedTag) :
  findLangTag all parts idx = Some s ->
  exists n, siblingAt all parts n s /\ nextTo idx n.
Proof.
  unfold findLangTag. intro H.
  apply findIdx_found in H as (n & Hn & Hp).
  apply andb_prop in Hp as [Hp H2]. apply andb_prop in Hp as [H0 H1].
  apply String.eqb_eq in H0. apply Z.ltb_lt in H1, H2.
  exists n. unfold siblingAt, nextTo. repeat split; auto; lia.
Qed.

Lemma findLangTag_complete (n : nat) (s : RelatedTag) :
  siblingAt all parts n s -> nextTo idx n ->
  exists s', findLangTag all parts idx = Some s'.
Proof.
  intros [Hn Hk] Hw. unfold findLangTag.
  apply (findIdx_some _ all 0%Z n s Hn). unfold nextTo in Hw.
  rewrite Hk, String.eqb_refl. simpl.
  apply andb_true_intro. split; apply Z.ltb_lt; lia.
Qed.

(** The sibling found is the first one of the window. *)
Lemma findLangTag_first (n : nat) (s : RelatedTag) :
  siblingAt all parts n s -> nextTo idx n ->
  (forall m s', (m < n)%nat -> nextTo idx m -> ~ siblingAt all parts m s') ->
  findLangTag all parts idx = Some s.
Proof.
  intros [Hn Hk] Hw Hfirst. unfold findLangTag.
  apply (findIdx_first _ all 0%Z n s Hn).
  - unfold nextTo in Hw. rewrite Hk, String.eqb_refl. simpl.
    apply andb_true_intro. split; apply Z.ltb_lt; lia.
  - intros m t' Hm Ht'.
    destruct ((rt_key t' =? langKeyOf parts)
              && (idx - 2 <? 0 + Z.of_nat m)%Z
              && (0 + Z.of_nat m <? idx + 2)%Z) eqn:E; [|reflexivity].
    exfalso. apply andb_prop in E as [E H2]. apply andb_prop in E as [H0 H1].
    apply String.eqb_eq in H0. apply Z.ltb_lt in H1, H2.
    apply (Hfirst m t' Hm); unfold nextTo, siblingAt; auto; lia.
Qed.

End PrefLabel.

(** C7 fails as stated.  A sibling [inLanguage] tag with an empty value is
    found next to the [prefLabel] tag, and the label is written as a plain
    string; a [prefLabel] tag with an empty value is skipped, sibling or
    not; a [prefLabel] tag whose path leads through a string makes the
    iteration raise; and an [inLanguage] tag whose target has a
    [prefLabel] and an [inLanguage] already is not skipped: it closes the
    object and is written into the next one. *)
Lemma pairing_exceptions :
  nestedStep
    [mkRelated "about:prefLabel" ["X"]; mkRelated "about:inLanguage" [""]]
    0%Z (mkRelated "about:prefLabel" ["X"]) ([], [])
  = Some ([], [("prefLabel", JStr "X")])
  /\ nestedStep
       [mkRelated "about:prefLabel" [""]; mkRelated "about:inLanguage" ["de"]]
       0%Z (mkRelated "about:prefLabel" [""]) ([], [])
     = Some ([], [])
  /\ nestedStep
       [mkRelated "about:name" ["Informatik"];
        mkRelated "about:name:prefLabel" ["X"];
        mkRelated "about:name:inLanguage" ["de"]]
       1%Z (mkRelated "about:name:prefLabel" ["X"])
       ([], [("name", JStr "Informatik")])
     = None
  /\ (let labelled :=
        [("inLanguage", JStr "de"); ("prefLabel", JObj [("de", JStr "X")])] in
      prop_truthy "prefLabel" labelled = true
      /\ nestedStep
           [mkRelated "about:inLanguage" ["de"];
            mkRelated "about:prefLabel" ["X"];
            mkRelated "about:inLanguage" ["en"]]
           2%Z (mkRelated "about:inLanguage" ["en"]) ([], labelled)
         = Some ([labelled], [("inLanguage", JStr "en")])).
Proof. repeat split. Qed.

(** C7, as the code has it.  Take a tag with a non-empty value whose
    key is made of segments that are no inherited names, not [length] and
    not made of digits, and a current object none of whose properties, at
    any depth, has an inherited name.  If the leaf segment of the tag is
    [prefLabel], the walk to its target does not raise and some
    [inLanguage] sibling (same parent path) lies within one position of
    it, then the search finds such a sibling, the first one in tag order,
    and [prefLabel] of the target is written as the single-key mapping
    from the value of that sibling to the label when that value is not
    empty, and as the plain label otherwise.  If its leaf segment is
    [inLanguage] and its target has a [prefLabel] and no [inLanguage] yet,
    the iteration changes nothing.  If its leaf segment is [inLanguage]
    and its target has an [inLanguage] already, the iteration closes the
    current object and starts a new one, whose target holds this
    [inLanguage] and nothing else. *)
Theorem prefLabel_language_pairing (all : list RelatedTag) (idx : Z)
    (tag : RelatedTag) (objects : list obj) (cur : obj) (value : string) :
  let parts := Str.split (rt_key tag) in
  let path := innerPath parts in
  truthyFirst (rt_values tag) = Some value ->
  Forall plainSegment parts ->
  plainObject cur ->
  (finalKeyOf parts = "prefLabel" ->
   navigate path cur <> None ->
   forall n s, siblingAt all parts n s -> nextTo idx n ->
     exists s' objects' cur',
       findLangTag all parts idx = Some s'
       /\ (exists n', siblingAt all parts n' s' /\ nextTo idx n')
       /\ ((forall m s0, (m < n)%nat -> nextTo idx m ->
                         ~ siblingAt all parts m s0) -> s' = s)
       /\ nestedStep all idx tag (objects, cur) = Some (objects', cur')
       /\ obj_get "prefLabel" (targetAt path cur')
          = Some (match truthyFirst (rt_values s') with
                  | Some lang => JObj [(lang, JStr value)]
                  | None => JStr value
                  end))
  /\ (finalKeyOf parts = "inLanguage" ->
      prop_truthy "prefLabel" (targetAt path cur) = true ->
      obj_has "inLanguage" (targetAt path cur) = false ->
      nestedStep all idx tag (objects, cur) = Some (objects, cur))
  /\ (finalKeyOf parts = "inLanguage" ->
      obj_has "inLanguage" (targetAt path cur) = true ->
      exists fresh,
        navigate path [] = Some fresh
        /\ nestedStep all idx tag (objects, cur)
           = Some (objects ++ [cur],
                   assignAt path "inLanguage" (JStr value) fresh)
        /\ targetAt path (assignAt path "inLanguage" (JStr value) fresh)
           = [("inLanguage", JStr value)]).
Proof.
  intros parts path Hvalue _ _. split; [|split].
  - intros Hfinal Hwalk n s Hs Hn.
    destruct (findLangTag_complete all idx parts n s Hs Hn) as [s' Hfind].
    destruct (navigate path cur) as [walked|] eqn:Ewalk; [|contradiction].
    destruct (navigate_fresh path) as [fresh Efresh].
    set (written := match truthyFirst (rt_values s') with
                    | Some lang => JObj [(lang, JStr value)]
                    | None => JStr value
                    end).
    assert (Hstep : exists objects' current',
               nestedStep all idx tag (objects, cur)
               = Some (objects', assignAt path "prefLabel" written current')
               /\ exists from, navigate path from = Some current').
    { unfold nestedStep. rewrite Hvalue. fold parts. rewrite Hfinal.
      cbn [Str.truthy String.eqb Ascii.eqb Bool.eqb negb andb].
      fold path. rewrite Ewalk. cbn [bind].
      destruct (shouldStartNewObject walked (targetAt path walked) "prefLabel").
      - rewrite Efresh. cbn [bind]. rewrite Hfind.
        exists (objects ++ [walked]), fresh. split; [reflexivity|].
        exists []. exact Efresh.
      - cbn [bind]. rewrite Hfind.
        exists objects, walked. split; [reflexivity|].
        exists cur. exact Ewalk. }
    destruct Hstep as (objects' & current' & Hstep & from & Hfrom).
    exists s', objects', (assignAt path "prefLabel" written current').
    split; [exact Hfind|]. split; [apply findLangTag_sound, Hfind|].
    split; [|split; [exact Hstep|]].
    + intro Hfirst.
      rewrite (findLangTag_first all idx parts n s Hs Hn Hfirst) in Hfind.
      congruence.
    + rewrite (target_assign path "prefLabel" written from current' Hfrom).
      apply obj_get_set_same.
  - intros Hfinal Hlabel Hlang.
    unfold nestedStep. rewrite Hvalue. fold parts. rewrite Hfinal.
    cbn [Str.truthy String.eqb Ascii.eqb Bool.eqb negb andb].
    fold path. rewrite (navigate_existing path "prefLabel" cur Hlabel).
    cbn [bind]. unfold shouldStartNewObject.
    cbn [String.eqb Ascii.eqb Bool.eqb andb]. rewrite Hlang.
    destruct (negb (isEmptyObj cur)); cbn [bind]; rewrite Hlabel; reflexivity.
  - intros Hfinal Hlang.
    destruct (navigate_fresh path) as [fresh Efresh].
    exists fresh. split; [exact Efresh|].
    pose proof (fresh_target path fresh Efresh) as Hempty. split.
    + unfold nestedStep. rewrite Hvalue. fold parts. rewrite Hfinal.
      cbn [Str.truthy String.eqb Ascii.eqb Bool.eqb negb andb].
      fold path. rewrite (navigate_present path "inLanguage" cur Hlang).
      cbn [bind]. unfold shouldStartNewObject.
      rewrite (present_not_empty path "inLanguage" cur Hlang).
      cbn [negb String.eqb Ascii.eqb Bool.eqb andb]. rewrite Hlang.
      rewrite Efresh. cbn [bind]. rewrite Hempty. reflexivity.
    + rewrite (target_assign path "inLanguage" (JStr value) [] fresh Efresh).
      rewrite Hempty. reflexivity.
Qed.

(** ** The claims at sample inputs *)

(** C4 fails as stated: with two [d] tags the [id] is the value of the
    second, not of the first; and a tag under the base key [id] overrides
    both. *)
Lemma first_d_tag_loses :
  nostrToAmb (ambEvent twoDTags) None = Success twoDResource []
  /\ dValues twoDTags = ["a"; "b"]
  /\ obj_get "id" twoDResource = Some (JStr "b")
  /\ obj_get "id" twoDResource <> Some (JStr "a")
  /\ nostrToAmb (ambEvent twoDAndIdTags) None = Success twoDAndIdResource []
  /\ dValues twoDAndIdTags = ["a"; "b"]
  /\ obj_get "id" twoDAndIdResource = Some (JStr "c").
Proof. repeat split. discriminate. Qed.

(** C5 fails as stated: an event of the right kind with a list of tags
    that give [id], [name] and [type] gets neither [INVALID_FORMAT] nor
    [MISSING_REQUIRED_FIELD] nor a resource when a tag asks for a
    property below a scalar. *)
Lemma reconstruction_can_raise :
  ev_kind (ambEvent nestedUnderScalar) = AMB_KIND
  /\ ev_tags (ambEvent nestedUnderScalar) = Some nestedUnderScalar
  /\ dValues nestedUnderScalar = ["i"]
  /\ unflattenTags nestedUnderScalar "de" = None
  /\ nostrToAmb (ambEvent nestedUnderScalar) None = Failure conversionFailed
  /\ code conversionFailed = CONVERSION_FAILED.
Proof. repeat split. Qed.

(** C9 fails as stated: with the timestamp 0 supplied, two calls at
    different clock readings give different results. *)
Lemma clock_read_at_timestamp_zero :
  opt_timestamp (optionsAt 0) = Some 0%Z
  /\ ambToNostr 1700000000 (resourceWithKeywords []) (optionsAt 0)
     <> ambToNostr 1700000001 (resourceWithKeywords []) (optionsAt 0).
Proof. split; [reflexivity|]. vm_compute. discriminate. Qed.




Lemma last_d_tag_wins_witness :
  obj_get "id" twoDResource = Some (JStr (last (dValues twoDTags) "")).
Proof.
  apply (last_d_tag_wins (ambEvent twoDTags) None twoDTags twoDResource []).
  - reflexivity.
  - reflexivity.
  - intros tag k Hin Hg.
    destruct Hin as [<-|[<-|[<-|[<-|[]]]]]; vm_compute in Hg;
      try discriminate Hg; injection Hg as <-; discriminate.
  - discriminate.
Defined.

Lemma unflatten_outcomes_witness :
  failsWith INVALID_FORMAT (nostrToAmb (mkNostrEvent 1 (Some twoDTags)) None)
  /\ nostrToAmb (ambEvent twoDTags) None = Success twoDResource []
  /\ failsWith CONVERSION_FAILED (nostrToAmb (ambEvent nestedUnderScalar) None)
  /\ failsWith MISSING_REQUIRED_FIELD
       (nostrToAmb (ambEvent [["name"; "n"]; ["type"; "T"]]) None).
Proof.
  split; [|split; [|split]].
  - apply (proj1 (unflatten_outcomes (mkNostrEvent 1 (Some twoDTags)) None)).
    left. discriminate.
  - apply (proj1 (proj2 (unflatten_outcomes (ambEvent twoDTags) None))
             twoDTags eq_refl eq_refl).
    intros t Hin _.
    destruct Hin as [<-|[<-|[<-|[<-|[]]]]];
      (split; [split; [|cbn; lia] | discriminate]);
      repeat constructor; unfold ownName; cbn; intuition discriminate.
  - apply (proj1 (proj2 (unflatten_outcomes (ambEvent nestedUnderScalar) None))
             nestedUnderScalar eq_refl eq_refl).
    intros t Hin _.
    destruct Hin as [<-|[<-|[<-|[<-|[<-|[]]]]]];
      (split; [split; [|cbn; lia] | discriminate]);
      repeat constructor; unfold ownName; cbn; intuition discriminate.
  - apply (proj2 (proj2 (unflatten_outcomes
                           (ambEvent [["name"; "n"]; ["type"; "T"]]) None))
             [["name"; "n"]; ["type"; "T"]]
             [("@context",
               JArr [JStr AMB_CONTEXT; JObj [("@language", JStr "de")]]);
              ("name", JStr "n"); ("type", JArr [JStr "T"])]).
    + reflexivity.
    + reflexivity.
    + intros t Hin _.
      destruct Hin as [<-|[<-|[]]];
        (split; [split; [|cbn; lia] | discriminate]);
        repeat constructor; unfold ownName; cbn; intuition discriminate.
    + reflexivity.
    + left. split; [reflexivity|].
      intros tag k Hin Hg.
      destruct Hin as [<-|[<-|[]]]; vm_compute in Hg;
        injection Hg as <-; discriminate.
Defined.

Lemma flatten_required_fields_witness :
  exists e,
    ambToNostr 0 courseWithoutId noOptions = Failure e
    /\ code e = MISSING_REQUIRED_FIELD
    /\ includes (message e) "id" = true.
Proof.
  apply (proj1 (flatten_required_fields 0 courseWithoutId noOptions)).
  left. reflexivity.
Defined.

Lemma prefLabel_language_pairing_witness :
  (exists objects' cur',
     nestedStep labelThenLanguage 0%Z
       (mkRelated "about:prefLabel" ["Informatik"]) ([], [])
     = Some (objects', cur')
     /\ obj_get "prefLabel" cur' = Some (JObj [("de", JStr "Informatik")]))
  /\ nestedStep labelThenLanguage 1%Z (mkRelated "about:inLanguage" ["de"])
       ([], [("prefLabel", JObj [("de", JStr "Informatik")])])
     = Some ([], [("prefLabel", JObj [("de", JStr "Informatik")])])
  /\ nestedStep labelThenLanguage 1%Z (mkRelated "about:inLanguage" ["de"])
       ([], [("inLanguage", JStr "en")])
     = Some ([[("inLanguage", JStr "en")]], [("inLanguage", JStr "de")]).
Proof.
  assert (Hlabel : Forall plainSegment (Str.split "about:prefLabel")).
  { repeat constructor; unfold ownName; cbn; intuition discriminate. }
  assert (Hkey : Forall plainSegment (Str.split "about:inLanguage")).
  { repeat constructor; unfold ownName; cbn; intuition discriminate. }
  split; [|split].
  - destruct (proj1 (prefLabel_language_pairing labelThenLanguage 0%Z
                       (mkRelated "about:prefLabel" ["Informatik"]) [] []
                       "Informatik" eq_refl Hlabel eq_refl)
                eq_refl ltac:(discriminate)
                1%nat (mkRelated "about:inLanguage" ["de"])
                (conj eq_refl eq_refl) ltac:(unfold nextTo; lia))
      as (s' & objects' & cur' & _ & _ & Hfirst & Hstep & Hwritten).
    exists objects', cur'. split; [exact Hstep|].
    rewrite Hfirst in Hwritten; [exact Hwritten|].
    intros m s0 Hm _ [Hnth Hk].
    destruct m as [|m]; [|lia].
    injection Hnth as <-. discriminate Hk.
  - apply (proj1 (proj2 (prefLabel_language_pairing labelThenLanguage 1%Z
                           (mkRelated "about:inLanguage" ["de"]) []
                           [("prefLabel", JObj [("de", JStr "Informatik")])]
                           "de" eq_refl Hkey eq_refl))).
    + reflexivity.
    + reflexivity.
    + reflexivity.
  - destruct (proj2 (proj2 (prefLabel_language_pairing labelThenLanguage 1%Z
                              (mkRelated "about:inLanguage" ["de"]) []
                              [("inLanguage", JStr "en")]
                              "de" eq_refl Hkey eq_refl))
                eq_refl eq_refl)
      as (fresh & Hfresh & Hstep & _).
    injection Hfresh as <-. exact Hstep.
Defined.

Lemma relationships_suppressed_witness :
  exists e w,
    ambToNostr 0 courseWithParts withoutRelationships = Success e w
    /\ (opt_includeRelationships withoutRelationships = Some false ->
        filter isRelationshipTag (tags e) = [])
    /\ (opt_includeRelationships withoutRelationships <> Some false ->
        filter isRelationshipTag (tags e) = relationshipTags courseWithParts)
    /\ (opt_includeRelationships withoutRelationships <> Some false ->
        (forall parts p, amb_hasPart courseWithParts = Some parts -> In p parts ->
           In (createTag "hasPart:id" (ref_id p)) (tags e))
        /\ (forall parents p,
              amb_isPartOf courseWithParts = Some parents -> In p parents ->
              In (createTag "isPartOf:id" (ref_id p)) (tags e))
        /\ (forall sources p,
              amb_isBasedOn courseWithParts = Some sources -> In p sources ->
              In (createTag "isBasedOn:id" (ref_id p)) (tags e))).
Proof.
  apply (relationships_suppressed 0 courseWithParts withoutRelationships
           "https://oer.gitlab.io/OS"
           "Computer Structures and Operating Systems").
  repeat split; discriminate.
Defined.

Lemma flatten_deterministic_witness :
  ambToNostr 1700000000 courseWithParts (optionsAt 1700000000)
  = ambToNostr 1800000000 courseWithParts (optionsAt 1700000000).
Proof.
  apply (proj2 (flatten_deterministic 1700000000 1800000000 courseWithParts
                  (optionsAt 1700000000)) 1700000000%Z).
  - reflexivity.
  - discriminate.
Defined.


(** * Further properties of the code *)

(** ** The emitted tags through the tag helpers *)

Section EmittedTags.

Variables (now : Z) (r : AmbLearningResource) (o : ConversionOptions)
          (id name : string).

Hypothesis is_identified : identified r id name.

Local Abbreviation blocks := (allBlocks id name r o).
Local Abbreviation emitted := (buildTags id name r o).

(** The event the flattener returns. *)
Lemma emitted_event :
  exists e w, ambToNostr now r o = Success e w /\ tags e = emitted
              /\ pubkey e = pubkeyOf o /\ kind e = AMB_KIND /\ content e = ""
              /\ created_at e = createdAtOf now o
              /\ w = (if pubkeyOf o =? DEFAULT_PUBKEY
                      then [defaultPubkeyWarning] else []).
Proof.
  rewrite (ambToNostr_identified now r o id name is_identified).
  eexists. eexists. repeat split.
Qed.

Lemma hasKey_base (K b' : string) (t : NostrTag) :
  tagOf b' t -> b' <> Str.baseKey K -> hasKey K t = false.
Proof.
  intros (k & v & -> & H) N. simpl.
  destruct (k =? K) eqn:E; [|reflexivity].
  apply String.eqb_eq in E. congruence.
Qed.

(** The tags under a key are in the block of its base key. *)
Lemma tags_with_key (K : string) :
  filter (hasKey K) emitted
  = filter (hasKey K) (flatten (blocksOf (Str.baseKey K) blocks)).
Proof.
  rewrite buildTags_blocks.
  apply filter_blocks; [|apply allBlocks_based].
  intros b' t Ht N. eapply hasKey_base; eassumption.
Qed.

Lemma bases_named : Forall (fun bt => fst bt <> "") blocks.
Proof.
  unfold allBlocks, coreBlocks, relationshipBlocks.
  destruct (includesRelationships o);
    repeat (apply Forall_cons; [discriminate|]); apply Forall_nil.
Qed.

Lemma emitted_well_formed :
  Forall (fun t => exists k v, t = [k; v] /\ k <> ""
                               /\ destTag t = Some (k, [v])) emitted.
Proof.
  rewrite buildTags_blocks. apply Forall_forall. intros t Ht.
  apply In_flatten in Ht as ([b ts] & Hbt & Ht).
  pose proof (based_In _ _ _ _ (allBlocks_based id name r o) Hbt Ht) as Hof.
  pose proof bases_named as Hn. rewrite Forall_forall in Hn.
  specialize (Hn _ Hbt). simpl in Hn.
  pose proof (tagOf_destTag b t Hof Hn) as Hd.
  destruct Hof as (k & v & -> & Hb). exists k, v.
  repeat split; [|exact Hd].
  intros ->. apply Hn. rewrite <- Hb. reflexivity.
Qed.

Lemma values_of_map (K : string) (f : string -> string) (l : list string) :
  filterMap (fun value => value)
    (map tagValue (filter (hasKey K) (map (fun x => createTag K (f x)) l)))
  = map f l.
Proof.
  induction l as [|x l IH]; [reflexivity|].
  cbn [map filter hasKey createTag]. rewrite String.eqb_refl.
  cbn [map filterMap tagValue nth_error]. rewrite IH. reflexivity.
Qed.

End EmittedTags.

Section HelpersOnEvents.

Variables (now : Z) (r : AmbLearningResource) (o : ConversionOptions)
          (id name : string).

Hypothesis is_identified : identified r id name.

Lemma block_of_key (K b : string) (ts : list NostrTag) :
  Str.baseKey K = b ->
  blocksOf b (allBlocks id name r o) = [(b, ts)] ->
  filter (hasKey K) (buildTags id name r o) = filter (hasKey K) ts.
Proof.
  intros Hb Hblock. rewrite (tags_with_key r o id name K), Hb, Hblock.
  unfold flatten. simpl. rewrite app_nil_r. reflexivity.
Qed.

Lemma values_of_key (K b : string) (f : string -> string) (l : list string) :
  Str.baseKey K = b ->
  blocksOf b (allBlocks id name r o) = [(b, map (fun x => createTag K (f x)) l)] ->
  filterMap (fun value => value)
    (map tagValue (filter (hasKey K) (buildTags id name r o)))
  = map f l.
Proof.
  intros Hb Hblock. rewrite (block_of_key K b _ Hb Hblock).
  apply values_of_map.
Qed.

Lemma d_tags_emitted :
  filter (hasKey "d") (buildTags id name r o) = [createTag "d" id].
Proof.
  rewrite (block_of_key "d" "d" [createTag "d" id] eq_refl); [reflexivity|].
  unfold allBlocks. destruct (includesRelationships o); reflexivity.
Qed.

Lemma type_values_emitted :
  filterMap (fun value => value)
    (map tagValue (filter (hasKey "type") (buildTags id name r o)))
  = amb_type r.
Proof.
  rewrite (values_of_key "type" "type" (fun x => x) (amb_type r) eq_refl).
  - apply map_id.
  - unfold allBlocks. destruct (includesRelationships o); reflexivity.
Qed.

Lemma forEachOpt_single {A : Type} (xs : option (list A)) (f : A -> NostrTag) :
  forEachOpt xs (fun x => [f x]) = map f (orEmpty xs).
Proof. destruct xs as [l|]; [apply forEach_single | reflexivity]. Qed.

Lemma keyword_values_emitted :
  filterMap (fun value => value)
    (map tagValue (filter (hasKey "t") (buildTags id name r o)))
  = map Str.toLowerCase (orEmpty (amb_keywords r)).
Proof.
  apply (values_of_key "t" "t" Str.toLowerCase _ eq_refl).
  rewrite <- (forEachOpt_single (amb_keywords r)
                (fun k => createTag "t" (Str.toLowerCase k))).
  unfold allBlocks. destruct (includesRelationships o); reflexivity.
Qed.

Lemma language_values_emitted :
  filterMap (fun value => value)
    (map tagValue (filter (hasKey "inLanguage") (buildTags id name r o)))
  = orEmpty (amb_inLanguage r).
Proof.
  rewrite (values_of_key "inLanguage" "inLanguage" (fun x => x)
             (orEmpty (amb_inLanguage r)) eq_refl).
  - apply map_id.
  - cbv beta.
    rewrite <- (forEachOpt_single (amb_inLanguage r)
                  (fun x => createTag "inLanguage" x)).
    unfold allBlocks. destruct (includesRelationships o); reflexivity.
Qed.

Lemma relay_values_emitted :
  filterMap (fun value => value)
    (map tagValue (filter (hasKey "r") (buildTags id name r o)))
  = orEmpty (opt_relayHints o).
Proof.
  rewrite (values_of_key "r" "r" (fun x => x)
             (orEmpty (opt_relayHints o)) eq_refl).
  - apply map_id.
  - cbv beta.
    rewrite <- (forEachOpt_single (opt_relayHints o)
                  (fun x => createTag "r" x)).
    unfold allBlocks. destruct (includesRelationships o); reflexivity.
Qed.

Lemma agent_names (field : string) (tagsOf : Agent -> list NostrTag)
    (l : list Agent) :
  (forall a, filter (hasKey (field ++ ":name")) (tagsOf a)
             = [createTag (field ++ ":name") (getPersonOrOrgName a)]) ->
  filterMap (fun value => value)
    (map tagValue (filter (hasKey (field ++ ":name")) (flat_map tagsOf l)))
  = map getPersonOrOrgName l.
Proof.
  intro H. induction l as [|a l IH]; [reflexivity|].
  cbn [flat_map]. rewrite filter_app, H. cbn [app map filterMap tagValue].
  cbn [createTag nth_error]. rewrite IH. reflexivity.
Qed.

Lemma creator_name_tag (a : Agent) :
  filter (hasKey "creator:name") (creatorTags a)
  = [createTag "creator:name" (getPersonOrOrgName a)].
Proof.
  unfold creatorTags, optTag, strTag.
  destruct (agent_id a) as [i|]; [destruct (Str.truthy i)|];
    (destruct (agent_honorificPrefix a) as [h|]; [destruct (Str.truthy h)|]);
    (destruct (agent_affiliation a) as [org|];
     [destruct (Str.truthy (org_name org)); destruct (Str.truthy (org_type org));
      (destruct (org_id org) as [oi|]; [destruct (Str.truthy oi)|])|]);
    reflexivity.
Qed.

Lemma publisher_name_tag (a : Agent) :
  filter (hasKey "publisher:name") (publisherTags a)
  = [createTag "publisher:name" (getPersonOrOrgName a)].
Proof.
  unfold publisherTags, optTag, strTag.
  destruct (agent_id a) as [i|]; [destruct (Str.truthy i)|]; reflexivity.
Qed.

Lemma creator_names_emitted :
  filterMap (fun value => value)
    (map tagValue (filter (hasKey "creator:name") (buildTags id name r o)))
  = map getPersonOrOrgName (orEmpty (amb_creator r)).
Proof.
  rewrite (block_of_key "creator:name" "creator"
             (forEachOpt (amb_creator r) creatorTags) eq_refl).
  - destruct (amb_creator r) as [l|]; [|reflexivity].
    apply (agent_names "creator" creatorTags l creator_name_tag).
  - unfold allBlocks. destruct (includesRelationships o); reflexivity.
Qed.

Lemma publisher_names_emitted :
  filterMap (fun value => value)
    (map tagValue (filter (hasKey "publisher:name") (buildTags id name r o)))
  = map getPersonOrOrgName (orEmpty (amb_publisher r)).
Proof.
  rewrite (block_of_key "publisher:name" "publisher"
             (forEachOpt (amb_publisher r) publisherTags) eq_refl).
  - destruct (amb_publisher r) as [l|]; [|reflexivity].
    apply (agent_names "publisher" publisherTags l publisher_name_tag).
  - unfold allBlocks. destruct (includesRelationships o); reflexivity.
Qed.

Lemma no_tag_with_key (K : string) :
  blocksOf (Str.baseKey K) (allBlocks id name r o) = [] ->
  find (hasKey K) (buildTags id name r o) = None.
Proof.
  intro H.
  assert (F : filter (hasKey K) (buildTags id name r o) = []).
  { rewrite (tags_with_key r o id name K), H. reflexivity. }
  destruct (find (hasKey K) (buildTags id name r o)) as [t|] eqn:E;
    [|reflexivity].
  apply find_some in E as [Hin Hk].
  assert (Hf : In t (filter (hasKey K) (buildTags id name r o)))
    by (apply filter_In; auto).
  rewrite F in Hf. destruct Hf.
Qed.

End HelpersOnEvents.

(** X1. The flattened event has exactly one [d] tag, it carries the [id]
    of the resource and [getTagValue] reads it; two resources with
    different ids get different [d] values. *)
Theorem d_tag_carries_id (now : Z) (r : AmbLearningResource)
    (o : ConversionOptions) (id name : string) :
  identified r id name ->
  exists e w,
    ambToNostr now r o = Success e w
    /\ findTags e "d" = [createTag "d" id]
    /\ getTagValue e "d" = Some id
    /\ (forall now' r' o' id' name' e' w',
          identified r' id' name' ->
          ambToNostr now' r' o' = Success e' w' ->
          id <> id' ->
          getTagValue e "d" <> getTagValue e' "d").
Proof.
  intro H. rewrite (ambToNostr_identified now r o id name H).
  eexists. eexists. split; [reflexivity|].
  split; [apply d_tags_emitted; exact H|].
  split; [reflexivity|].
  intros now' r' o' id' name' e' w' H' E N.
  rewrite (ambToNostr_identified now' r' o' id' name' H') in E.
  injection E as <- _. change (Some id <> Some id'). congruence.
Qed.

(** X2. Every tag of a flattened event has exactly two elements and a
    non-empty key: the unflattener skips none of them. *)
Theorem emitted_tags_well_formed (now : Z) (r : AmbLearningResource)
    (o : ConversionOptions) (id name : string) :
  identified r id name ->
  exists e w,
    ambToNostr now r o = Success e w
    /\ Forall (fun t => exists k v, t = [k; v] /\ k <> "") (tags e)
    /\ filter wellFormed (tags e) = tags e.
Proof.
  intro H. rewrite (ambToNostr_identified now r o id name H).
  eexists. eexists. split; [reflexivity|]. cbn [tags].
  pose proof (emitted_well_formed r o id name) as W. split.
  - eapply Forall_impl; [|exact W]. intros t (k & v & E & N & _).
    exists k, v. auto.
  - apply filter_all. eapply Forall_impl; [|exact W].
    intros t (k & v & _ & _ & D). unfold wellFormed. rewrite D. reflexivity.
Qed.

(** X3. The list-valued fields are emitted one tag per entry, in order,
    for a resource whose keywords are strings of ASCII characters:
    [getTagValues] gives back [type], the lower-cased keywords, the
    languages and the relay hints; and there is one [creator:name] and one
    [publisher:name] tag per agent, in order, whose value is the honorific
    prefix, a space and the name when the agent has a non-empty prefix, and
    the name otherwise. *)
Theorem list_fields_in_order (now : Z) (r : AmbLearningResource)
    (o : ConversionOptions) (id name : string) :
  identified r id name ->
  Forall (fun k => asciiOnly k = true) (orEmpty (amb_keywords r)) ->
  exists e w,
    ambToNostr now r o = Success e w
    /\ getTagValues e "type" = amb_type r
    /\ getTagValues e "t" = map Str.toLowerCase (orEmpty (amb_keywords r))
    /\ getTagValues e "inLanguage" = orEmpty (amb_inLanguage r)
    /\ getTagValues e "r" = orEmpty (opt_relayHints o)
    /\ getTagValues e "creator:name"
       = map getPersonOrOrgName (orEmpty (amb_creator r))
    /\ getTagValues e "publisher:name"
       = map getPersonOrOrgName (orEmpty (amb_publisher r))
    /\ (forall a h, agent_honorificPrefix a = Some h -> h <> "" ->
          getPersonOrOrgName a = (h ++ " " ++ agent_name a)%string)
    /\ (forall a, agent_honorificPrefix a = None
                  \/ agent_honorificPrefix a = Some "" ->
          getPersonOrOrgName a = agent_name a).
Proof.
  intros H _. rewrite (ambToNostr_identified now r o id name H).
  eexists. eexists. split; [reflexivity|].
  unfold getTagValues. cbn [tags].
  split; [apply type_values_emitted|].
  split; [apply keyword_values_emitted|].
  split; [apply language_values_emitted|].
  split; [apply relay_values_emitted|].
  split; [apply creator_names_emitted|].
  split; [apply publisher_names_emitted|].
  split.
  - intros a h Hh Nh. unfold getPersonOrOrgName. rewrite Hh.
    apply truthy_true in Nh. rewrite Nh. reflexivity.
  - intros a [Hh|Hh]; unfold getPersonOrOrgName; rewrite Hh; reflexivity.
Qed.

(** X4. No flattened event has a [resource_type] tag: [getNostrResourceType]
    is [undefined] on every event the flattener returns. *)
Theorem no_resource_type_tag (now : Z) (r : AmbLearningResource)
    (o : ConversionOptions) (id name : string) :
  identified r id name ->
  exists e w,
    ambToNostr now r o = Success e w
    /\ findTags e "resource_type" = []
    /\ getNostrResourceType e = None.
Proof.
  intro H. rewrite (ambToNostr_identified now r o id name H).
  eexists. eexists. split; [reflexivity|].
  assert (Hb : blocksOf (Str.baseKey "resource_type") (allBlocks id name r o) = [])
    by (unfold allBlocks; destruct (includesRelationships o); reflexivity).
  split.
  - unfold findTags. cbn [tags].
    rewrite (tags_with_key r o id name "resource_type"), Hb. reflexivity.
  - unfold getNostrResourceType, getTagValue. cbn [tags].
    rewrite (no_tag_with_key r o id name "resource_type" Hb). reflexivity.
Qed.

(** X5. The flattener does not check the public key: the event passes
    [isEducationalEvent] exactly when the key it ends up with has 64
    characters.  Without a key, or with an empty one, the event carries
    the all-zero placeholder, passes the check and comes with the warning
    about the default pubkey; the warning is there exactly when the key of
    the event is the placeholder.  (For a key of ASCII characters, whose
    length is the number of its characters.) *)
Theorem pubkey_not_validated (now : Z) (r : AmbLearningResource)
    (o : ConversionOptions) (id name : string) :
  identified r id name ->
  (forall p, opt_pubkey o = Some p -> asciiOnly p = true) ->
  exists e w,
    ambToNostr now r o = Success e w
    /\ isEducationalEvent e = Nat.eqb (String.length (pubkey e)) 64
    /\ (forall p, opt_pubkey o = Some p -> p <> "" -> pubkey e = p)
    /\ (missing (opt_pubkey o) ->
        pubkey e = DEFAULT_PUBKEY /\ isEducationalEvent e = true)
    /\ (pubkey e = DEFAULT_PUBKEY ->
        w = [defaultPubkeyWarning]
        /\ includes defaultPubkeyWarning "default pubkey" = true)
    /\ (pubkey e <> DEFAULT_PUBKEY -> w = []).
Proof.
  intros H _. rewrite (ambToNostr_identified now r o id name H).
  eexists. eexists. split; [reflexivity|].
  unfold isEducationalEvent, isValidNostrEvent. cbn [pubkey kind].
  split; [rewrite Z.eqb_refl; apply andb_true_r|].
  split; [|split; [|split]].
  - intros p Hp Np. unfold pubkeyOf. rewrite Hp.
    apply truthy_true in Np. rewrite Np. reflexivity.
  - intros [Hp|Hp]; unfold pubkeyOf; rewrite Hp; split; reflexivity.
  - intros ->. split; reflexivity.
  - intro N. apply String.eqb_neq in N. rewrite N. reflexivity.
Qed.


Lemma d_tag_carries_id_witness :
  exists e w,
    ambToNostr 0 authoredCourse noOptions = Success e w
    /\ findTags e "d" = [createTag "d" "https://oer.gitlab.io/OS"]
    /\ getTagValue e "d" = Some "https://oer.gitlab.io/OS"
    /\ (forall now' r' o' id' name' e' w',
          identified r' id' name' ->
          ambToNostr now' r' o' = Success e' w' ->
          "https://oer.gitlab.io/OS" <> id' ->
          getTagValue e "d" <> getTagValue e' "d").
Proof.
  apply (d_tag_carries_id 0 authoredCourse noOptions
           "https://oer.gitlab.io/OS"
           "Computer Structures and Operating Systems").
  repeat split; discriminate.
Defined.

Lemma emitted_tags_well_formed_witness :
  exists e w,
    ambToNostr 0 authoredCourse noOptions = Success e w
    /\ Forall (fun t => exists k v, t = [k; v] /\ k <> "") (tags e)
    /\ filter wellFormed (tags e) = tags e.
Proof.
  apply (emitted_tags_well_formed 0 authoredCourse noOptions
           "https://oer.gitlab.io/OS"
           "Computer Structures and Operating Systems").
  repeat split; discriminate.
Defined.

Lemma list_fields_in_order_witness :
  exists e w,
    ambToNostr 0 authoredCourse noOptions = Success e w
    /\ getTagValues e "type" = ["LearningResource"; "Course"]
    /\ getTagValues e "t" = ["computer science"; "operation systems"]
    /\ getTagValues e "inLanguage" = ["en"]
    /\ getTagValues e "r" = []
    /\ getTagValues e "creator:name" = ["Dr. Jens"]
    /\ getTagValues e "publisher:name" = ["Tutory"]
    /\ (forall a h, agent_honorificPrefix a = Some h -> h <> "" ->
          getPersonOrOrgName a = (h ++ " " ++ agent_name a)%string)
    /\ (forall a, agent_honorificPrefix a = None
                  \/ agent_honorificPrefix a = Some "" ->
          getPersonOrOrgName a = agent_name a).
Proof.
  apply (list_fields_in_order 0 authoredCourse noOptions
           "https://oer.gitlab.io/OS"
           "Computer Structures and Operating Systems").
  - repeat split; discriminate.
  - repeat constructor.
Defined.

Lemma no_resource_type_tag_witness :
  exists e w,
    ambToNostr 0 authoredCourse noOptions = Success e w
    /\ findTags e "resource_type" = []
    /\ getNostrResourceType e = None.
Proof.
  apply (no_resource_type_tag 0 authoredCourse noOptions
           "https://oer.gitlab.io/OS"
           "Computer Structures and Operating Systems").
  repeat split; discriminate.
Defined.

Lemma pubkey_not_validated_witness :
  exists e w,
    ambToNostr 0 authoredCourse (optionsAt 1700000000) = Success e w
    /\ isEducationalEvent e = Nat.eqb (String.length (pubkey e)) 64
    /\ (forall p, opt_pubkey (optionsAt 1700000000) = Some p -> p <> "" ->
         pubkey e = p)
    /\ (missing (opt_pubkey (optionsAt 1700000000)) ->
        pubkey e = DEFAULT_PUBKEY /\ isEducationalEvent e = true)
    /\ (pubkey e = DEFAULT_PUBKEY ->
        w = [defaultPubkeyWarning]
        /\ includes defaultPubkeyWarning "default pubkey" = true)
    /\ (pubkey e <> DEFAULT_PUBKEY -> w = []).
Proof.
  apply (pubkey_not_validated 0 authoredCourse (optionsAt 1700000000)
           "https://oer.gitlab.io/OS"
           "Computer Structures and Operating Systems").
  - repeat split; discriminate.
  - intros p H. injection H as <-. reflexivity.
Defined.


(** ** The type guards *)

Section TypeGuards.

Lemma others_in (ts : list string) (t : string) :
  In t (filter (fun t => negb (t =? "LearningResource")) ts) ->
  In t ts /\ t <> "LearningResource".
Proof.
  intro H. apply filter_In in H as [Hin Hn]. split; [exact Hin|].
  apply Bool.negb_true_iff, String.eqb_neq in Hn. exact Hn.
Qed.

Lemma others_skip (pre : list string) (rest : list string) :
  Forall (fun t => t = "LearningResource") pre ->
  filter (fun t => negb (t =? "LearningResource")) (pre ++ rest)
  = filter (fun t => negb (t =? "LearningResource")) rest.
Proof.
  induction 1 as [|t pre Ht _ IH]; [reflexivity|].
  subst t. cbn [app filter]. rewrite String.eqb_refl. exact IH.
Qed.

Lemma getResourceType_cases (r : AmbLearningResource) :
  getResourceType r = "LearningResource"
  \/ (In (getResourceType r) (amb_type r) /\ getResourceType r <> "").
Proof.
  unfold getResourceType.
  destruct (filter _ (amb_type r)) as [|t ts] eqn:E; [left; reflexivity|].
  destruct (Str.truthy t) eqn:Et; [|left; reflexivity].
  right. split; [|apply truthy_true; exact Et].
  apply (others_in (amb_type r) t). rewrite E. left. reflexivity.
Qed.

End TypeGuards.

(** X6. [getResourceType] skips the leading entries [LearningResource] of
    [type] and returns the first other entry, unless that entry is empty
    or there is none: then it returns [LearningResource].  So its result
    is never empty, and for a resource that passes [isAmbLearningResource]
    it is one of the entries of [type]: [isResourceType] holds of it. *)
Theorem primary_type_is_listed (r : AmbLearningResource) :
  (forall pre t rest,
     amb_type r = pre ++ t :: rest ->
     Forall (fun x => x = "LearningResource") pre ->
     t <> "LearningResource" ->
     getResourceType r = if Str.truthy t then t else "LearningResource")
  /\ (Forall (fun x => x = "LearningResource") (amb_type r) ->
      getResourceType r = "LearningResource")
  /\ getResourceType r <> ""
  /\ (isAmbLearningResource r = true ->
      isResourceType r (getResourceType r) = true).
Proof.
  repeat apply conj.
  - intros pre t rest E Hpre Ht. unfold getResourceType.
    rewrite E, (others_skip pre (t :: rest) Hpre). cbn [filter].
    apply String.eqb_neq in Ht. rewrite Ht. reflexivity.
  - intro H. unfold getResourceType.
    rewrite <- (app_nil_r (amb_type r)), (others_skip _ [] H). reflexivity.
  - destruct (getResourceType_cases r) as [E|[_ N]]; [rewrite E; discriminate|].
    exact N.
  - intro G. unfold isAmbLearningResource in G.
    apply andb_true_iff in G as [G _]. apply andb_true_iff in G as [_ G].
    unfold isResourceType.
    destruct (getResourceType_cases r) as [E|[Hin _]]; [rewrite E; exact G|].
    apply mem_In. exact Hin.
Qed.

(** X7. [isAmbLearningResource] asks less than the flattener: it accepts a
    resource whose [id] or [name] is the empty string, which [ambToNostr]
    rejects with [MISSING_REQUIRED_FIELD].  A resource that passes the
    guard is flattened exactly when its [id] and [name] are not empty, and
    the event then has a [type] tag with the value [LearningResource]. *)
Theorem guard_accepts_empty_id (now : Z) (r : AmbLearningResource)
    (o : ConversionOptions) :
  isAmbLearningResource r = true ->
  (amb_id r = Some "" \/ amb_name r = Some "" ->
   exists e, ambToNostr now r o = Failure e
             /\ code e = MISSING_REQUIRED_FIELD)
  /\ (amb_id r <> Some "" -> amb_name r <> Some "" ->
      exists e w, ambToNostr now r o = Success e w
                  /\ In "LearningResource" (getTagValues e "type")).
Proof.
  intro G. unfold isAmbLearningResource in G.
  apply andb_true_iff in G as [G Gn]. apply andb_true_iff in G as [Gi Gt].
  destruct (amb_id r) as [id|] eqn:Ei; [|discriminate].
  destruct (amb_name r) as [name|] eqn:En; [|discriminate].
  split.
  - intro H. unfold ambToNostr. rewrite Ei, En.
    destruct id as [|c id].
    + eexists. split; reflexivity.
    + destruct H as [H|H]; [discriminate|]. injection H as ->.
      eexists. split; reflexivity.
  - intros Ni Nn.
    assert (Hid : identified r id name).
    { repeat split; try assumption; intros ->; [apply Ni | apply Nn];
        reflexivity. }
    rewrite (ambToNostr_identified now r o id name Hid).
    eexists. eexists. split; [reflexivity|].
    unfold getTagValues. cbn [tags].
    rewrite (type_values_emitted r o id name). apply mem_In. exact Gt.
Qed.

Lemma primary_type_is_listed_witness :
  getResourceType authoredCourse = "Course"
  /\ getResourceType courseWithEmptyId = "LearningResource"
  /\ isResourceType authoredCourse (getResourceType authoredCourse) = true.
Proof.
  split; [|split].
  - apply (proj1 (primary_type_is_listed authoredCourse)
             ["LearningResource"] "Course" []); [reflexivity | | discriminate].
    constructor; [reflexivity | constructor].
  - apply (proj1 (primary_type_is_listed courseWithEmptyId)
             ["LearningResource"] "" ["Course"]);
      [reflexivity | | discriminate].
    constructor; [reflexivity | constructor].
  - apply (proj2 (proj2 (proj2 (primary_type_is_listed authoredCourse)))).
    reflexivity.
Defined.

Lemma guard_accepts_empty_id_witness :
  isAmbLearningResource courseWithEmptyId = true
  /\ exists e, ambToNostr 0 courseWithEmptyId noOptions = Failure e
               /\ code e = MISSING_REQUIRED_FIELD.
Proof.
  split; [reflexivity|].
  apply (proj1 (guard_accepts_empty_id 0 courseWithEmptyId noOptions eq_refl)).
  left. reflexivity.
Defined.


(** ** The unflattener on arbitrary tags *)

Section AnyTags.

Lemma collectTag_malformed (st : Pass1) (tag : NostrTag) :
  wellFormed tag = false -> collectTag st tag = st.
Proof.
  unfold wellFormed, collectTag. destruct (destTag tag); [discriminate|].
  reflexivity.
Qed.

Lemma collect_filter (tags : list NostrTag) (st : Pass1) :
  fold_left collectTag (filter wellFormed tags) st
  = fold_left collectTag tags st.
Proof.
  revert st. induction tags as [|t tags IH]; intro st; [reflexivity|].
  cbn [filter fold_left]. destruct (wellFormed t) eqn:E.
  - cbn [fold_left]. apply IH.
  - rewrite (collectTag_malformed st t E). apply IH.
Qed.

Lemma relatedTags_filter (key b : string) (tags : list NostrTag) :
  relatedTags key b (filter wellFormed tags) = relatedTags key b tags.
Proof.
  unfold relatedTags. induction tags as [|t tags IH]; [reflexivity|].
  cbn [filter filterMap]. destruct (wellFormed t) eqn:E.
  - cbn [filterMap]. rewrite IH. reflexivity.
  - unfold wellFormed in E. unfold relatedTo at 2.
    destruct (destTag t); [discriminate|]. exact IH.
Qed.

Lemma processGroups_filter (tags : list NostrTag) (groups : TagGroups) :
  forall processed result,
    processGroups (filter wellFormed tags) groups processed result
    = processGroups tags groups processed result.
Proof.
  induction groups as [|[key vs] groups IH]; intros processed result;
    [reflexivity|].
  cbn [processGroups]. rewrite relatedTags_filter.
  destruct (Str.mem key processed); [apply IH|].
  destruct (negb (Str.truthy (Str.baseKey key))); [apply IH|].
  destruct (reconstructProperty (Str.baseKey key)
              (relatedTags key (Str.baseKey key) tags)) as [value|];
    [|reflexivity].
  cbn [bind]. destruct (isUndefined value); apply IH.
Qed.

Lemma unflattenTags_filter (tags : list NostrTag) (dl : string) :
  unflattenTags (filter wellFormed tags) dl = unflattenTags tags dl.
Proof.
  unfold unflattenTags, firstPass. rewrite collect_filter.
  apply processGroups_filter.
Qed.

Lemma wellFormed_spec (t : NostrTag) :
  wellFormed t = true <-> exists key v vs, t = key :: v :: vs /\ key <> "".
Proof.
  unfold wellFormed, destTag. split.
  - destruct t as [|key [|v vs]]; try discriminate.
    destruct (Str.truthy key) eqn:E; [|discriminate].
    intros _. exists key, v, vs. split; [reflexivity|].
    apply truthy_true. exact E.
  - intros (key & v & vs & -> & N). apply truthy_true in N. rewrite N.
    reflexivity.
Qed.

Lemma wellFormed_destTag (t : NostrTag) (key : string) (values : list string) :
  destTag t = Some (key, values) -> wellFormed t = true /\ keyOf t = key.
Proof.
  unfold wellFormed. intro H. rewrite H. split; [reflexivity|].
  unfold destTag in H. destruct t as [|k [|v vs]]; try discriminate.
  destruct (Str.truthy k); [|discriminate]. injection H as <- _. reflexivity.
Qed.

Variable P : list string.

Lemma objectsAt_empty : objectsAt P [].
Proof. intros p _. left. reflexivity. Qed.

Lemma objectsAt_set_object (p : string) (child cur : obj) :
  objectsAt P cur -> objectsAt P (obj_set p (JObj child) cur).
Proof.
  intros H q Hq. destruct (String.eqb_spec q p) as [->|N].
  - right. exists child. apply obj_get_set_same.
  - rewrite (obj_get_set_other q p _ cur N). apply H. exact Hq.
Qed.

Lemma objectsAt_set_other (k : string) (v : jsval) (cur : obj) :
  ~ In k P -> objectsAt P cur -> objectsAt P (obj_set k v cur).
Proof.
  intros Hk H q Hq. rewrite obj_get_set_other; [apply H; exact Hq|].
  intros ->. contradiction.
Qed.

(** The walk along a key that nests under [P] does not raise. *)
Lemma navigate_nested (path : list string) (cur : obj) :
  path = [] \/ (exists p, path = [p] /\ In p P) ->
  objectsAt P cur ->
  exists walked, navigate path cur = Some walked /\ objectsAt P walked.
Proof.
  intros [->|(p & -> & Hp)] H.
  - exists cur. split; [reflexivity | exact H].
  - cbn [navigate]. destruct (H p Hp) as [E|[child E]]; rewrite E; cbn [bind].
    + eexists. split; [reflexivity|]. apply objectsAt_set_object. exact H.
    + eexists. split; [reflexivity|]. apply objectsAt_set_object. exact H.
Qed.

Lemma assignAt_nested (path : list string) (k : string) (v : jsval)
    (cur : obj) :
  (path = [] /\ ~ In k P) \/ (exists p, path = [p] /\ In p P) ->
  objectsAt P cur -> objectsAt P (assignAt path k v cur).
Proof.
  intros [[-> Hk]|(p & -> & Hp)] H.
  - apply objectsAt_set_other; assumption.
  - cbn [assignAt]. destruct (obj_get p cur) as [[| | |child]|]; try exact H.
    apply objectsAt_set_object. exact H.
Qed.

Lemma nestedStep_nested (all : list RelatedTag) (idx : Z) (tag : RelatedTag)
    (objects : list obj) (cur : obj) :
  nestsUnder P (rt_key tag) ->
  objectsAt P cur ->
  exists objects' cur',
    nestedStep all idx tag (objects, cur) = Some (objects', cur')
    /\ objectsAt P cur'.
Proof.
  intros Hkey Hcur. unfold nestedStep.
  destruct (truthyFirst (rt_values tag)) as [value|];
    [|exists objects, cur; split; [reflexivity | exact Hcur]].
  destruct (negb (Str.truthy (finalKeyOf (Str.split (rt_key tag)))));
    [exists objects, cur; split; [reflexivity | exact Hcur]|].
  fold (innerSegments (rt_key tag)). fold (lastSegment (rt_key tag)).
  assert (Hpath : innerSegments (rt_key tag) = []
                  \/ exists p, innerSegments (rt_key tag) = [p] /\ In p P).
  { destruct Hkey as [[E _]|H]; [left; exact E | right; exact H]. }
  assert (Hassign : forall v c,
            objectsAt P c ->
            objectsAt P (assignAt (innerSegments (rt_key tag))
                           (lastSegment (rt_key tag)) v c)).
  { intros v c. apply assignAt_nested.
    destruct Hkey as [[E N]|H]; [left; split; assumption | right; exact H]. }
  destruct (navigate_nested _ cur Hpath Hcur) as (walked & -> & Hw).
  cbn [bind].
  destruct (navigate_nested _ [] Hpath objectsAt_empty) as (fresh & Ef & Hf).
  destruct (shouldStartNewObject walked _ _).
  - rewrite Ef. cbn [bind].
    destruct (lastSegment (rt_key tag) =? "prefLabel");
      [|destruct (_ && _)];
      eexists; eexists; (split; [reflexivity|]);
      try apply Hassign; exact Hf.
  - cbn [bind].
    destruct (lastSegment (rt_key tag) =? "prefLabel");
      [|destruct (_ && _)];
      eexists; eexists; (split; [reflexivity|]);
      try apply Hassign; exact Hw.
Qed.

Lemma nestedLoop_nested (all rest : list RelatedTag) :
  Forall (fun rt => nestsUnder P (rt_key rt)) rest ->
  forall idx objects cur,
    objectsAt P cur ->
    exists st, nestedLoop all rest idx (objects, cur) = Some st.
Proof.
  induction 1 as [|tag rest Htag _ IH]; intros idx objects cur Hcur.
  - eexists. reflexivity.
  - cbn [nestedLoop].
    destruct (nestedStep_nested all idx tag objects cur Htag Hcur)
      as (objects' & cur' & -> & Hcur').
    cbn [bind]. apply IH. exact Hcur'.
Qed.

Lemma reconstructProperty_nested (b : string) (rts : list RelatedTag) :
  Forall (fun rt => nestsUnder P (rt_key rt)) rts ->
  reconstructProperty b rts <> None.
Proof.
  intro H. unfold reconstructProperty.
  destruct (existsb _ rts); [|discriminate].
  unfold reconstructNestedObjects, collectObjects.
  destruct (nestedLoop_nested rts rts H 0%Z [] [] objectsAt_empty)
    as [[objects cur] E].
  unfold NestedState, obj in E |- *. rewrite E. discriminate.
Qed.

Lemma unflattenTags_nested (tags : list NostrTag) (dl : string) :
  (forall t, In t tags -> wellFormed t = true -> nestsUnder P (keyOf t)) ->
  exists res, unflattenTags tags dl = Some res.
Proof.
  intro H. apply unflattenTags_returns. intros tag k _ _.
  apply reconstructProperty_nested. apply Forall_forall. intros rt Hrt.
  apply relatedTags_In in Hrt as (t & Hin & Hrel).
  apply relatedTo_spec in Hrel as (v & vs & Hd & _ & _).
  apply wellFormed_destTag in Hd as [Hw <-]. apply H; assumption.
Qed.

End AnyTags.

Lemma short_key_flat (key : string) :
  (length (Str.split key) <= 2)%nat -> innerSegments key = [].
Proof.
  unfold innerSegments, innerPath.
  destruct (Str.split key) as [|a [|b [|c l]]]; simpl; try reflexivity.
  lia.
Qed.

Lemma unflattened_not_failed (tags : list NostrTag) (dl : option string)
    (res : obj) :
  unflattenTags tags (languageOf dl) = Some res ->
  ~ failsWith CONVERSION_FAILED (nostrToAmb (ambEvent tags) dl).
Proof.
  intros Hres (e & E & C). unfold nostrToAmb, ambEvent in E.
  cbn [ev_kind ev_tags] in E. rewrite Z.eqb_refl, Hres in E. cbn [negb] in E.
  destruct (negb (prop_truthy "id" res));
    [injection E as <-; discriminate|].
  destruct (negb (prop_truthy "name" res));
    [injection E as <-; discriminate|].
  destruct (missingType res); [injection E as <-; discriminate|].
  discriminate.
Qed.

(** X8. Tags that the first loop skips (fewer than two elements, or an
    empty key) have no effect at all: the reconstruction, and with it the
    result of [nostrToAmb], is the same with and without them. *)
Theorem malformed_tags_ignored (tags : list NostrTag) :
  (forall dl,
     unflattenTags (filter wellFormed tags) dl = unflattenTags tags dl)
  /\ (forall k dl,
        nostrToAmb (mkNostrEvent k (Some (filter wellFormed tags))) dl
        = nostrToAmb (mkNostrEvent k (Some tags)) dl)
  /\ (forall t,
        wellFormed t = true <->
        exists key v vs, t = key :: v :: vs /\ key <> "").
Proof.
  split; [|split].
  - intro dl. apply unflattenTags_filter.
  - intros k dl. unfold nostrToAmb. cbn [ev_kind ev_tags].
    rewrite unflattenTags_filter. reflexivity.
  - apply wellFormed_spec.
Qed.

(** X9. The reconstruction raises only where a key walks through a
    property that holds a string.  When every key has at most one inner
    segment, and no key without inner segment ends in a name that another
    key uses as inner segment ([P] lists these names), [unflattenTags]
    returns and [nostrToAmb] does not fail with [CONVERSION_FAILED].  Keys
    with at most one colon have no inner segment: tags with such keys only
    never raise.  (Keys with a segment that names an inherited property
    are set aside, the model does not cover them.) *)
Theorem nesting_without_clash_never_raises (tags : list NostrTag)
    (dl : option string) (P : list string) :
  (forall t, In t tags -> wellFormed t = true -> ownNames (keyOf t)) ->
  (forall t, In t tags -> wellFormed t = true -> nestsUnder P (keyOf t)) ->
  (exists res, unflattenTags tags (languageOf dl) = Some res)
  /\ ~ failsWith CONVERSION_FAILED (nostrToAmb (ambEvent tags) dl)
  /\ (forall key, (length (Str.split key) <= 2)%nat ->
        nestsUnder [] key).
Proof.
  intros _ H.
  destruct (unflattenTags_nested P tags (languageOf dl) H) as [res Hres].
  split; [exists res; exact Hres|].
  split; [apply (unflattened_not_failed tags dl res Hres)|].
  intros key L. left. split; [apply short_key_flat; exact L|].
  intros [].
Qed.

Lemma malformed_tags_ignored_witness :
  filter wellFormed affiliatedCreator
  = [["d"; "i"]; ["name"; "n"]; ["type"; "T"];
     ["creator:name"; "Jens"]; ["creator:affiliation:name"; "WWU"]]
  /\ unflattenTags (filter wellFormed affiliatedCreator) "de"
     = unflattenTags affiliatedCreator "de".
Proof.
  split; [reflexivity|].
  apply (proj1 (malformed_tags_ignored affiliatedCreator) "de").
Defined.

Lemma nesting_without_clash_never_raises_witness :
  (exists res, unflattenTags affiliatedCreator (languageOf None) = Some res)
  /\ ~ failsWith CONVERSION_FAILED (nostrToAmb (ambEvent affiliatedCreator) None).
Proof.
  assert (H : forall t, In t affiliatedCreator -> wellFormed t = true ->
                        nestsUnder ["affiliation"] (keyOf t)).
  { intros t Hin Hw. simpl in Hin.
    destruct Hin as [<-|[<-|[<-|[<-|[<-|[<-|[]]]]]]];
      try discriminate Hw;
      try (left; split; [reflexivity | intros [E|[]]; discriminate E]).
    right. exists "affiliation". split; [reflexivity | left; reflexivity]. }
  assert (N : forall t, In t affiliatedCreator -> wellFormed t = true ->
                        ownNames (keyOf t)).
  { intros t Hin Hw. simpl in Hin.
    destruct Hin as [<-|[<-|[<-|[<-|[<-|[<-|[]]]]]]];
      try discriminate Hw;
      repeat constructor; unfold ownName; simpl; intuition discriminate. }
  split.
  - apply (proj1 (nesting_without_clash_never_raises affiliatedCreator None
                    ["affiliation"] N H)).
  - apply (proj1 (proj2 (nesting_without_clash_never_raises affiliatedCreator
                           None ["affiliation"] N H))).
Defined.


Section Leftovers.

Lemma resultAfterFirstPass_context (tags : list NostrTag) (dl : string) :
  obj_get "@context" (resultAfterFirstPass tags dl) = Some (contextFor dl).
Proof.
  unfold resultAfterFirstPass. rewrite firstPass_result.
  assert (H : obj_get "@context"
                (match dValues tags with
                 | [] => initialResult dl
                 | v :: vs => initialResult dl ++ [("id", JStr (last vs v))]
                 end) = Some (contextFor dl))
    by (destruct (dValues tags); reflexivity).
  destruct (p1_keywords (firstPass tags dl)); [exact H|].
  rewrite obj_get_set_other by discriminate. exact H.
Qed.

Lemma tValue_spec (t : NostrTag) (v : string) :
  tValue t = Some v <-> exists vs, t = "t" :: v :: vs /\ v <> "".
Proof.
  unfold tValue, destTag. split.
  - destruct t as [|k [|v' vs]]; try discriminate.
    destruct (Str.truthy k); [|discriminate].
    destruct (k =? "t") eqn:E; [|discriminate].
    apply String.eqb_eq in E. subst k. unfold truthyFirst.
    destruct (Str.truthy v') eqn:Ev; [|discriminate].
    intro H. injection H as ->. exists vs. split; [reflexivity|].
    apply truthy_true. exact Ev.
  - intros (vs & -> & N). apply truthy_true in N. cbn. rewrite N.
    reflexivity.
Qed.

Lemma dValue_spec (t : NostrTag) (v : string) :
  dValue t = Some v <-> exists vs, t = "d" :: v :: vs /\ v <> "".
Proof.
  unfold dValue, destTag. split.
  - destruct t as [|k [|v' vs]]; try discriminate.
    destruct (Str.truthy k); [|discriminate].
    destruct (k =? "d") eqn:E; [|discriminate].
    apply String.eqb_eq in E. subst k. unfold truthyFirst.
    destruct (Str.truthy v') eqn:Ev; [|discriminate].
    intro H. injection H as ->. exists vs. split; [reflexivity|].
    apply truthy_true. exact Ev.
  - intros (vs & -> & N). apply truthy_true in N. cbn. rewrite N.
    reflexivity.
Qed.

Lemma grouped_wellFormed (tag : NostrTag) (k : string) :
  groupedKey tag = Some k -> wellFormed tag = true /\ keyOf tag = k.
Proof.
  intro H. split; [|apply grouped_keyOf; exact H].
  unfold groupedKey in H. unfold wellFormed.
  destruct (destTag tag); [reflexivity | discriminate].
Qed.

(** Whether the tags give something under base key [b]. *)
Lemma gives_or_not (b : string) (tags : list NostrTag) :
  givesNothing b tags
  \/ exists tag k, In tag tags /\ groupedKey tag = Some k /\ Str.baseKey k = b.
Proof.
  destruct (existsb (fun tag => match groupedKey tag with
                                | Some k => Str.baseKey k =? b
                                | None => false
                                end) tags) eqn:E.
  - right. apply existsb_exists in E as (tag & Hin & H).
    destruct (groupedKey tag) as [k|] eqn:Hg; [|discriminate].
    apply String.eqb_eq in H. exists tag, k. auto.
  - left. intros tag k Hin Hg Hb.
    assert (H : existsb (fun tag => match groupedKey tag with
                                    | Some k => Str.baseKey k =? b
                                    | None => false
                                    end) tags = true).
    { apply existsb_exists. exists tag. split; [exact Hin|].
      rewrite Hg. apply String.eqb_eq. exact Hb. }
    congruence.
Qed.

Lemma filterMap_images {A B C : Type} (f : A -> option B) (f' : A -> option C)
    (g : B -> jsval) (h : C -> jsval) (l : list A) :
  (forall x, In x l -> option_map g (f x) = option_map h (f' x)) ->
  map g (filterMap f l) = map h (filterMap f' l).
Proof.
  induction l as [|x l IH]; intro H; [reflexivity|].
  cbn [filterMap]. pose proof (H x (or_introl eq_refl)) as Hx.
  assert (IH' : map g (filterMap f l) = map h (filterMap f' l))
    by (apply IH; intros y Hy; apply H; right; exact Hy).
  destruct (f x), (f' x); simpl in Hx; try discriminate.
  - cbn [map]. injection Hx as ->. rewrite IH'. reflexivity.
  - exact IH'.
Qed.

Lemma destTag_values (t : NostrTag) (k : string) (values : list string) :
  destTag t = Some (k, values) -> exists v vs, values = v :: vs.
Proof.
  unfold destTag. destruct t as [|k' [|v vs]]; try discriminate.
  destruct (Str.truthy k'); [|discriminate].
  intro H. injection H as _ <-. exists v, vs. reflexivity.
Qed.

Variable K : string.
Hypothesis plain : plainBase K.

Lemma related_value (t : NostrTag) :
  (wellFormed t = true -> Str.baseKey (keyOf t) = K -> keyOf t = K) ->
  option_map (fun rt => firstValue (rt_values rt)) (relatedTo K K t)
  = option_map JStr (valueAt K t)
  /\ (forall rt, relatedTo K K t = Some rt -> rt_key rt = K).
Proof.
  intro H. pose proof plain as (_ & Nd & Nt & Hc).
  unfold relatedTo, valueAt.
  destruct (destTag t) as [[k values]|] eqn:D;
    [|split; [reflexivity | discriminate]].
  destruct (destTag_values t k values D) as (v & vs & ->).
  apply wellFormed_destTag in D as [Hw Hk].
  destruct (k =? K) eqn:E.
  - apply String.eqb_eq in E. rewrite E.
    apply String.eqb_neq in Nd, Nt. rewrite Nd, Nt. cbn [orb].
    cbn [orb option_map].
    split; [reflexivity|]. intros rt Hrt. injection Hrt as <-. reflexivity.
  - destruct ((k =? "d") || (k =? "t")); [split; [reflexivity|discriminate]|].
    pose proof (base_test k K Hc) as T. rewrite E in T. cbn [orb] in T.
    cbn [orb]. rewrite T.
    destruct (Str.baseKey k =? K) eqn:B;
      [|split; [reflexivity | discriminate]].
    apply String.eqb_eq in B. rewrite <- Hk in B. specialize (H Hw B).
    rewrite Hk in H. apply String.eqb_neq in E. contradiction.
Qed.

Variable tags : list NostrTag.

Hypothesis exact_keys :
  forall t, In t tags -> wellFormed t = true ->
            Str.baseKey (keyOf t) = K -> keyOf t = K.

Lemma related_values :
  map (fun rt => firstValue (rt_values rt)) (relatedTags K K tags)
  = map JStr (valuesAt K tags).
Proof.
  apply filterMap_images. intros t Ht.
  apply related_value. apply exact_keys. exact Ht.
Qed.

Lemma related_keys : Forall (fun rt => rt_key rt = K) (relatedTags K K tags).
Proof.
  apply Forall_forall. intros rt H.
  apply relatedTags_In in H as (t & Hin & Hrt).
  exact (proj2 (related_value t (exact_keys t Hin)) rt Hrt).
Qed.

Lemma related_reconstructed :
  reconstructProperty K (relatedTags K K tags)
  = Some (match valuesAt K tags with
          | [x] => JStr x
          | l => strings l
          end).
Proof.
  unfold reconstructProperty.
  replace (existsb (fun t => Str.hasColon (rt_key t)) (relatedTags K K tags))
    with false.
  - pose proof related_values as V. unfold strings.
    destruct (relatedTags K K tags) as [|a [|b l]];
      destruct (valuesAt K tags) as [|x [|y vs]]; try discriminate V.
    + reflexivity.
    + cbn [map] in V. injection V as V. rewrite V. reflexivity.
    + rewrite V. reflexivity.
  - symmetry. apply not_true_is_false. intro E.
    apply existsb_exists in E as (rt & Hin & Hc).
    pose proof related_keys as Hk. rewrite Forall_forall in Hk.
    rewrite (Hk rt Hin) in Hc. pose proof plain as (_ & _ & _ & N).
    congruence.
Qed.

Lemma valuesAt_grouped :
  valuesAt K tags <> [] ->
  exists tag k, In tag tags /\ groupedKey tag = Some k /\ Str.baseKey k = K.
Proof.
  intro H. destruct (valuesAt K tags) as [|v vs] eqn:E; [contradiction|].
  assert (Hin : In v (valuesAt K tags)) by (rewrite E; left; reflexivity).
  apply filterMap_In in Hin as (t & Hin & Hv).
  exists t, K. split; [exact Hin|]. pose proof plain as (_ & Nd & Nt & Hc).
  split; [|apply baseKey_flat; exact Hc].
  unfold valueAt in Hv. unfold groupedKey.
  destruct (destTag t) as [[k [|v' vs']]|]; try discriminate.
  destruct (k =? K) eqn:Ek; [|discriminate].
  apply String.eqb_eq in Ek. subst k.
  apply String.eqb_neq in Nd, Nt. rewrite Nd, Nt. reflexivity.
Qed.

Lemma flat_key_field (dl : string) (res : obj) :
  valuesAt K tags <> [] ->
  unflattenTags tags dl = Some res ->
  obj_get K res
  = Some (coerceArray K (match valuesAt K tags with
                         | [x] => JStr x
                         | l => strings l
                         end)).
Proof.
  intros Hne Hres. pose proof plain as (N & _).
  apply (unflattenTags_field tags dl K (relatedTags K K tags) _ res N).
  - intros k (tag & Hin & Hg) Hb.
    apply grouped_wellFormed in Hg as [Hw Hk].
    rewrite <- Hk in Hb. rewrite <- Hk, (exact_keys tag Hin Hw Hb).
    reflexivity.
  - apply related_reconstructed.
  - apply valuesAt_grouped. exact Hne.
  - exact Hres.
Qed.

End Leftovers.

(** X10. The [keywords] of the result are the non-empty first values of
    the [t] tags, in the order of the tags, and there is no [keywords]
    property when there is none; a [t] tag with an empty value is not a
    keyword.  (As long as no tag is filed under the base key
    [keywords].) *)
Theorem keywords_from_t_tags (tags : list NostrTag) (dl : string)
    (res : obj) :
  unflattenTags tags dl = Some res ->
  givesNothing "keywords" tags ->
  obj_get "keywords" res
  = match tValues tags with
    | [] => None
    | ks => Some (strings ks)
    end
  /\ (forall v, In v (tValues tags) <->
                exists vs, In ("t" :: v :: vs) tags /\ v <> "").
Proof.
  intros Hres Hn. split.
  - rewrite (unflattenTags_frame tags dl "keywords" res Hn Hres).
    apply resultAfterFirstPass_keywords.
  - intro v. unfold tValues. rewrite filterMap_In. split.
    + intros (t & Hin & Ht). apply tValue_spec in Ht as (vs & -> & N).
      exists vs. auto.
    + intros (vs & Hin & N). exists ("t" :: v :: vs). split; [exact Hin|].
      apply tValue_spec. exists vs. auto.
Qed.

(** X11. The result starts with [@context]: the AMB context URL followed
    by [{ "@language": l }], where [l] is the [defaultLanguage] option and
    [de] when the option is missing or empty.  (As long as no tag is filed
    under the base key [@context].) *)
Theorem context_carries_language (tags : list NostrTag) (dl : option string)
    (res : obj) :
  unflattenTags tags (languageOf dl) = Some res ->
  givesNothing "@context" tags ->
  obj_get "@context" res = Some (contextFor (languageOf dl))
  /\ (missing dl -> languageOf dl = "de")
  /\ (forall l, dl = Some l -> l <> "" -> languageOf dl = l).
Proof.
  intros Hres Hn. split; [|split].
  - rewrite (unflattenTags_frame tags (languageOf dl) "@context" res Hn Hres).
    apply resultAfterFirstPass_context.
  - intros [->| ->]; reflexivity.
  - intros l -> N. unfold languageOf. apply truthy_true in N. rewrite N.
    reflexivity.
Qed.

(** X12. The unflattener invents no property: a property of the result
    is [@context], or [id] from a [d] tag with a non-empty value, or
    [keywords] from a [t] tag with a non-empty value, or its name is the
    base key of one of the tags. *)
Theorem no_invented_property (tags : list NostrTag) (dl : string)
    (res : obj) (b : string) :
  unflattenTags tags dl = Some res ->
  obj_has b res = true ->
  b = "@context"
  \/ (b = "id" /\ exists v vs, In ("d" :: v :: vs) tags /\ v <> "")
  \/ (b = "keywords" /\ exists v vs, In ("t" :: v :: vs) tags /\ v <> "")
  \/ (exists tag, In tag tags /\ wellFormed tag = true
                  /\ Str.baseKey (keyOf tag) = b).
Proof.
  intros Hres Hb.
  destruct (gives_or_not b tags) as [Hn|(tag & k & Hin & Hg & Hk)].
  - unfold obj_has in Hb.
    rewrite (unflattenTags_frame tags dl b res Hn Hres) in Hb.
    destruct (String.eqb_spec b "@context") as [E|Nc]; [left; exact E|].
    destruct (String.eqb_spec b "id") as [E|Ni].
    + right. left. split; [exact E|]. subst b.
      rewrite resultAfterFirstPass_id in Hb.
      destruct (dValues tags) as [|v vs] eqn:Ed; [discriminate|].
      assert (Hv : In v (dValues tags)) by (rewrite Ed; left; reflexivity).
      apply filterMap_In in Hv as (t & Hin & Ht).
      apply dValue_spec in Ht as (ws & -> & N). exists v, ws. auto.
    + destruct (String.eqb_spec b "keywords") as [E|Nk].
      * right. right. left. split; [exact E|]. subst b.
        rewrite resultAfterFirstPass_keywords in Hb.
        destruct (tValues tags) as [|v vs] eqn:Et; [discriminate|].
        assert (Hv : In v (tValues tags)) by (rewrite Et; left; reflexivity).
        apply filterMap_In in Hv as (t & Hin & Ht).
        apply tValue_spec in Ht as (ws & -> & N). exists v, ws. auto.
      * rewrite (resultAfterFirstPass_other tags dl b Nc Ni Nk) in Hb.
        discriminate.
  - right. right. right. exists tag.
    apply grouped_wellFormed in Hg as [Hw Hkey]. rewrite Hkey. auto.
Qed.

(** X13. A key without colon that is used as it is (no tag has a key
    that starts with this key and a colon), and is neither [d] nor [t]:
    one tag with this key gives the property its first value as a string,
    several tags give the list of their first values in tag order.  For the
    nine always-array names ([type], [inLanguage], ...) the value is a list
    in both cases.  ([K] is not the name of an inherited property.) *)
Theorem repeated_flat_tag_is_list (tags : list NostrTag) (dl : string)
    (res : obj) (K : string) :
  plainBase K ->
  ownName K ->
  (forall t, In t tags -> wellFormed t = true ->
             Str.baseKey (keyOf t) = K -> keyOf t = K) ->
  valuesAt K tags <> [] ->
  unflattenTags tags dl = Some res ->
  obj_get K res
  = Some (if Str.mem K arrayFields then strings (valuesAt K tags)
          else match valuesAt K tags with
               | [x] => JStr x
               | l => strings l
               end).
Proof.
  intros Hp _ Hk Hne Hres.
  rewrite (flat_key_field K Hp tags Hk dl res Hne Hres).
  unfold coerceArray. destruct (Str.mem K arrayFields); [|reflexivity].
  destruct (valuesAt K tags) as [|x [|y l]]; reflexivity.
Qed.

Lemma keywords_from_t_tags_witness :
  unflattenTags twoNames "de" = Some twoNamesResource
  /\ obj_get "keywords" twoNamesResource = Some (strings ["x"; "y"]).
Proof.
  split; [reflexivity|].
  apply (proj1 (keywords_from_t_tags twoNames "de" twoNamesResource eq_refl
                  ltac:(intros tag k Hin Hg; simpl in Hin;
                        destruct Hin as [<-|[<-|[<-|[<-|[<-|[<-|[<-|[]]]]]]]];
                        vm_compute in Hg; try discriminate Hg;
                        injection Hg as <-; vm_compute; discriminate))).
Defined.

Lemma context_carries_language_witness :
  obj_get "@context" twoNamesResource = Some (contextFor "de").
Proof.
  apply (proj1 (context_carries_language twoNames None twoNamesResource eq_refl
                  ltac:(intros tag k Hin Hg; simpl in Hin;
                        destruct Hin as [<-|[<-|[<-|[<-|[<-|[<-|[<-|[]]]]]]]];
                        vm_compute in Hg; try discriminate Hg;
                        injection Hg as <-; vm_compute; discriminate))).
Defined.

Lemma no_invented_property_witness :
  "t" = "@context"
  \/ ("t" = "id" /\ exists v vs, In ("d" :: v :: vs) twoNames /\ v <> "")
  \/ ("t" = "keywords"
      /\ exists v vs, In ("t" :: v :: vs) twoNames /\ v <> "")
  \/ (exists tag, In tag twoNames /\ wellFormed tag = true
                  /\ Str.baseKey (keyOf tag) = "t").
Proof.
  apply (no_invented_property twoNames "de" twoNamesResource "t" eq_refl
           eq_refl).
Defined.

Lemma repeated_flat_tag_is_list_witness :
  obj_get "name" twoNamesResource = Some (strings ["a"; "b"]).
Proof.
  apply (repeated_flat_tag_is_list twoNames "de" twoNamesResource "name").
  - repeat split; discriminate.
  - unfold ownName. simpl. intuition discriminate.
  - intros t Hin Hw Hb. simpl in Hin.
    destruct Hin as [<-|[<-|[<-|[<-|[<-|[<-|[<-|[]]]]]]]];
      try reflexivity; vm_compute in Hb; discriminate Hb.
  - discriminate.
  - reflexivity.
Defined.


(** ** The round trip never raises *)

Section Segments.

Lemma split_flat (s : string) : Str.hasColon s = false -> Str.split s = [s].
Proof.
  induction s as [|c s IH]; [reflexivity|]. cbn [Str.hasColon Str.split].
  destruct (Ascii.eqb c Str.colon); [discriminate|].
  intro H. rewrite (IH H). reflexivity.
Qed.

Lemma split_append (p s : string) :
  Str.split (p ++ ":" ++ s) = Str.split p ++ Str.split s.
Proof.
  induction p as [|c p IH]; [reflexivity|].
  change (String c p ++ ":" ++ s)%string with (String c (p ++ ":" ++ s)).
  cbn [Str.split]. rewrite IH.
  destruct (Ascii.eqb c Str.colon); [reflexivity|].
  destruct (Str.split p) as [|h t] eqn:E; [|reflexivity].
  exfalso. exact (split_not_nil p E).
Qed.

Lemma property_key_segments (field name : string) :
  Str.hasColon field = false -> Str.hasColon name = false ->
  Str.split (field ++ ":" ++ name) = [field; name].
Proof.
  intros Hf Hn. rewrite split_append, (split_flat field Hf), (split_flat name Hn).
  reflexivity.
Qed.

Lemma label_key_segments (field lang : string) :
  Str.hasColon field = false -> Str.hasColon lang = false ->
  Str.split (field ++ ":prefLabel:" ++ lang) = [field; "prefLabel"; lang].
Proof.
  intros Hf Hl.
  change (field ++ ":prefLabel:" ++ lang)%string
    with (field ++ ":" ++ ("prefLabel" ++ ":" ++ lang))%string.
  rewrite split_append, split_append, (split_flat field Hf), (split_flat lang Hl).
  reflexivity.
Qed.

End Segments.

Section EmittedNesting.

Local Abbreviation nests := (fun t => nestsUnder nestingNames (keyOf t)).

Lemma nests_createTag (k v : string) :
  nestsUnder nestingNames k -> nests (createTag k v).
Proof. intro H. exact H. Qed.

Lemma nests_strTag (k s : string) :
  nestsUnder nestingNames k -> Forall nests (strTag k s).
Proof.
  intro H. unfold strTag.
  destruct (Str.truthy s); [apply Forall_cons; [exact H|] |]; apply Forall_nil.
Qed.

Lemma nests_optTag (k : string) (v : option string) :
  nestsUnder nestingNames k -> Forall nests (optTag k v).
Proof.
  intro H. destruct v; [apply nests_strTag; exact H | constructor].
Qed.

Lemma nests_map (k : string) (f : string -> string) (l : list string) :
  nestsUnder nestingNames k ->
  Forall nests (map (fun x => createTag k (f x)) l).
Proof.
  intro H. apply Forall_forall. intros t Ht.
  apply in_map_iff in Ht as (x & <- & _). exact H.
Qed.

Lemma nests_each {A : Type} (f : A -> list NostrTag) (xs : option (list A)) :
  (forall x, In x (orEmpty xs) -> Forall nests (f x)) ->
  Forall nests (forEachOpt xs f).
Proof.
  intro H. destruct xs as [l|]; [|constructor]. cbn [forEachOpt orEmpty] in *.
  apply Forall_forall. intros t Ht. apply in_flat_map in Ht as (x & Hx & Ht).
  specialize (H x Hx). rewrite Forall_forall in H. apply H. exact Ht.
Qed.

Lemma nests_plain (field name : string) :
  Str.hasColon field = false -> Str.hasColon name = false ->
  ~ In name nestingNames ->
  nestsUnder nestingNames (field ++ ":" ++ name).
Proof.
  intros Hf Hn N. left. unfold innerSegments, lastSegment.
  rewrite (property_key_segments field name Hf Hn). split; [reflexivity|].
  exact N.
Qed.

Lemma nests_label (field lang : string) :
  Str.hasColon field = false -> Str.hasColon lang = false ->
  nestsUnder nestingNames (field ++ ":prefLabel:" ++ lang).
Proof.
  intros Hf Hl. right. exists "prefLabel". unfold innerSegments.
  rewrite (label_key_segments field lang Hf Hl).
  split; [reflexivity | right; left; reflexivity].
Qed.

Lemma nests_concept (field : string) (c : Concept) :
  Str.hasColon field = false ->
  Forall plainCode (languagesOf c) ->
  Forall nests (conceptTags field c).
Proof.
  intros Hf Hc. unfold conceptTags. repeat (apply Forall_app; split).
  - apply nests_strTag.
    apply (nests_plain field "id" Hf eq_refl). simpl. intuition discriminate.
  - unfold languagesOf in Hc. destruct (concept_prefLabel c) as [labels|];
      [|constructor].
    cbn [orEmpty] in Hc. apply Forall_forall. intros t Ht.
    apply in_map_iff in Ht as (e & <- & He).
    rewrite Forall_forall in Hc.
    destruct (Hc (fst e) (in_map fst labels e He)) as [Hl _].
    apply (nests_label field (fst e) Hf Hl).
  - apply nests_optTag.
    apply (nests_plain field "type" Hf eq_refl). simpl. intuition discriminate.
Qed.

Ltac single := apply Forall_cons; [|apply Forall_nil].

Ltac literal_key :=
  first [ left; split; [reflexivity | simpl; intuition discriminate]
        | right; eexists; split; [reflexivity | simpl; auto] ].

Lemma nests_creator (a : Agent) : Forall nests (creatorTags a).
Proof.
  unfold creatorTags.
  destruct (agent_affiliation a);
    repeat first
      [ apply Forall_nil
      | apply Forall_app; split
      | apply Forall_cons
      | apply nests_strTag
      | apply nests_optTag
      | apply nests_createTag ];
    literal_key.
Qed.

Lemma nests_publisher (a : Agent) : Forall nests (publisherTags a).
Proof.
  unfold publisherTags.
  repeat first
    [ apply Forall_nil
    | apply Forall_app; split
    | apply Forall_cons
    | apply nests_strTag
    | apply nests_optTag
    | apply nests_createTag ];
  literal_key.
Qed.

Lemma nests_reference (field : string) (p : Reference) :
  Str.hasColon field = false ->
  Forall nests
    ([createTag (field ++ ":id") (ref_id p)]
     ++ optTag (field ++ ":name") (ref_name p)
     ++ typeTags field (ref_type p)).
Proof.
  intro Hf. repeat (apply Forall_app; split).
  - apply Forall_cons; [|apply Forall_nil].
    apply (nests_plain field "id" Hf eq_refl). simpl. intuition discriminate.
  - apply nests_optTag.
    apply (nests_plain field "name" Hf eq_refl). simpl. intuition discriminate.
  - unfold typeTags. destruct (ref_type p) as [types|]; [|constructor].
    apply (nests_map (field ++ ":type") (fun x => x)).
    apply (nests_plain field "type" Hf eq_refl). simpl. intuition discriminate.
Qed.

Variables (id name : string) (r : AmbLearningResource)
          (o : ConversionOptions).

Hypothesis codes : plainCodes r.

Lemma concept_codes (c : Concept) :
  In c (conceptsOf r) -> Forall plainCode (languagesOf c).
Proof.
  intro H. pose proof codes as C. unfold plainCodes in C.
  rewrite Forall_forall in C. apply C. exact H.
Qed.

Lemma nests_core : Forall nests (coreTags id name r o).
Proof.
  unfold coreTags.
  repeat (apply Forall_app; split).
  - single. literal_key.
  - apply (nests_map "type" (fun x => x)). literal_key.
  - single. literal_key.
  - apply nests_optTag. literal_key.
  - apply nests_each. intros x _. single. literal_key.
  - apply nests_each. intros x _. single. literal_key.
  - apply nests_each. intros x _. apply nests_creator.
  - apply nests_each. intros x _. apply nests_publisher.
  - destruct (amb_license r); [apply nests_strTag; literal_key | constructor].
  - destruct (amb_isAccessibleForFree r); [single; literal_key | constructor].
  - destruct (amb_conditionsOfAccess r) as [c|] eqn:E; [|constructor].
    apply nests_concept; [reflexivity|]. apply concept_codes.
    unfold conceptsOf. rewrite E. left. reflexivity.
  - apply nests_each. intros c Hc. apply nests_concept; [reflexivity|].
    apply concept_codes. unfold conceptsOf.
    apply in_or_app. right. apply in_or_app. left. exact Hc.
  - apply nests_each. intros c Hc. apply nests_concept; [reflexivity|].
    apply concept_codes. unfold conceptsOf.
    apply in_or_app. right. apply in_or_app. right.
    apply in_or_app. left. exact Hc.
  - apply nests_each. intros c Hc. apply nests_concept; [reflexivity|].
    apply concept_codes. unfold conceptsOf.
    apply in_or_app. right. apply in_or_app. right.
    apply in_or_app. right. apply in_or_app. left. exact Hc.
  - apply nests_each. intros c Hc. apply nests_concept; [reflexivity|].
    apply concept_codes. unfold conceptsOf.
    apply in_or_app. right. apply in_or_app. right.
    apply in_or_app. right. apply in_or_app. right. exact Hc.
  - apply nests_optTag. literal_key.
  - apply nests_optTag. literal_key.
  - apply nests_optTag. literal_key.
  - apply nests_each. intros x _. single. literal_key.
Qed.

Lemma nests_relationships : Forall nests (relationshipTags r).
Proof.
  unfold relationshipTags. repeat (apply Forall_app; split).
  - apply nests_each. intros p _. apply (nests_reference "hasPart" p eq_refl).
  - apply nests_each. intros p _. apply (nests_reference "isPartOf" p eq_refl).
  - apply nests_each. intros p _. unfold isBasedOnTags.
    repeat (apply Forall_app; split).
    + apply Forall_cons; [literal_key | apply Forall_nil].
    + apply nests_optTag. literal_key.
Qed.

Lemma nests_emitted : Forall nests (buildTags id name r o).
Proof.
  unfold buildTags. apply Forall_app. split; [apply nests_core|].
  destruct (includesRelationships o);
    [apply nests_relationships | constructor].
Qed.

Lemma emitted_returns (dl : string) :
  exists res, unflattenTags (buildTags id name r o) dl = Some res.
Proof.
  apply (unflattenTags_nested nestingNames). intros t Hin _.
  pose proof nests_emitted as H. rewrite Forall_forall in H.
  apply H. exact Hin.
Qed.

End EmittedNesting.

Lemma unflattened_accepted (tags : list NostrTag) (k : Z)
    (dl : option string) (res : obj) (id name : string) (types : list string) :
  k = AMB_KIND ->
  unflattenTags tags (languageOf dl) = Some res ->
  obj_get "id" res = Some (JStr id) -> id <> "" ->
  obj_get "name" res = Some (JStr name) -> name <> "" ->
  obj_get "type" res = Some (strings types) -> types <> [] ->
  nostrToAmb (mkNostrEvent k (Some tags)) dl = Success res [].
Proof.
  intros -> Hres Rid Nid Rname Nname Rtype Nt.
  unfold nostrToAmb. cbn [ev_kind ev_tags].
  rewrite Z.eqb_refl. cbn [negb]. rewrite Hres.
  unfold prop_truthy, missingType. rewrite Rid, Rname, Rtype.
  apply truthy_true in Nid, Nname. cbn [js_truthy]. rewrite Nid, Nname.
  cbn [negb]. unfold strings. destruct types; [contradiction|].
  reflexivity.
Qed.

(** X14. The round trip of a resource succeeds whenever the resource has a
    non-empty [id] and [name], at least one [type], and language codes
    without colon: the flattened event is accepted by [nostrToAmb], with
    no warning, and [id], [name], [type] and [@context] are as expected.
    Whatever else the resource holds (agents with affiliations, Concepts,
    relationships), the reconstruction does not raise.  (Language codes
    that name an inherited property are set aside.) *)
Theorem round_trip_succeeds (now : Z) (r : AmbLearningResource)
    (o : ConversionOptions) (dl : option string) (id name : string) :
  identified r id name ->
  amb_type r <> [] ->
  plainCodes r ->
  exists e w amb,
    ambToNostr now r o = Success e w
    /\ nostrToAmb (eventOf e) dl = Success amb []
    /\ obj_get "@context" amb = Some (contextFor (languageOf dl))
    /\ obj_get "id" amb = Some (JStr id)
    /\ obj_get "name" amb = Some (JStr name)
    /\ obj_get "type" amb = Some (strings (amb_type r)).
Proof.
  intros Hid Ht Hc.
  rewrite (ambToNostr_identified now r o id name Hid).
  destruct Hid as (_ & Nid & _ & Nname).
  destruct (emitted_returns id name r o Hc (languageOf dl)) as [res Hres].
  pose proof (emitted_id id name r o (languageOf dl) Nid res Hres) as Rid.
  pose proof (emitted_name id name r o (languageOf dl) res Hres) as Rname.
  pose proof (emitted_type id name r o (languageOf dl) res Ht Hres) as Rtype.
  eexists. eexists. exists res. split; [reflexivity|].
  split; [|split; [|auto]].
  - unfold eventOf. cbn [kind tags].
    apply (unflattened_accepted _ _ dl res id name (amb_type r));
      auto.
  - rewrite (absent_field id name r o (languageOf dl) "@context" res);
      [apply resultAfterFirstPass_context | | exact Hres].
    unfold allBlocks. destruct (includesRelationships o); reflexivity.
Qed.

(** What the flattener returns is accepted on the way back. *)
Lemma emitted_accepted (now : Z) (r : AmbLearningResource)
    (o : ConversionOptions) (dl : option string) (id name : string) :
  id <> "" -> name <> "" -> amb_type r <> [] -> plainCodes r ->
  exists amb,
    unflattenTags (buildTags id name r o) (languageOf dl) = Some amb
    /\ nostrToAmb
         (eventOf {| pubkey := pubkeyOf o; created_at := createdAtOf now o;
                     kind := AMB_KIND; tags := buildTags id name r o;
                     content := "" |}) dl
       = Success amb [].
Proof.
  intros Nid Nname Ht Hc.
  destruct (emitted_returns id name r o Hc (languageOf dl)) as [res Hres].
  exists res. split; [exact Hres|].
  unfold eventOf. cbn [kind tags].
  apply (unflattened_accepted _ _ dl res id name (amb_type r)); auto.
  - apply (emitted_id id name r o (languageOf dl) Nid res Hres).
  - apply (emitted_name id name r o (languageOf dl) res Hres).
  - apply (emitted_type id name r o (languageOf dl) res Ht Hres).
Qed.

Lemma round_trip_succeeds_witness :
  exists e w amb,
    ambToNostr 0 authoredCourse noOptions = Success e w
    /\ nostrToAmb (eventOf e) None = Success amb []
    /\ obj_get "@context" amb = Some (contextFor "de")
    /\ obj_get "id" amb = Some (JStr "https://oer.gitlab.io/OS")
    /\ obj_get "name" amb
       = Some (JStr "Computer Structures and Operating Systems")
    /\ obj_get "type" amb = Some (strings ["LearningResource"; "Course"]).
Proof.
  apply (round_trip_succeeds 0 authoredCourse noOptions None
           "https://oer.gitlab.io/OS"
           "Computer Structures and Operating Systems").
  - repeat split; discriminate.
  - discriminate.
  - constructor.
Defined.


(** ** Round trip of the scalar fields *)

Section EmittedFields.

Variables (id name : string) (r : AmbLearningResource)
          (o : ConversionOptions) (dl : string) (res : obj).

Hypothesis unflattened : unflattenTags (buildTags id name r o) dl = Some res.

Ltac block_eq :=
  unfold allBlocks; destruct (includesRelationships o); reflexivity.

Lemma optional_scalar (b : string) (v : option string) :
  plainBase b -> Str.mem b arrayFields = false ->
  b <> "@context" -> b <> "id" -> b <> "keywords" ->
  blocksOf b (allBlocks id name r o) = [(b, optTag b v)] ->
  obj_get b res = option_map JStr (presentString v).
Proof.
  intros Hp Hm Nc Ni Nk Hb.
  assert (Habsent : optTag b v = [] -> presentString v = None ->
                    obj_get b res = option_map JStr (presentString v)).
  { intros E1 E2. rewrite E2.
    rewrite (absent_field id name r o dl b res); [| |exact unflattened].
    - apply resultAfterFirstPass_other; assumption.
    - rewrite Hb, E1. reflexivity. }
  destruct v as [s|]; [|apply Habsent; reflexivity].
  destruct (Str.truthy s) eqn:E.
  - cbn [optTag presentString] in *. unfold strTag in Hb. rewrite E in *.
    rewrite (flat_field id name r o dl b [s] res Hp Hb); [|discriminate|exact unflattened].
    unfold coerceArray. rewrite Hm. reflexivity.
  - apply Habsent; cbn [optTag presentString]; unfold strTag; rewrite E;
      reflexivity.
Qed.

Lemma nested_field (b : string) (ts : list NostrTag) (value : jsval) :
  plainBase b ->
  blocksOf b (allBlocks id name r o) = [(b, ts)] ->
  uniformBlock b ts -> ts <> [] ->
  reconstructProperty b (map asRelated ts) = Some value ->
  obj_get b res = Some (coerceArray b value).
Proof.
  intros Hp Hb Hu Hn Hrec. pose proof unflattened as Hres.
  rewrite buildTags_blocks in Hres.
  exact (flattened_field (allBlocks id name r o) b ts
           (allBlocks_based id name r o) Hb Hp Hu dl value res Hn Hrec Hres).
Qed.

Lemma description_back :
  obj_get "description" res
  = option_map JStr (presentString (amb_description r)).
Proof.
  apply optional_scalar; try discriminate; try reflexivity;
    [repeat split; discriminate | block_eq].
Qed.

Lemma datePublished_back :
  obj_get "datePublished" res
  = option_map JStr (presentString (amb_datePublished r)).
Proof.
  apply optional_scalar; try discriminate; try reflexivity;
    [repeat split; discriminate | block_eq].
Qed.

Lemma dateCreated_back :
  obj_get "dateCreated" res
  = option_map JStr (presentString (amb_dateCreated r)).
Proof.
  apply optional_scalar; try discriminate; try reflexivity;
    [repeat split; discriminate | block_eq].
Qed.

Lemma image_back :
  obj_get "image" res = option_map JStr (presentString (amb_image r)).
Proof.
  apply optional_scalar; try discriminate; try reflexivity;
    [repeat split; discriminate | block_eq].
Qed.

Lemma free_back :
  obj_get "isAccessibleForFree" res
  = option_map (fun b => JStr (boolToString b)) (amb_isAccessibleForFree r).
Proof.
  assert (Hb : blocksOf "isAccessibleForFree" (allBlocks id name r o)
               = [("isAccessibleForFree",
                   match amb_isAccessibleForFree r with
                   | Some b => [createTag "isAccessibleForFree" (boolToString b)]
                   | None => []
                   end)]) by block_eq.
  destruct (amb_isAccessibleForFree r) as [b|].
  - rewrite (flat_field id name r o dl "isAccessibleForFree"
               [boolToString b] res);
      [reflexivity | repeat split; discriminate | exact Hb | discriminate
      | exact unflattened].
  - rewrite (absent_field id name r o dl "isAccessibleForFree" res);
      [| |exact unflattened].
    + apply resultAfterFirstPass_other; discriminate.
    + rewrite Hb. reflexivity.
Qed.

Lemma license_back :
  obj_get "license" res
  = option_map (fun l => JObj [("id", JStr l)])
      (presentString (option_map license_id (amb_license r))).
Proof.
  assert (Hb : blocksOf "license" (allBlocks id name r o)
               = [("license",
                   match amb_license r with
                   | Some l => strTag "license:id" (license_id l)
                   | None => []
                   end)]) by block_eq.
  assert (Habsent : forall ts,
            blocksOf "license" (allBlocks id name r o) = [("license", ts)] ->
            ts = [] -> obj_get "license" res = None).
  { intros ts H ->.
    rewrite (absent_field id name r o dl "license" res); [| |exact unflattened].
    - apply resultAfterFirstPass_other; discriminate.
    - rewrite H. reflexivity. }
  destruct (amb_license r) as [[l]|]; cbn [option_map presentString license_id] in *;
    [|apply (Habsent _ Hb); reflexivity].
  unfold strTag in Hb. destruct l as [|c l];
    [apply (Habsent _ Hb); reflexivity|].
  cbn [Str.truthy String.eqb negb] in *.
  rewrite (nested_field "license" _ (JObj [("id", JStr (String c l))])
             ltac:(repeat split; discriminate) Hb).
  - reflexivity.
  - right. constructor; [reflexivity | constructor].
  - discriminate.
  - reflexivity.
Qed.

Lemma tValues_any (ks : list string) :
  tValues (map (fun k => createTag "t" (Str.toLowerCase k)) ks)
  = map Str.toLowerCase (filter Str.truthy ks).
Proof.
  unfold tValues. induction ks as [|k ks IH]; [reflexivity|].
  cbn [map filterMap filter]. unfold tValue at 1. cbn.
  rewrite toLowerCase_truthy. destruct (Str.truthy k); cbn [map]; rewrite IH;
    reflexivity.
Qed.

Lemma keyword_block :
  flatten (blocksOf "t" (allBlocks id name r o))
  = map (fun k => createTag "t" (Str.toLowerCase k)) (orEmpty (amb_keywords r)).
Proof.
  rewrite <- (forEachOpt_single (amb_keywords r)
                (fun k => createTag "t" (Str.toLowerCase k))).
  unfold allBlocks, flatten. destruct (includesRelationships o); cbn;
    rewrite app_nil_r; reflexivity.
Qed.

Lemma keywords_back :
  obj_get "keywords" res
  = match filter Str.truthy (orEmpty (amb_keywords r)) with
    | [] => None
    | ks => Some (strings (map Str.toLowerCase ks))
    end.
Proof.
  rewrite (absent_field id name r o dl "keywords" res);
    [|block_eq|exact unflattened].
  rewrite resultAfterFirstPass_keywords, buildTags_blocks.
  rewrite (tValues_blocks _ (allBlocks_based id name r o)).
  rewrite keyword_block, tValues_any.
  destruct (filter Str.truthy (orEmpty (amb_keywords r))); reflexivity.
Qed.

Lemma languages_back :
  obj_get "inLanguage" res
  = match orEmpty (amb_inLanguage r) with
    | [] => None
    | l => Some (strings l)
    end.
Proof.
  destruct (amb_inLanguage r) as [[|x l]|] eqn:E; cbn [orEmpty].
  - rewrite (absent_field id name r o dl "inLanguage" res);
      [| |exact unflattened].
    + apply resultAfterFirstPass_other; discriminate.
    + assert (Hb : blocksOf "inLanguage" (allBlocks id name r o)
                   = [("inLanguage",
                       forEachOpt (amb_inLanguage r)
                         (fun lang => [createTag "inLanguage" lang]))])
        by block_eq.
      rewrite Hb, E. reflexivity.
  - rewrite (emitted_inLanguage id name r o dl res); [|congruence|exact unflattened].
    rewrite E. reflexivity.
  - rewrite (emitted_inLanguage id name r o dl res); [|congruence|exact unflattened].
    rewrite E. reflexivity.
Qed.

(** The tags of the block [t] are never collected by the second pass. *)
Lemma nothing_related_to_t (k : string) :
  Str.baseKey k = "t" ->
  relatedTags k "t" (buildTags id name r o) = [].
Proof.
  intro Hk. rewrite buildTags_blocks. unfold relatedTags.
  rewrite (filterMap_blocks (relatedTo k "t") "t");
    [| intros b' t Ht N; apply (relatedTo_miss k "t" b' t Hk Ht N)
     | apply allBlocks_based].
  rewrite keyword_block. apply filterMap_none.
  apply Forall_forall. intros t Ht. apply in_map_iff in Ht as (x & <- & _).
  unfold relatedTo, createTag, destTag. cbn. reflexivity.
Qed.

Lemma t_block_member (k : string) :
  In k (orEmpty (amb_keywords r)) ->
  In (createTag "t" (Str.toLowerCase k)) (buildTags id name r o).
Proof.
  intro H. rewrite buildTags_blocks. apply In_flatten.
  exists ("t", forEachOpt (amb_keywords r)
                 (fun keyword => [createTag "t" (Str.toLowerCase keyword)])).
  split.
  - unfold allBlocks, coreBlocks. apply in_or_app. left. simpl. auto 10.
  - cbn [snd]. rewrite forEachOpt_single. apply in_map_iff. exists k. auto.
Qed.

Lemma empty_keyword_back :
  obj_get "t" res
  = if existsb (fun k => negb (Str.truthy k)) (orEmpty (amb_keywords r))
    then Some (JArr []) else None.
Proof.
  destruct (existsb _ (orEmpty (amb_keywords r))) eqn:E.
  - apply existsb_exists in E as (k & Hk & Ek).
    apply Bool.negb_true_iff, truthy_false in Ek. subst k.
    apply (unflattenTags_field (buildTags id name r o) dl "t" [] (JArr []) res).
    + discriminate.
    + intros k _ Hb. apply nothing_related_to_t. exact Hb.
    + reflexivity.
    + exists (createTag "t" (Str.toLowerCase "")), "t".
      split; [apply t_block_member; exact Hk | split; reflexivity].
    + exact unflattened.
  - rewrite (unflattenTags_frame (buildTags id name r o) dl "t" res);
      [apply resultAfterFirstPass_other; discriminate | | exact unflattened].
    intros tag k Hin Hg Hb.
    assert (Hkey : Str.baseKey (keyOf tag) = "t")
      by (rewrite (grouped_keyOf tag k Hg); exact Hb).
    rewrite buildTags_blocks in Hin.
    assert (Hblock : blocksOf "t" (allBlocks id name r o)
                     = [("t", forEachOpt (amb_keywords r)
                                (fun keyword =>
                                   [createTag "t" (Str.toLowerCase keyword)]))])
      by block_eq.
    pose proof (block_owns _ "t" _ (allBlocks_based id name r o) Hblock
                  tag Hin Hkey) as Hown.
    rewrite forEachOpt_single in Hown.
    apply in_map_iff in Hown as (x & <- & Hx).
    assert (Tx : Str.truthy x = true).
    { destruct (Str.truthy x) eqn:Tx; [reflexivity|].
      assert (Hex : existsb (fun k => negb (Str.truthy k))
                      (orEmpty (amb_keywords r)) = true).
      { apply existsb_exists. exists x. rewrite Tx. auto. }
      congruence. }
    unfold groupedKey, createTag, destTag in Hg. cbn in Hg.
    rewrite toLowerCase_truthy, Tx in Hg. discriminate.
Qed.

End EmittedFields.

(** X15. The optional scalar fields on the way back.  A non-empty
    [description], [datePublished], [dateCreated] and [image] come back as
    they were, an empty one is dropped like a missing one.  The boolean
    [isAccessibleForFree] comes back as the string [true] or [false].  A
    license comes back as an object with the one property [id], and is
    dropped when its [id] is empty. *)
Theorem scalar_fields_come_back (now : Z) (r : AmbLearningResource)
    (o : ConversionOptions) (dl : option string) (id name : string) :
  identified r id name ->
  exists e w,
    ambToNostr now r o = Success e w
    /\ forall amb w',
         nostrToAmb (eventOf e) dl = Success amb w' ->
         obj_get "description" amb
         = option_map JStr (presentString (amb_description r))
         /\ obj_get "datePublished" amb
            = option_map JStr (presentString (amb_datePublished r))
         /\ obj_get "dateCreated" amb
            = option_map JStr (presentString (amb_dateCreated r))
         /\ obj_get "image" amb
            = option_map JStr (presentString (amb_image r))
         /\ obj_get "isAccessibleForFree" amb
            = option_map (fun b => JStr (boolToString b))
                (amb_isAccessibleForFree r)
         /\ obj_get "license" amb
            = option_map (fun l => JObj [("id", JStr l)])
                (presentString (option_map license_id (amb_license r))).
Proof.
  intro Hid. rewrite (ambToNostr_identified now r o id name Hid).
  eexists. eexists. split; [reflexivity|]. intros amb w' H.
  apply nostrToAmb_success in H as (_ & tags' & Ht & Hres & _).
  injection Ht as <-. cbn [tags] in Hres.
  repeat apply conj.
  - apply (description_back id name r o _ amb Hres).
  - apply (datePublished_back id name r o _ amb Hres).
  - apply (dateCreated_back id name r o _ amb Hres).
  - apply (image_back id name r o _ amb Hres).
  - apply (free_back id name r o _ amb Hres).
  - apply (license_back id name r o _ amb Hres).
Qed.

(** X16. Keywords and languages on the way back, for a resource whose
    keywords are strings of ASCII characters.  The keywords come back
    in lower case and in their order, the empty ones dropped, and there is
    no [keywords] property when none is left.  An empty keyword leaves a
    trace: the result then has a property [t] holding an empty list.  The
    languages come back as a list, in their order. *)
Theorem keywords_come_back_lowercase (now : Z) (r : AmbLearningResource)
    (o : ConversionOptions) (dl : option string) (id name : string) :
  identified r id name ->
  Forall (fun k => asciiOnly k = true) (orEmpty (amb_keywords r)) ->
  exists e w,
    ambToNostr now r o = Success e w
    /\ forall amb w',
         nostrToAmb (eventOf e) dl = Success amb w' ->
         obj_get "keywords" amb
         = match filter Str.truthy (orEmpty (amb_keywords r)) with
           | [] => None
           | ks => Some (strings (map Str.toLowerCase ks))
           end
         /\ obj_get "t" amb
            = (if existsb (fun k => negb (Str.truthy k))
                    (orEmpty (amb_keywords r))
               then Some (JArr []) else None)
         /\ obj_get "inLanguage" amb
            = match orEmpty (amb_inLanguage r) with
              | [] => None
              | l => Some (strings l)
              end.
Proof.
  intros Hid _. rewrite (ambToNostr_identified now r o id name Hid).
  eexists. eexists. split; [reflexivity|]. intros amb w' H.
  apply nostrToAmb_success in H as (_ & tags' & Ht & Hres & _).
  injection Ht as <-. cbn [tags] in Hres.
  repeat apply conj.
  - apply (keywords_back id name r o _ amb Hres).
  - apply (empty_keyword_back id name r o _ amb Hres).
  - apply (languages_back id name r o _ amb Hres).
Qed.

Lemma scalar_fields_come_back_witness :
  exists e w,
    ambToNostr 0 authoredCourse noOptions = Success e w
    /\ nostrToAmb (eventOf e) None = Success authoredCourseBack []
    /\ obj_get "isAccessibleForFree" authoredCourseBack = Some (JStr "true")
    /\ obj_get "license" authoredCourseBack
       = Some (JObj [("id",
                      JStr "https://creativecommons.org/licenses/by-sa/4.0/")]).
Proof.
  destruct (scalar_fields_come_back 0 authoredCourse noOptions None
              "https://oer.gitlab.io/OS"
              "Computer Structures and Operating Systems"
              ltac:(repeat split; discriminate)) as (e & w & He & H).
  exists e, w. split; [exact He|].
  injection He as <- _.
  assert (Hback : nostrToAmb
                    (eventOf {| pubkey := pubkeyOf noOptions;
                                created_at := createdAtOf 0 noOptions;
                                kind := AMB_KIND;
                                tags := buildTags "https://oer.gitlab.io/OS"
                                          "Computer Structures and Operating Systems"
                                          authoredCourse noOptions;
                                content := "" |}) None
                  = Success authoredCourseBack []) by (vm_compute; reflexivity).
  split; [exact Hback|].
  destruct (H authoredCourseBack [] Hback) as (_ & _ & _ & _ & Hf & Hl).
  split; [exact Hf | exact Hl].
Defined.

Lemma keywords_come_back_lowercase_witness :
  exists e w,
    ambToNostr 0 emptyKeyword noOptions = Success e w
    /\ nostrToAmb (eventOf e) None = Success emptyKeywordBack []
    /\ obj_get "keywords" emptyKeywordBack = Some (strings ["physics"; "oer"])
    /\ obj_get "t" emptyKeywordBack = Some (JArr []).
Proof.
  destruct (keywords_come_back_lowercase 0 emptyKeyword noOptions None
              "https://example.org/c1" "X"
              ltac:(repeat split; discriminate)
              ltac:(repeat constructor)) as (e & w & He & H).
  exists e, w. split; [exact He|].
  injection He as <- _.
  assert (Hback : nostrToAmb
                    (eventOf {| pubkey := pubkeyOf noOptions;
                                created_at := createdAtOf 0 noOptions;
                                kind := AMB_KIND;
                                tags := buildTags "https://example.org/c1" "X"
                                          emptyKeyword noOptions;
                                content := "" |}) None
                  = Success emptyKeywordBack []) by (vm_compute; reflexivity).
  split; [exact Hback|].
  destruct (H emptyKeywordBack [] Hback) as (Hk & Ht & _).
  split; [exact Hk | exact Ht].
Defined.


(** ** Nested objects, one item after the other *)

Section Steps.

Variables (all : list RelatedTag).

Lemma nestedLoop_app (ts rest : list RelatedTag) :
  forall idx st,
    nestedLoop all (ts ++ rest) idx st
    = (st' <- nestedLoop all ts idx st ;;
       nestedLoop all rest (idx + Z.of_nat (length ts))%Z st').
Proof.
  induction ts as [|t ts IH]; intros idx st.
  - cbn [app nestedLoop bind length Z.of_nat]. rewrite Z.add_0_r. reflexivity.
  - cbn [app nestedLoop]. destruct (nestedStep all idx t st) as [st1|];
      [|reflexivity].
    cbn [bind]. rewrite IH. cbn [length].
    replace (idx + 1 + Z.of_nat (length ts))%Z
      with (idx + Z.of_nat (S (length ts)))%Z by lia.
    reflexivity.
Qed.

Lemma obj_has_set_fresh (k : string) (v : jsval) (o : obj) :
  obj_has k o = false -> obj_set k v o = o ++ [(k, v)].
Proof.
  unfold obj_has. induction o as [|[k' v'] o IH]; [reflexivity|].
  cbn [obj_get obj_set app]. destruct (k =? k'); [discriminate|].
  intro H. rewrite (IH H). reflexivity.
Qed.

Lemma no_boundary (cur target : obj) (k : string) :
  obj_has k target = false -> shouldStartNewObject cur target k = false.
Proof.
  intro H. unfold shouldStartNewObject.
  destruct (negb (isEmptyObj cur)); [|reflexivity].
  destruct (String.eqb_spec k "id") as [->|_]; cbn [andb]; rewrite H;
    reflexivity.
Qed.

Lemma boundary (cur target : obj) (k : string) :
  obj_has k target = true ->
  shouldStartNewObject cur target k = negb (isEmptyObj cur).
Proof.
  intro H. unfold shouldStartNewObject.
  destruct (negb (isEmptyObj cur)); [|reflexivity].
  destruct (String.eqb_spec k "id") as [->|_]; cbn [andb]; rewrite H;
    reflexivity.
Qed.

(** A tag with an empty value is passed over. *)
Lemma skip_step (idx : Z) (key : string) (st : NestedState) :
  nestedStep all idx (mkRelated key [""]) st = Some st.
Proof. destruct st. reflexivity. Qed.

(** A tag [F:k]: the property [k] of the current object, which is closed
    first when it has that property already. *)
Lemma plain_step (idx : Z) (key F k v : string) (objects : list obj)
    (cur : obj) :
  Str.split key = [F; k] ->
  k <> "" -> k <> "prefLabel" -> k <> "inLanguage" -> v <> "" ->
  nestedStep all idx (mkRelated key [v]) (objects, cur)
  = Some (if obj_has k cur
          then (objects ++ [cur], [(k, JStr v)])
          else (objects, obj_set k (JStr v) cur)).
Proof.
  intros Hkey Nk Np Nl Nv. unfold nestedStep. cbn [rt_key rt_values].
  rewrite Hkey. unfold truthyFirst.
  apply truthy_true in Nv, Nk. rewrite Nv.
  cbn [finalKeyOf last innerPath tl removelast filter]. rewrite Nk.
  cbn [negb navigate bind targetAt].
  apply String.eqb_neq in Np, Nl. rewrite Np, Nl. cbn [andb].
  destruct (obj_has k cur) eqn:Hk.
  - rewrite (boundary cur cur k Hk).
    destruct cur as [|kv cur]; [discriminate Hk|]. reflexivity.
  - rewrite (no_boundary cur cur k Hk). reflexivity.
Qed.

(** The first tag of an item closes the item before it. *)
Lemma first_tag (idx : Z) (key F k v : string) (objects : list obj)
    (cur : obj) :
  Str.split key = [F; k] ->
  k <> "" -> k <> "prefLabel" -> k <> "inLanguage" -> v <> "" ->
  cur = [] \/ obj_has k cur = true ->
  nestedStep all idx (mkRelated key [v]) (objects, cur)
  = Some (finish (objects, cur), [(k, JStr v)]).
Proof.
  intros Hkey Nk Np Nl Nv Hcur.
  rewrite (plain_step idx key F k v objects cur Hkey Nk Np Nl Nv).
  destruct Hcur as [->|H].
  - reflexivity.
  - rewrite H. destruct cur; [discriminate H|]. reflexivity.
Qed.

(** A further tag of an item adds a property. *)
Lemma next_tag (idx : Z) (key F k v : string) (objects : list obj)
    (cur : obj) :
  Str.split key = [F; k] ->
  k <> "" -> k <> "prefLabel" -> k <> "inLanguage" -> v <> "" ->
  obj_has k cur = false ->
  nestedStep all idx (mkRelated key [v]) (objects, cur)
  = Some (objects, cur ++ [(k, JStr v)]).
Proof.
  intros Hkey Nk Np Nl Nv Hcur.
  rewrite (plain_step idx key F k v objects cur Hkey Nk Np Nl Nv), Hcur.
  rewrite (obj_has_set_fresh k _ cur Hcur). reflexivity.
Qed.

(** An optional property. *)
Lemma optional_tag (idx : Z) (key F k : string) (v : option string)
    (objects : list obj) (cur : obj) :
  Str.split key = [F; k] ->
  k <> "" -> k <> "prefLabel" -> k <> "inLanguage" ->
  obj_has k cur = false ->
  nestedLoop all (map asRelated (optTag key v)) idx (objects, cur)
  = Some (objects, cur ++ optField k v).
Proof.
  intros Hkey Nk Np Nl Hcur. unfold optTag, optField, field, strTag.
  destruct v as [s|]; [|rewrite app_nil_r; reflexivity].
  destruct (Str.truthy s) eqn:E; [|rewrite app_nil_r; reflexivity].
  cbn [map nestedLoop]. rewrite asRelated_createTag.
  apply truthy_true in E.
  rewrite (next_tag idx key F k s objects cur Hkey Nk Np Nl E Hcur).
  reflexivity.
Qed.

End Steps.

Lemma hasColon_append (p s : string) :
  Str.hasColon (p ++ String ":" s) = true.
Proof.
  induction p as [|c p IH]; [reflexivity|].
  change (String c p ++ String ":" s)%string
    with (String c (p ++ String ":" s)).
  cbn [Str.hasColon]. rewrite IH. apply orb_true_r.
Qed.

Lemma obj_has_app (k : string) (o o' : obj) :
  obj_has k (o ++ o') = obj_has k o || obj_has k o'.
Proof.
  unfold obj_has. induction o as [|[k' v'] o IH]; [reflexivity|].
  cbn [app obj_get]. destruct (k =? k'); [reflexivity | exact IH].
Qed.

Lemma obj_has_optField (k k' : string) (v : option string) :
  k <> k' -> obj_has k (optField k' v) = false.
Proof.
  intro N. unfold optField, field. destruct v as [s|]; [|reflexivity].
  destruct (Str.truthy s); [|reflexivity].
  unfold obj_has. cbn [obj_get]. apply String.eqb_neq in N. rewrite N.
  reflexivity.
Qed.

(** *** References *)

Section References.

Variables (F : string).
Hypothesis flat : Str.hasColon F = false.

Lemma reference_steps (all : list RelatedTag) (idx : Z) (p : Reference)
    (objects : list obj) (cur : obj) :
  simpleReference p ->
  cur = [] \/ obj_has "id" cur = true ->
  nestedLoop all (map asRelated (referenceTags F p)) idx (objects, cur)
  = Some (finish (objects, cur), referenceBack p).
Proof.
  intros [Nid Ht] Hcur. unfold referenceTags, referenceBack.
  rewrite !map_app, !nestedLoop_app. cbn [map nestedLoop].
  rewrite asRelated_createTag.
  rewrite (first_tag all idx (F ++ ":id") F "id" (ref_id p) objects cur
             (property_key_segments F "id" flat eq_refl)
             ltac:(discriminate) ltac:(discriminate) ltac:(discriminate)
             Nid Hcur).
  cbn [bind]. rewrite nestedLoop_app.
  rewrite (optional_tag all _ (F ++ ":name") F "name" (ref_name p) _
             [("id", JStr (ref_id p))]
             (property_key_segments F "name" flat eq_refl)
             ltac:(discriminate) ltac:(discriminate) ltac:(discriminate)
             eq_refl).
  cbn [bind]. unfold typeTags.
  destruct (ref_type p) as [[|t [|t' ts]]|]; cbn [orEmpty length] in Ht;
    try lia; cbn [map nestedLoop]; rewrite ?app_nil_r; try reflexivity.
  rewrite asRelated_createTag. unfold field.
  destruct (Str.truthy t) eqn:Et.
  - apply truthy_true in Et.
    rewrite (next_tag all _ (F ++ ":type") F "type" t _ _
               (property_key_segments F "type" flat eq_refl)
               ltac:(discriminate) ltac:(discriminate) ltac:(discriminate)
               Et).
    + cbn [bind]. rewrite <- app_assoc. reflexivity.
    + rewrite obj_has_app, obj_has_optField by discriminate. reflexivity.
  - apply truthy_false in Et. subst t. rewrite skip_step. cbn [bind].
    rewrite app_nil_r. reflexivity.
Qed.

Lemma referenceBack_id (p : Reference) : obj_has "id" (referenceBack p) = true.
Proof. reflexivity. Qed.

Lemma references_loop (all : list RelatedTag) (ps : list Reference) :
  Forall simpleReference ps ->
  forall (idx : Z) (objects : list obj) (cur : obj),
    cur = [] \/ obj_has "id" cur = true ->
    option_map finish
      (nestedLoop all (map asRelated (flat_map (referenceTags F) ps)) idx
         (objects, cur))
    = Some (finish (objects, cur) ++ map referenceBack ps).
Proof.
  induction 1 as [|p ps Hp _ IH]; intros idx objects cur Hcur.
  - cbn. rewrite app_nil_r. reflexivity.
  - cbn [flat_map]. rewrite map_app, nestedLoop_app.
    rewrite (reference_steps all idx p objects cur Hp Hcur). cbn [bind].
    rewrite IH by (right; apply referenceBack_id).
    unfold finish at 1. cbn [fst snd isEmptyObj referenceBack app map].
    rewrite <- app_assoc. reflexivity.
Qed.

Lemma references_reconstructed (ps : list Reference) :
  ps <> [] ->
  Forall simpleReference ps ->
  reconstructProperty F (map asRelated (flat_map (referenceTags F) ps))
  = Some (collapse (map referenceBack ps)).
Proof.
  intros Hne Hps. unfold reconstructProperty.
  destruct ps as [|p ps]; [contradiction|].
  replace (existsb _ _) with true.
  - unfold reconstructNestedObjects. rewrite collectObjects_finish.
    rewrite (references_loop _ (p :: ps) Hps 0%Z [] [])
      by (left; reflexivity).
    reflexivity.
  - symmetry. cbn [flat_map referenceTags app map existsb].
    rewrite asRelated_createTag. cbn [rt_key]. rewrite hasColon_append.
    reflexivity.
Qed.

Lemma referenceTags_uniform (ps : list Reference) :
  uniformBlock F (flat_map (referenceTags F) ps).
Proof.
  right. apply Forall_forall. intros t Ht.
  apply in_flat_map in Ht as (p & _ & Ht).
  assert (H : forall rest value,
             Str.startsWith (keyOf (createTag (F ++ ":" ++ rest) value))
               (F ++ ":") = true).
  { intros rest value. unfold keyOf, createTag. cbn [hd].
    rewrite <- (append_assoc F ":" rest).
    exact (startsWith_append (F ++ ":") rest). }
  unfold referenceTags in Ht.
  apply in_app_or in Ht as [[<-|[]]|Ht]; [apply (H "id")|].
  apply in_app_or in Ht as [Ht|Ht].
  - unfold optTag, strTag in Ht. destruct (ref_name p) as [n|]; [|destruct Ht].
    destruct (Str.truthy n); [|destruct Ht].
    destruct Ht as [<-|[]]. apply (H "name").
  - unfold typeTags in Ht. destruct (ref_type p) as [ts|]; [|destruct Ht].
    apply in_map_iff in Ht as (x & <- & _). apply (H "type").
Qed.

End References.

Section ReferenceTypes.

Variables (F : string).
Hypothesis flat : Str.hasColon F = false.

Lemma types_loop (all : list RelatedTag) (ts : list string) :
  Forall (fun t => t <> "") ts ->
  forall (idx : Z) (objects : list obj) (cur : obj),
    obj_has "type" cur = true ->
    option_map finish
      (nestedLoop all (map asRelated (map (createTag (F ++ ":type")) ts)) idx
         (objects, cur))
    = Some (objects ++ [cur] ++ map typeOnly ts).
Proof.
  induction 1 as [|t ts Ht _ IH]; intros idx objects cur Hcur.
  - cbn. destruct cur; [discriminate Hcur|]. reflexivity.
  - cbn [map nestedLoop]. rewrite asRelated_createTag.
    rewrite (plain_step all idx (F ++ ":type") F "type" t objects cur
               (property_key_segments F "type" flat eq_refl)
               ltac:(discriminate) ltac:(discriminate) ltac:(discriminate) Ht).
    rewrite Hcur. cbn [bind].
    rewrite (IH _ (objects ++ [cur]) [("type", JStr t)] eq_refl).
    rewrite <- app_assoc. reflexivity.
Qed.

Lemma typed_reference_reconstructed (p : Reference) (t t' : string)
    (ts : list string) :
  ref_id p <> "" ->
  ref_type p = Some (t :: t' :: ts) ->
  Forall (fun x => x <> "") (t :: t' :: ts) ->
  reconstructProperty F (map asRelated (referenceTags F p))
  = Some (JArr (map JObj (firstFragment p t :: map typeOnly (t' :: ts)))).
Proof.
  intros Nid Et Hts. unfold reconstructProperty.
  replace (existsb _ _) with true.
  - unfold reconstructNestedObjects. rewrite collectObjects_finish.
    unfold referenceTags at 2. rewrite Et. unfold typeTags.
    change (map (createTag (F ++ ":type")) (t :: t' :: ts))
      with ([createTag (F ++ ":type") t]
            ++ map (createTag (F ++ ":type")) (t' :: ts)).
    rewrite !map_app, nestedLoop_app.
    set (others := map asRelated (map (createTag (F ++ ":type")) (t' :: ts))).
    cbn [map nestedLoop].
    rewrite asRelated_createTag.
    rewrite (first_tag _ 0%Z (F ++ ":id") F "id" (ref_id p) [] []
               (property_key_segments F "id" flat eq_refl)
               ltac:(discriminate) ltac:(discriminate) ltac:(discriminate)
               Nid (or_introl eq_refl)).
    cbn [bind]. rewrite nestedLoop_app.
    rewrite (optional_tag _ _ (F ++ ":name") F "name" (ref_name p) _
               [("id", JStr (ref_id p))]
               (property_key_segments F "name" flat eq_refl)
               ltac:(discriminate) ltac:(discriminate) ltac:(discriminate)
               eq_refl).
    cbn [bind]. rewrite nestedLoop_app. cbn [nestedLoop].
    rewrite asRelated_createTag.
    inversion Hts as [|? ? Nt Hts']; subst.
    rewrite (next_tag _ _ (F ++ ":type") F "type" t _ _
               (property_key_segments F "type" flat eq_refl)
               ltac:(discriminate) ltac:(discriminate) ltac:(discriminate)
               Nt).
    + cbn [bind]. subst others.
      rewrite (types_loop _ (t' :: ts) Hts').
      * unfold firstFragment. rewrite <- app_assoc. reflexivity.
      * rewrite !obj_has_app. cbn. apply orb_true_r.
    + rewrite obj_has_app, obj_has_optField by discriminate. reflexivity.
  - symmetry. unfold referenceTags. cbn [app map existsb].
    rewrite asRelated_createTag. cbn [rt_key]. rewrite hasColon_append.
    reflexivity.
Qed.

End ReferenceTypes.

Section Relationships.

Variables (id name : string) (r : AmbLearningResource)
          (o : ConversionOptions) (dl : string) (res : obj).

Hypothesis unflattened : unflattenTags (buildTags id name r o) dl = Some res.
Hypothesis included : opt_includeRelationships o <> Some false.

Lemma relationships_included : includesRelationships o = true.
Proof.
  unfold includesRelationships.
  destruct (opt_includeRelationships o) as [[|]|]; try reflexivity.
  exfalso. apply included. reflexivity.
Qed.

Lemma flat_map_same {A B : Type} (f g : A -> list B) (l : list A) :
  (forall x, f x = g x) -> flat_map f l = flat_map g l.
Proof. intro H. induction l; simpl; congruence. Qed.

Lemma basedOn_tags (ps : list Reference) :
  flat_map isBasedOnTags ps
  = flat_map (referenceTags "isBasedOn") (map untyped ps).
Proof.
  induction ps as [|p ps IH]; [reflexivity|].
  cbn [flat_map map]. rewrite IH. f_equal.
  unfold isBasedOnTags, referenceTags. cbn [untyped ref_id ref_name ref_type typeTags].
  rewrite app_nil_r. reflexivity.
Qed.

Lemma reference_field (b : string) (ps : list Reference) (value : jsval) :
  Str.hasColon b = false -> b <> "" -> b <> "d" -> b <> "t" ->
  blocksOf b (allBlocks id name r o)
  = [(b, flat_map (referenceTags b) ps)] ->
  ps <> [] ->
  reconstructProperty b (map asRelated (flat_map (referenceTags b) ps))
  = Some value ->
  obj_get b res = Some (coerceArray b value).
Proof.
  intros Hc N Nd Nt Hb Hne Hrec.
  apply (nested_field id name r o dl res unflattened b
           (flat_map (referenceTags b) ps) value).
  - repeat split; assumption.
  - exact Hb.
  - apply referenceTags_uniform.
  - destruct ps as [|p ps]; [contradiction | discriminate].
  - exact Hrec.
Qed.

Lemma hasPart_block (ps : list Reference) :
  amb_hasPart r = Some ps ->
  blocksOf "hasPart" (allBlocks id name r o)
  = [("hasPart", flat_map (referenceTags "hasPart") ps)].
Proof.
  intro E. unfold allBlocks. rewrite relationships_included.
  unfold relationshipBlocks. rewrite E. reflexivity.
Qed.

Lemma isPartOf_block (ps : list Reference) :
  amb_isPartOf r = Some ps ->
  blocksOf "isPartOf" (allBlocks id name r o)
  = [("isPartOf", flat_map (referenceTags "isPartOf") ps)].
Proof.
  intro E. unfold allBlocks. rewrite relationships_included.
  unfold relationshipBlocks. rewrite E. reflexivity.
Qed.

Lemma isBasedOn_block (ps : list Reference) :
  amb_isBasedOn r = Some ps ->
  blocksOf "isBasedOn" (allBlocks id name r o)
  = [("isBasedOn", flat_map (referenceTags "isBasedOn") (map untyped ps))].
Proof.
  intro E. rewrite <- basedOn_tags. unfold allBlocks.
  rewrite relationships_included.
  unfold relationshipBlocks. rewrite E. reflexivity.
Qed.

Lemma hasPart_back (ps : list Reference) :
  amb_hasPart r = Some ps -> ps <> [] -> Forall simpleReference ps ->
  obj_get "hasPart" res = Some (collapse (map referenceBack ps)).
Proof.
  intros E Hne Hps.
  apply (reference_field "hasPart" ps (collapse (map referenceBack ps)));
    try discriminate; try reflexivity; try assumption.
  - apply hasPart_block. exact E.
  - apply references_reconstructed; [reflexivity | assumption | assumption].
Qed.

Lemma isPartOf_back (ps : list Reference) :
  amb_isPartOf r = Some ps -> ps <> [] -> Forall simpleReference ps ->
  obj_get "isPartOf" res = Some (collapse (map referenceBack ps)).
Proof.
  intros E Hne Hps.
  apply (reference_field "isPartOf" ps (collapse (map referenceBack ps)));
    try discriminate; try reflexivity; try assumption.
  - apply isPartOf_block. exact E.
  - apply references_reconstructed; [reflexivity | assumption | assumption].
Qed.

Lemma isBasedOn_back (ps : list Reference) :
  amb_isBasedOn r = Some ps -> ps <> [] ->
  Forall (fun p => ref_id p <> "") ps ->
  obj_get "isBasedOn" res
  = Some (collapse (map (fun p => referenceBack (untyped p)) ps)).
Proof.
  intros E Hne Hps. rewrite <- (map_map untyped referenceBack).
  apply (reference_field "isBasedOn" (map untyped ps)
           (collapse (map referenceBack (map untyped ps))));
    try discriminate; try reflexivity.
  - apply isBasedOn_block. exact E.
  - destruct ps; [contradiction | discriminate].
  - apply references_reconstructed; [reflexivity | |].
    + destruct ps; [contradiction | discriminate].
    + apply Forall_forall. intros q Hq.
      apply in_map_iff in Hq as (p & <- & Hp).
      rewrite Forall_forall in Hps. split; [apply (Hps p Hp)|].
      cbn. lia.
Qed.

Lemma typed_part_back (p : Reference) (t t' : string) (ts : list string) :
  amb_hasPart r = Some [p] ->
  ref_id p <> "" ->
  ref_type p = Some (t :: t' :: ts) ->
  Forall (fun x => x <> "") (t :: t' :: ts) ->
  obj_get "hasPart" res
  = Some (JArr (map JObj (firstFragment p t :: map typeOnly (t' :: ts)))).
Proof.
  intros E Nid Et Hts.
  apply (reference_field "hasPart" [p]
           (JArr (map JObj (firstFragment p t :: map typeOnly (t' :: ts)))));
    try discriminate; try reflexivity.
  - apply hasPart_block. exact E.
  - cbn [flat_map]. rewrite app_nil_r.
    apply (typed_reference_reconstructed "hasPart" eq_refl p t t' ts Nid Et Hts).
Qed.

Lemma typed_parent_back (p : Reference) (t t' : string) (ts : list string) :
  amb_isPartOf r = Some [p] ->
  ref_id p <> "" ->
  ref_type p = Some (t :: t' :: ts) ->
  Forall (fun x => x <> "") (t :: t' :: ts) ->
  obj_get "isPartOf" res
  = Some (JArr (map JObj (firstFragment p t :: map typeOnly (t' :: ts)))).
Proof.
  intros E Nid Et Hts.
  apply (reference_field "isPartOf" [p]
           (JArr (map JObj (firstFragment p t :: map typeOnly (t' :: ts)))));
    try discriminate; try reflexivity.
  - apply isPartOf_block. exact E.
  - cbn [flat_map]. rewrite app_nil_r.
    apply (typed_reference_reconstructed "isPartOf" eq_refl p t t' ts Nid Et Hts).
Qed.

End Relationships.

(** X17. Relationships on the way back.  References with a non-empty
    [id] and at most one type come back one object per reference, in
    order, with [id], the non-empty [name] and the type; the type is then a
    string, not a list.  The three fields are not among the always-array
    names: a single reference comes back as a bare object, two or more as
    a list.  [isBasedOn] loses the types, which the flattener does not
    write. *)
Theorem references_come_back (now : Z) (r : AmbLearningResource)
    (o : ConversionOptions) (dl : option string) (id name : string) :
  identified r id name ->
  opt_includeRelationships o <> Some false ->
  exists e w,
    ambToNostr now r o = Success e w
    /\ forall amb w',
         nostrToAmb (eventOf e) dl = Success amb w' ->
         (forall ps, amb_hasPart r = Some ps -> ps <> [] ->
            Forall simpleReference ps ->
            obj_get "hasPart" amb = Some (collapse (map referenceBack ps)))
         /\ (forall ps, amb_isPartOf r = Some ps -> ps <> [] ->
               Forall simpleReference ps ->
               obj_get "isPartOf" amb
               = Some (collapse (map referenceBack ps)))
         /\ (forall ps, amb_isBasedOn r = Some ps -> ps <> [] ->
               Forall (fun p => ref_id p <> "") ps ->
               obj_get "isBasedOn" amb
               = Some (collapse
                         (map (fun p => referenceBack (untyped p)) ps))).
Proof.
  intros Hid Hrel. rewrite (ambToNostr_identified now r o id name Hid).
  eexists. eexists. split; [reflexivity|]. intros amb w' H.
  apply nostrToAmb_success in H as (_ & tags' & Ht & Hres & _).
  injection Ht as <-. cbn [tags] in Hres.
  repeat apply conj.
  - apply (hasPart_back id name r o _ amb Hres Hrel).
  - apply (isPartOf_back id name r o _ amb Hres Hrel).
  - apply (isBasedOn_back id name r o _ amb Hres Hrel).
Qed.

(** X18. A reference with several types does not survive the round trip:
    each further [hasPart:type] (or [isPartOf:type]) tag collides with the
    one before and starts a new object.  A single reference with the
    non-empty types [t], [t'], ... comes back as a list: the reference with
    type [t], then one object [{type}] per further type. *)
Theorem typed_reference_splits (now : Z) (r : AmbLearningResource)
    (o : ConversionOptions) (dl : option string) (id name : string)
    (p : Reference) (t t' : string) (ts : list string) :
  identified r id name ->
  opt_includeRelationships o <> Some false ->
  ref_id p <> "" ->
  ref_type p = Some (t :: t' :: ts) ->
  Forall (fun x => x <> "") (t :: t' :: ts) ->
  exists e w,
    ambToNostr now r o = Success e w
    /\ forall amb w',
         nostrToAmb (eventOf e) dl = Success amb w' ->
         (amb_hasPart r = Some [p] ->
          obj_get "hasPart" amb
          = Some (JArr (map JObj (firstFragment p t
                                  :: map typeOnly (t' :: ts)))))
         /\ (amb_isPartOf r = Some [p] ->
             obj_get "isPartOf" amb
             = Some (JArr (map JObj (firstFragment p t
                                     :: map typeOnly (t' :: ts))))).
Proof.
  intros Hid Hrel Nid Et Hts.
  rewrite (ambToNostr_identified now r o id name Hid).
  eexists. eexists. split; [reflexivity|]. intros amb w' H.
  apply nostrToAmb_success in H as (_ & tags' & Ht & Hres & _).
  injection Ht as <-. cbn [tags] in Hres.
  split; intro E.
  - apply (typed_part_back id name r o _ amb Hres Hrel p t t' ts E Nid Et Hts).
  - apply (typed_parent_back id name r o _ amb Hres Hrel p t t' ts E Nid Et Hts).
Qed.

Lemma references_come_back_witness :
  exists e w,
    ambToNostr 0 courseWithParts noOptions = Success e w
    /\ nostrToAmb (eventOf e) None = Success courseWithPartsBack []
    /\ obj_get "hasPart" courseWithPartsBack
       = Some (JObj [("id",
                      JStr "https://oer.gitlab.io/OS/Operating-Systems-JiTT.html");
                     ("name", JStr "JiTT");
                     ("type", JStr "LearningResource")]).
Proof.
  destruct (references_come_back 0 courseWithParts noOptions None
              "https://oer.gitlab.io/OS"
              "Computer Structures and Operating Systems"
              ltac:(repeat split; discriminate) ltac:(discriminate))
    as (e & w & He & H).
  exists e, w. split; [exact He|].
  injection He as <- _.
  assert (Hback : nostrToAmb
                    (eventOf {| pubkey := pubkeyOf noOptions;
                                created_at := createdAtOf 0 noOptions;
                                kind := AMB_KIND;
                                tags := buildTags "https://oer.gitlab.io/OS"
                                          "Computer Structures and Operating Systems"
                                          courseWithParts noOptions;
                                content := "" |}) None
                  = Success courseWithPartsBack []) by (vm_compute; reflexivity).
  split; [exact Hback|].
  destruct (H courseWithPartsBack [] Hback) as (Hp & _).
  apply (Hp _ eq_refl); [discriminate|].
  constructor; [|constructor]. split; [discriminate | cbn; lia].
Defined.

Lemma typed_reference_splits_witness :
  exists e w,
    ambToNostr 0 courseWithTypedPart noOptions = Success e w
    /\ nostrToAmb (eventOf e) None = Success courseWithTypedPartBack []
    /\ obj_get "hasPart" courseWithTypedPartBack
       = Some (JArr [JObj [("id",
                            JStr "https://oer.gitlab.io/OS/Operating-Systems-JiTT.html");
                           ("name", JStr "JiTT");
                           ("type", JStr "LearningResource")];
                     JObj [("type", JStr "Presentation")]]).
Proof.
  destruct (typed_reference_splits 0 courseWithTypedPart noOptions None
              "https://oer.gitlab.io/OS"
              "Computer Structures and Operating Systems"
              {| ref_id := "https://oer.gitlab.io/OS/Operating-Systems-JiTT.html";
                 ref_type := Some ["LearningResource"; "Presentation"];
                 ref_name := Some "JiTT" |}
              "LearningResource" "Presentation" []
              ltac:(repeat split; discriminate) ltac:(discriminate)
              ltac:(discriminate) eq_refl
              ltac:(repeat constructor; discriminate))
    as (e & w & He & H).
  exists e, w. split; [exact He|].
  injection He as <- _.
  assert (Hback : nostrToAmb
                    (eventOf {| pubkey := pubkeyOf noOptions;
                                created_at := createdAtOf 0 noOptions;
                                kind := AMB_KIND;
                                tags := buildTags "https://oer.gitlab.io/OS"
                                          "Computer Structures and Operating Systems"
                                          courseWithTypedPart noOptions;
                                content := "" |}) None
                  = Success courseWithTypedPartBack [])
    by (vm_compute; reflexivity).
  split; [exact Hback|].
  destruct (H courseWithTypedPartBack [] Hback) as (Hp & _).
  apply Hp. reflexivity.
Defined.


(** *** Properties of a nested object *)

Section InnerSteps.

Variables (all : list RelatedTag).

Lemma obj_get_last (p : string) (x : jsval) (pre : obj) :
  obj_has p pre = false -> obj_get p (pre ++ [(p, x)]) = Some x.
Proof.
  unfold obj_has. induction pre as [|[k' v'] pre IH]; cbn [app obj_get].
  - rewrite String.eqb_refl. reflexivity.
  - destruct (p =? k'); [discriminate | exact IH].
Qed.

Lemma obj_set_last (p : string) (x y : jsval) (pre : obj) :
  obj_has p pre = false ->
  obj_set p y (pre ++ [(p, x)]) = pre ++ [(p, y)].
Proof.
  unfold obj_has. induction pre as [|[k' v'] pre IH]; cbn [app obj_get obj_set].
  - rewrite String.eqb_refl. reflexivity.
  - destruct (p =? k'); [discriminate|]. intro H. rewrite (IH H). reflexivity.
Qed.

Lemma obj_has_absent (p : string) (o : obj) :
  obj_has p o = false -> obj_get p o = None.
Proof. unfold obj_has. destruct (obj_get p o); [discriminate | reflexivity]. Qed.

Lemma nested_last (p : string) (child : obj) (kv : string * jsval) :
  nested p (child ++ [kv]) = [(p, JObj (child ++ [kv]))].
Proof. destruct child; reflexivity. Qed.

(** A tag [F:p:k]: the property [k] of the object under [p], which is
    created when it is not there. *)
Lemma inner_step (idx : Z) (key F p k v : string) (objects : list obj)
    (pre child : obj) :
  Str.split key = [F; p; k] ->
  p <> "" -> ordinaryKey k -> v <> "" ->
  obj_has p pre = false ->
  obj_has k child = false ->
  nestedStep all idx (mkRelated key [v]) (objects, pre ++ nested p child)
  = Some (objects, pre ++ nested p (child ++ [(k, JStr v)])).
Proof.
  intros Hkey Np (Nk & Nl & Ni) Nv Hp Hk. rewrite nested_last.
  unfold nestedStep. cbn [rt_key rt_values].
  rewrite Hkey. unfold truthyFirst.
  apply truthy_true in Nv, Nk, Np. rewrite Nv.
  cbn [finalKeyOf last innerPath tl removelast filter]. rewrite Np, Nk.
  apply String.eqb_neq in Nl, Ni.
  cbn [negb navigate].
  destruct child as [|c0 child]; cbn [nested].
  - rewrite app_nil_r, (obj_has_absent p pre Hp). cbn [bind navigate].
    rewrite (obj_has_set_fresh p _ pre Hp).
    cbn [targetAt]. rewrite (obj_get_last p _ pre Hp).
    rewrite (no_boundary _ [] k eq_refl). cbn [bind].
    rewrite Nl, Ni. cbn [andb assignAt].
    rewrite (obj_get_last p _ pre Hp), (obj_set_last p _ _ pre Hp).
    reflexivity.
  - rewrite (obj_get_last p _ pre Hp). cbn [bind navigate].
    rewrite (obj_set_last p _ _ pre Hp).
    cbn [targetAt]. rewrite (obj_get_last p _ pre Hp).
    rewrite (no_boundary _ (c0 :: child) k Hk). cbn [bind].
    rewrite Nl, Ni. cbn [andb assignAt].
    rewrite (obj_get_last p _ pre Hp), (obj_set_last p _ _ pre Hp).
    rewrite (obj_has_set_fresh k _ (c0 :: child) Hk). reflexivity.
Qed.

Variables (F p : string) (key : string -> string) (pre : obj).

Hypothesis inner_named : p <> "".
Hypothesis pre_without : obj_has p pre = false.

Lemma written_cons (k v : string) (fields : list (string * string)) :
  written ((k, v) :: fields)
  = (if Str.truthy v then [(k, JStr v)] else []) ++ written fields.
Proof.
  unfold written, present. cbn [filter snd].
  destruct (Str.truthy v); reflexivity.
Qed.

Lemma inner_loop (fields : list (string * string)) :
  (forall kv, In kv fields ->
     Str.split (key (fst kv)) = [F; p; fst kv] /\ ordinaryKey (fst kv)) ->
  NoDup (map fst fields) ->
  forall (idx : Z) (objects : list obj) (child : obj),
    (forall kv, In kv fields -> obj_has (fst kv) child = false) ->
    nestedLoop all (map (fun kv => mkRelated (key (fst kv)) [snd kv]) fields)
      idx (objects, pre ++ nested p child)
    = Some (objects, pre ++ nested p (child ++ written fields)).
Proof.
  induction fields as [|[k v] fields IH]; intros Hkeys Hnd idx objects child Hc.
  - cbn. rewrite app_nil_r. reflexivity.
  - cbn [map nestedLoop fst snd]. rewrite written_cons.
    inversion Hnd as [|? ? Hnew Hnd']; subst.
    assert (Hkeys' : forall kv, In kv fields ->
              Str.split (key (fst kv)) = [F; p; fst kv]
              /\ ordinaryKey (fst kv))
      by (intros kv Hin; apply Hkeys; right; exact Hin).
    destruct (Str.truthy v) eqn:Ev.
    + destruct (Hkeys (k, v) (or_introl eq_refl)) as [Hsplit Hord].
      cbn [fst] in Hsplit, Hord. apply truthy_true in Ev.
      rewrite (inner_step idx (key k) F p k v objects pre child Hsplit
                 inner_named Hord Ev pre_without
                 (Hc (k, v) (or_introl eq_refl))).
      cbn [bind]. rewrite (IH Hkeys' Hnd').
      * rewrite <- app_assoc. reflexivity.
      * intros kv Hin. rewrite obj_has_app, (Hc kv (or_intror Hin)).
        unfold obj_has. cbn [obj_get orb].
        destruct (String.eqb_spec (fst kv) k) as [E|_]; [|reflexivity].
        exfalso. apply Hnew. rewrite <- E. apply in_map. exact Hin.
    + apply truthy_false in Ev. subst v. rewrite skip_step. cbn [bind app].
      apply (IH Hkeys' Hnd').
      intros kv Hin. apply Hc. right. exact Hin.
Qed.

End InnerSteps.

Lemma obj_has_field (k k' v : string) :
  k <> k' -> obj_has k (field k' v) = false.
Proof.
  intro N. unfold field. destruct (Str.truthy v); [|reflexivity].
  unfold obj_has. cbn [obj_get]. apply String.eqb_neq in N. rewrite N.
  reflexivity.
Qed.

Lemma obj_has_nested (k p : string) (child : obj) :
  k <> p -> obj_has k (nested p child) = false.
Proof.
  intro N. destruct child; [reflexivity|].
  unfold obj_has. cbn [nested obj_get]. apply String.eqb_neq in N. rewrite N.
  reflexivity.
Qed.

Lemma collapse_array (b : string) (objects : list obj) :
  Str.mem b arrayFields = true -> objects <> [] ->
  coerceArray b (collapse objects) = JArr (map JObj objects).
Proof.
  intros Hb Hne. unfold coerceArray. rewrite Hb.
  destruct objects as [|x [|y l]]; [contradiction | reflexivity | reflexivity].
Qed.

(** *** Agents *)

Section Agents.

Variables (all : list RelatedTag).

(** A tag that is always written, with a value that may be empty. *)
Lemma maybe_tag (idx : Z) (key F k v : string) (objects : list obj)
    (cur : obj) :
  Str.split key = [F; k] ->
  k <> "" -> k <> "prefLabel" -> k <> "inLanguage" ->
  obj_has k cur = false ->
  nestedLoop all (map asRelated [createTag key v]) idx (objects, cur)
  = Some (objects, cur ++ field k v).
Proof.
  intros Hkey Nk Np Nl Hcur. cbn [map nestedLoop].
  rewrite asRelated_createTag. unfold field.
  destruct (Str.truthy v) eqn:E.
  - apply truthy_true in E.
    rewrite (next_tag all idx key F k v objects cur Hkey Nk Np Nl E Hcur).
    reflexivity.
  - apply truthy_false in E. subst v. rewrite skip_step, app_nil_r.
    reflexivity.
Qed.

Lemma leading_tag (idx : Z) (key F k v : string) (objects : list obj)
    (cur : obj) :
  Str.split key = [F; k] ->
  k <> "" -> k <> "prefLabel" -> k <> "inLanguage" -> v <> "" ->
  cur = [] \/ obj_has k cur = true ->
  nestedLoop all (map asRelated [createTag key v]) idx (objects, cur)
  = Some (finish (objects, cur), [(k, JStr v)]).
Proof.
  intros Hkey Nk Np Nl Nv Hcur. cbn [map nestedLoop].
  rewrite asRelated_createTag.
  rewrite (first_tag all idx key F k v objects cur Hkey Nk Np Nl Nv Hcur).
  reflexivity.
Qed.

Lemma present_idem (fields : list (string * string)) :
  present (present fields) = present fields.
Proof.
  unfold present. induction fields as [|kv fields IH]; [reflexivity|].
  cbn [filter]. destruct (Str.truthy (snd kv)) eqn:E; [|exact IH].
  cbn [filter]. rewrite E, IH. reflexivity.
Qed.

Lemma present_keys (fields : list (string * string)) :
  NoDup (map fst fields) -> NoDup (map fst (present fields)).
Proof.
  unfold present. induction fields as [|kv fields IH]; intro H; [constructor|].
  inversion H as [|? ? Hnew Hnd]; subst. cbn [filter].
  destruct (Str.truthy (snd kv)); [|apply IH; exact Hnd].
  cbn [map]. constructor; [|apply IH; exact Hnd].
  intro Hin. apply Hnew. apply in_map_iff in Hin as (x & Hx & Hin).
  apply filter_In in Hin as [Hin _]. rewrite <- Hx. apply in_map. exact Hin.
Qed.

Lemma affiliation_tags (org : Organization) :
  map asRelated
    (strTag "creator:affiliation:name" (org_name org)
     ++ strTag "creator:affiliation:type" (org_type org)
     ++ optTag "creator:affiliation:id" (org_id org))
  = map (fun kv => mkRelated ("creator:affiliation:" ++ fst kv) [snd kv])
      (present (orgFields org)).
Proof.
  unfold orgFields, present, strTag, optTag, strTag.
  destruct (org_name org) as [|c1 s1], (org_type org) as [|c2 s2],
    (org_id org) as [[|c3 s3]|]; reflexivity.
Qed.

Lemma affiliation_steps (idx : Z) (org : Organization) (objects : list obj)
    (cur : obj) :
  obj_has "affiliation" cur = false ->
  nestedLoop all
    (map asRelated
       (strTag "creator:affiliation:name" (org_name org)
        ++ strTag "creator:affiliation:type" (org_type org)
        ++ optTag "creator:affiliation:id" (org_id org)))
    idx (objects, cur)
  = Some (objects, cur ++ affiliationBack (Some org)).
Proof.
  intro Hcur. rewrite affiliation_tags.
  rewrite <- (app_nil_r cur) at 1.
  change (@nil (string * jsval)) with (nested "affiliation" []) at 1.
  rewrite (inner_loop all "creator" "affiliation"
             (fun k => "creator:affiliation:" ++ k)%string cur
             ltac:(discriminate) Hcur (present (orgFields org))).
  - unfold written. rewrite present_idem. reflexivity.
  - intros kv Hin. apply filter_In in Hin as [Hin _].
    destruct Hin as [<-|[<-|[<-|[]]]];
      (split; [reflexivity | repeat split; discriminate]).
  - apply present_keys. cbn.
    repeat constructor; cbn; intuition discriminate.
  - intros kv _. reflexivity.
Qed.

Lemma creator_item (idx : Z) (a : Agent) (objects : list obj) (cur : obj) :
  named a ->
  cur = [] \/ obj_has "name" cur = true ->
  nestedLoop all (map asRelated (creatorTags a)) idx (objects, cur)
  = Some (finish (objects, cur), creatorBack a).
Proof.
  intros Hname Hcur. unfold creatorBack.
  change (creatorTags a)
    with ([createTag "creator:name" (getPersonOrOrgName a)]
          ++ [createTag "creator:type" (agent_type a)]
          ++ optTag "creator:id" (agent_id a)
          ++ optTag "creator:honorificPrefix" (agent_honorificPrefix a)
          ++ match agent_affiliation a with
             | Some org =>
                 strTag "creator:affiliation:name" (org_name org)
                 ++ strTag "creator:affiliation:type" (org_type org)
                 ++ optTag "creator:affiliation:id" (org_id org)
             | None => []
             end).
  rewrite !map_app, nestedLoop_app.
  rewrite (leading_tag idx "creator:name" "creator" "name" _ objects cur
             eq_refl ltac:(discriminate) ltac:(discriminate)
             ltac:(discriminate) Hname Hcur).
  cbn [bind]. rewrite nestedLoop_app.
  rewrite (maybe_tag _ "creator:type" "creator" "type" (agent_type a) _
             [("name", JStr (getPersonOrOrgName a))]
             eq_refl ltac:(discriminate) ltac:(discriminate)
             ltac:(discriminate) eq_refl).
  cbn [bind]. rewrite nestedLoop_app.
  rewrite (optional_tag all _ "creator:id" "creator" "id" (agent_id a) _
             ([("name", JStr (getPersonOrOrgName a))]
              ++ field "type" (agent_type a))
             eq_refl ltac:(discriminate) ltac:(discriminate)
             ltac:(discriminate));
    [|rewrite obj_has_app, obj_has_field by discriminate; reflexivity].
  cbn [bind]. rewrite nestedLoop_app.
  rewrite (optional_tag all _ "creator:honorificPrefix" "creator"
             "honorificPrefix" (agent_honorificPrefix a) _
             (([("name", JStr (getPersonOrOrgName a))]
               ++ field "type" (agent_type a))
              ++ optField "id" (agent_id a))
             eq_refl ltac:(discriminate) ltac:(discriminate)
             ltac:(discriminate));
    [|rewrite !obj_has_app, obj_has_field, obj_has_optField by discriminate;
      reflexivity].
  cbn [bind].
  destruct (agent_affiliation a) as [org|].
  - rewrite affiliation_steps;
      [|rewrite !obj_has_app, obj_has_field, !obj_has_optField by discriminate;
        reflexivity].
    rewrite <- !app_assoc. reflexivity.
  - cbn [map nestedLoop affiliationBack]. rewrite <- !app_assoc, !app_nil_r.
    reflexivity.
Qed.

Lemma publisher_item (idx : Z) (a : Agent) (objects : list obj) (cur : obj) :
  named a ->
  cur = [] \/ obj_has "name" cur = true ->
  nestedLoop all (map asRelated (publisherTags a)) idx (objects, cur)
  = Some (finish (objects, cur), publisherBack a).
Proof.
  intros Hname Hcur. unfold publisherBack.
  change (publisherTags a)
    with ([createTag "publisher:name" (getPersonOrOrgName a)]
          ++ [createTag "publisher:type" (agent_type a)]
          ++ optTag "publisher:id" (agent_id a)).
  rewrite !map_app, nestedLoop_app.
  rewrite (leading_tag idx "publisher:name" "publisher" "name" _ objects cur
             eq_refl ltac:(discriminate) ltac:(discriminate)
             ltac:(discriminate) Hname Hcur).
  cbn [bind]. rewrite nestedLoop_app.
  rewrite (maybe_tag _ "publisher:type" "publisher" "type" (agent_type a) _
             [("name", JStr (getPersonOrOrgName a))]
             eq_refl ltac:(discriminate) ltac:(discriminate)
             ltac:(discriminate) eq_refl).
  cbn [bind].
  rewrite (optional_tag all _ "publisher:id" "publisher" "id" (agent_id a) _
             ([("name", JStr (getPersonOrOrgName a))]
              ++ field "type" (agent_type a))
             eq_refl ltac:(discriminate) ltac:(discriminate)
             ltac:(discriminate));
    [|rewrite obj_has_app, obj_has_field by discriminate; reflexivity].
  rewrite <- !app_assoc. reflexivity.
Qed.

Lemma finish_with (k : string) (objects : list obj) (cur : obj) :
  obj_has k cur = true -> finish (objects, cur) = objects ++ [cur].
Proof. intro H. destruct cur; [discriminate H | reflexivity]. Qed.

(** Items that each start with a tag for the property [k]: one object per
    item. *)
Lemma items_loop {A : Type} (tagsOf : A -> list NostrTag) (back : A -> obj)
    (good : A -> Prop) (k : string) :
  (forall (idx : Z) (x : A) (objects : list obj) (cur : obj),
     good x -> cur = [] \/ obj_has k cur = true ->
     nestedLoop all (map asRelated (tagsOf x)) idx (objects, cur)
     = Some (finish (objects, cur), back x)) ->
  (forall x, good x -> obj_has k (back x) = true) ->
  forall xs,
    Forall good xs ->
    forall (idx : Z) (objects : list obj) (cur : obj),
      cur = [] \/ obj_has k cur = true ->
      option_map finish
        (nestedLoop all (map asRelated (flat_map tagsOf xs)) idx
           (objects, cur))
      = Some (finish (objects, cur) ++ map back xs).
Proof.
  intros Hitem Hback. induction 1 as [|x xs Hx _ IH];
    intros idx objects cur Hcur.
  - cbn. rewrite app_nil_r. reflexivity.
  - cbn [flat_map]. rewrite map_app, nestedLoop_app.
    rewrite (Hitem idx x objects cur Hx Hcur). cbn [bind].
    rewrite IH by (right; apply Hback; exact Hx).
    rewrite (finish_with k _ (back x) (Hback x Hx)).
    cbn [map]. rewrite <- app_assoc. reflexivity.
Qed.

End Agents.

Lemma items_reconstructed {A : Type} (b : string)
    (tagsOf : A -> list NostrTag) (back : A -> obj) (good : A -> Prop)
    (k : string) (xs : list A) :
  (forall (all : list RelatedTag) (idx : Z) (x : A) (objects : list obj)
          (cur : obj),
     good x -> cur = [] \/ obj_has k cur = true ->
     nestedLoop all (map asRelated (tagsOf x)) idx (objects, cur)
     = Some (finish (objects, cur), back x)) ->
  (forall x, good x -> obj_has k (back x) = true) ->
  Forall good xs ->
  existsb (fun t => Str.hasColon (rt_key t))
    (map asRelated (flat_map tagsOf xs)) = true ->
  reconstructProperty b (map asRelated (flat_map tagsOf xs))
  = Some (collapse (map back xs)).
Proof.
  intros Hitem Hback Hxs Hnested. unfold reconstructProperty.
  rewrite Hnested. unfold reconstructNestedObjects.
  rewrite collectObjects_finish.
  rewrite (items_loop _ tagsOf back good k (Hitem _) Hback xs Hxs 0%Z [] [])
    by (left; reflexivity).
  reflexivity.
Qed.

(** *** Concepts *)

Section Concepts.

Variables (F : string).
Hypothesis flat : Str.hasColon F = false.

Lemma concept_item (all : list RelatedTag) (idx : Z) (c : Concept)
    (objects : list obj) (cur : obj) :
  wellLabelled c ->
  cur = [] \/ obj_has "id" cur = true ->
  nestedLoop all (map asRelated (conceptTags F c)) idx (objects, cur)
  = Some (finish (objects, cur), conceptBack c).
Proof.
  intros (Nid & Hnd & Hcodes) Hcur. unfold conceptTags, conceptBack.
  unfold strTag at 1. pose proof Nid as Tid. apply truthy_true in Tid.
  rewrite Tid. rewrite !map_app, nestedLoop_app.
  rewrite (leading_tag all idx (F ++ ":id") F "id" _ objects cur
             (property_key_segments F "id" flat eq_refl)
             ltac:(discriminate) ltac:(discriminate) ltac:(discriminate)
             Nid Hcur).
  cbn [bind]. rewrite nestedLoop_app.
  assert (Hlabels :
    forall labels,
      NoDup (map fst labels) -> Forall labelCode (map fst labels) ->
      nestedLoop all
        (map asRelated
           (map (fun e => createTag (F ++ ":prefLabel:" ++ fst e) (snd e))
              labels))
        (idx + Z.of_nat
                 (length (map asRelated [createTag (F ++ ":id") (concept_id c)])))
        (finish (objects, cur), [("id", JStr (concept_id c))])
      = Some (finish (objects, cur),
              [("id", JStr (concept_id c))]
              ++ nested "prefLabel" (written labels))).
  { intros labels Hnd' Hcodes'. rewrite map_map.
    assert (Hkeys : forall kv, In kv labels ->
              Str.split (F ++ ":prefLabel:" ++ fst kv) = [F; "prefLabel"; fst kv]
              /\ ordinaryKey (fst kv)).
    { intros kv Hin. rewrite Forall_forall in Hcodes'.
      destruct (Hcodes' (fst kv) (in_map fst labels kv Hin))
        as (Hord & Hcolon & _).
      split; [apply (label_key_segments F (fst kv) flat Hcolon) | exact Hord]. }
    exact (inner_loop all F "prefLabel"
             (fun l => F ++ ":prefLabel:" ++ l)%string
             [("id", JStr (concept_id c))] ltac:(discriminate) eq_refl labels
             Hkeys Hnd' _ _ [] (fun _ _ => eq_refl)). }
  unfold languagesOf in Hnd, Hcodes.
  assert (Htype :
    forall child idx',
      nestedLoop all (map asRelated (optTag (F ++ ":type") (concept_type c)))
        idx'
        (finish (objects, cur),
         [("id", JStr (concept_id c))] ++ nested "prefLabel" child)
      = Some (finish (objects, cur),
              ([("id", JStr (concept_id c))] ++ nested "prefLabel" child)
              ++ optField "type" (concept_type c))).
  { intros child idx'.
    apply (optional_tag all idx' (F ++ ":type") F "type" (concept_type c) _ _
             (property_key_segments F "type" flat eq_refl));
      try discriminate.
    rewrite obj_has_app, obj_has_nested by discriminate. reflexivity. }
  destruct (concept_prefLabel c) as [labels|]; cbn [orEmpty] in *.
  - rewrite (Hlabels labels Hnd Hcodes). cbn [bind].
    rewrite Htype, <- app_assoc. reflexivity.
  - cbn [map nestedLoop bind].
    pose proof (Htype []) as H. cbn [nested app] in H. rewrite H.
    reflexivity.
Qed.

Lemma conceptBack_id (c : Concept) : obj_has "id" (conceptBack c) = true.
Proof. reflexivity. Qed.

Lemma concepts_reconstructed (cs : list Concept) :
  cs <> [] ->
  Forall wellLabelled cs ->
  reconstructProperty F (map asRelated (flat_map (conceptTags F) cs))
  = Some (collapse (map conceptBack cs)).
Proof.
  intros Hne Hcs.
  apply (items_reconstructed F (conceptTags F) conceptBack wellLabelled "id").
  - intros all idx c objects cur. apply concept_item.
  - intros c _. apply conceptBack_id.
  - exact Hcs.
  - destruct cs as [|c cs]; [contradiction|].
    inversion Hcs as [|? ? (Nid & _) _]; subst.
    cbn [flat_map]. unfold conceptTags, strTag at 1.
    apply truthy_true in Nid. rewrite Nid.
    cbn [app map existsb]. rewrite asRelated_createTag. cbn [rt_key].
    rewrite hasColon_append. reflexivity.
Qed.

Lemma concepts_uniform (cs : list Concept) :
  uniformBlock F (flat_map (conceptTags F) cs).
Proof.
  right. apply Forall_forall. intros t Ht.
  apply in_flat_map in Ht as (c & _ & Ht).
  pose proof (conceptTags_nested F c) as H. rewrite Forall_forall in H.
  apply H. exact Ht.
Qed.

Lemma concepts_given (cs : list Concept) :
  cs <> [] -> Forall wellLabelled cs -> flat_map (conceptTags F) cs <> [].
Proof.
  intros Hne Hcs. destruct cs as [|c cs]; [contradiction|].
  inversion Hcs as [|? ? (Nid & _) _]; subst.
  cbn [flat_map]. unfold conceptTags, strTag at 1.
  apply truthy_true in Nid. rewrite Nid. discriminate.
Qed.

End Concepts.

Section AgentsReconstructed.

Lemma creators_reconstructed (cs : list Agent) :
  cs <> [] -> Forall named cs ->
  reconstructProperty "creator" (map asRelated (flat_map creatorTags cs))
  = Some (collapse (map creatorBack cs)).
Proof.
  intros Hne Hcs.
  apply (items_reconstructed "creator" creatorTags creatorBack named "name").
  - intros all idx a objects cur. apply creator_item.
  - intros a _. reflexivity.
  - exact Hcs.
  - destruct cs as [|a cs]; [contradiction | reflexivity].
Qed.

Lemma publishers_reconstructed (ps : list Agent) :
  ps <> [] -> Forall named ps ->
  reconstructProperty "publisher" (map asRelated (flat_map publisherTags ps))
  = Some (collapse (map publisherBack ps)).
Proof.
  intros Hne Hps.
  apply (items_reconstructed "publisher" publisherTags publisherBack named
           "name").
  - intros all idx a objects cur. apply publisher_item.
  - intros a _. reflexivity.
  - exact Hps.
  - destruct ps as [|a ps]; [contradiction | reflexivity].
Qed.

Lemma starts_strTag (b k s : string) :
  Str.startsWith k (b ++ ":") = true ->
  Forall (fun t => Str.startsWith (keyOf t) (b ++ ":") = true) (strTag k s).
Proof.
  intro H. unfold strTag.
  destruct (Str.truthy s); [apply Forall_cons; [exact H|] |]; apply Forall_nil.
Qed.

Lemma starts_optTag (b k : string) (v : option string) :
  Str.startsWith k (b ++ ":") = true ->
  Forall (fun t => Str.startsWith (keyOf t) (b ++ ":") = true) (optTag k v).
Proof.
  intro H. destruct v; [apply starts_strTag; exact H | apply Forall_nil].
Qed.

Lemma creators_uniform (cs : list Agent) :
  uniformBlock "creator" (flat_map creatorTags cs).
Proof.
  right. apply Forall_forall. intros t Ht.
  apply in_flat_map in Ht as (a & _ & Ht). revert t Ht.
  apply Forall_forall. unfold creatorTags.
  destruct (agent_affiliation a);
    repeat first
      [ apply Forall_nil
      | apply Forall_app; split
      | apply Forall_cons; [reflexivity|]
      | apply starts_strTag; reflexivity
      | apply starts_optTag; reflexivity ].
Qed.

Lemma publishers_uniform (ps : list Agent) :
  uniformBlock "publisher" (flat_map publisherTags ps).
Proof.
  right. apply Forall_forall. intros t Ht.
  apply in_flat_map in Ht as (a & _ & Ht). revert t Ht.
  apply Forall_forall. unfold publisherTags.
  repeat first
    [ apply Forall_nil
    | apply Forall_app; split
    | apply Forall_cons; [reflexivity|]
    | apply starts_strTag; reflexivity
    | apply starts_optTag; reflexivity ].
Qed.

End AgentsReconstructed.

Section NestedFields.

Variables (id name : string) (r : AmbLearningResource)
          (o : ConversionOptions) (dl : string) (res : obj).

Hypothesis unflattened : unflattenTags (buildTags id name r o) dl = Some res.

Ltac block_eq :=
  unfold allBlocks; destruct (includesRelationships o); reflexivity.

Lemma creators_back (cs : list Agent) :
  amb_creator r = Some cs -> cs <> [] -> Forall named cs ->
  obj_get "creator" res = Some (JArr (map JObj (map creatorBack cs))).
Proof.
  intros E Hne Hcs.
  rewrite <- (collapse_array "creator" (map creatorBack cs) eq_refl)
    by (destruct cs; [contradiction | discriminate]).
  apply (nested_field id name r o dl res unflattened "creator"
           (flat_map creatorTags cs)).
  - repeat split; discriminate.
  - assert (Hb : blocksOf "creator" (allBlocks id name r o)
                 = [("creator", forEachOpt (amb_creator r) creatorTags)])
      by block_eq.
    rewrite Hb, E. reflexivity.
  - apply creators_uniform.
  - destruct cs; [contradiction | discriminate].
  - apply creators_reconstructed; assumption.
Qed.

Lemma publishers_back (ps : list Agent) :
  amb_publisher r = Some ps -> ps <> [] -> Forall named ps ->
  obj_get "publisher" res = Some (JArr (map JObj (map publisherBack ps))).
Proof.
  intros E Hne Hps.
  rewrite <- (collapse_array "publisher" (map publisherBack ps) eq_refl)
    by (destruct ps; [contradiction | discriminate]).
  apply (nested_field id name r o dl res unflattened "publisher"
           (flat_map publisherTags ps)).
  - repeat split; discriminate.
  - assert (Hb : blocksOf "publisher" (allBlocks id name r o)
                 = [("publisher", forEachOpt (amb_publisher r) publisherTags)])
      by block_eq.
    rewrite Hb, E. reflexivity.
  - apply publishers_uniform.
  - destruct ps; [contradiction | discriminate].
  - apply publishers_reconstructed; assumption.
Qed.

Lemma concepts_back (b : string) (cs : list Concept) :
  plainBase b ->
  blocksOf b (allBlocks id name r o) = [(b, flat_map (conceptTags b) cs)] ->
  cs <> [] -> Forall wellLabelled cs ->
  obj_get b res = Some (coerceArray b (collapse (map conceptBack cs))).
Proof.
  intros Hp Hb Hne Hcs. pose proof Hp as (_ & _ & _ & Hflat).
  apply (nested_field id name r o dl res unflattened b
           (flat_map (conceptTags b) cs)).
  - exact Hp.
  - exact Hb.
  - apply concepts_uniform.
  - apply concepts_given; assumption.
  - apply concepts_reconstructed; assumption.
Qed.

Lemma about_back (cs : list Concept) :
  amb_about r = Some cs -> cs <> [] -> Forall wellLabelled cs ->
  obj_get "about" res = Some (JArr (map JObj (map conceptBack cs))).
Proof.
  intros E Hne Hcs.
  rewrite <- (collapse_array "about" (map conceptBack cs) eq_refl)
    by (destruct cs; [contradiction | discriminate]).
  apply concepts_back; try assumption; [repeat split; discriminate|].
  assert (Hb : blocksOf "about" (allBlocks id name r o)
               = [("about", forEachOpt (amb_about r) (conceptTags "about"))])
    by block_eq.
  rewrite Hb, E. reflexivity.
Qed.

Lemma audience_back (cs : list Concept) :
  amb_audience r = Some cs -> cs <> [] -> Forall wellLabelled cs ->
  obj_get "audience" res = Some (JArr (map JObj (map conceptBack cs))).
Proof.
  intros E Hne Hcs.
  rewrite <- (collapse_array "audience" (map conceptBack cs) eq_refl)
    by (destruct cs; [contradiction | discriminate]).
  apply concepts_back; try assumption; [repeat split; discriminate|].
  assert (Hb : blocksOf "audience" (allBlocks id name r o)
               = [("audience",
                   forEachOpt (amb_audience r) (conceptTags "audience"))])
    by block_eq.
  rewrite Hb, E. reflexivity.
Qed.

Lemma learningResourceType_back (cs : list Concept) :
  amb_learningResourceType r = Some cs -> cs <> [] ->
  Forall wellLabelled cs ->
  obj_get "learningResourceType" res
  = Some (JArr (map JObj (map conceptBack cs))).
Proof.
  intros E Hne Hcs.
  rewrite <- (collapse_array "learningResourceType" (map conceptBack cs)
                eq_refl)
    by (destruct cs; [contradiction | discriminate]).
  apply concepts_back; try assumption; [repeat split; discriminate|].
  assert (Hb : blocksOf "learningResourceType" (allBlocks id name r o)
               = [("learningResourceType",
                   forEachOpt (amb_learningResourceType r)
                     (conceptTags "learningResourceType"))])
    by block_eq.
  rewrite Hb, E. reflexivity.
Qed.

Lemma educationalLevel_back (cs : list Concept) :
  amb_educationalLevel r = Some cs -> cs <> [] -> Forall wellLabelled cs ->
  obj_get "educationalLevel" res = Some (collapse (map conceptBack cs)).
Proof.
  intros E Hne Hcs.
  change (collapse (map conceptBack cs))
    with (coerceArray "educationalLevel" (collapse (map conceptBack cs))).
  apply concepts_back; try assumption; [repeat split; discriminate|].
  assert (Hb : blocksOf "educationalLevel" (allBlocks id name r o)
               = [("educationalLevel",
                   forEachOpt (amb_educationalLevel r)
                     (conceptTags "educationalLevel"))])
    by block_eq.
  rewrite Hb, E. reflexivity.
Qed.

Lemma conditionsOfAccess_back (c : Concept) :
  amb_conditionsOfAccess r = Some c -> wellLabelled c ->
  obj_get "conditionsOfAccess" res = Some (JObj (conceptBack c)).
Proof.
  intros E Hc.
  change (JObj (conceptBack c))
    with (coerceArray "conditionsOfAccess" (collapse (map conceptBack [c]))).
  apply concepts_back;
    [repeat split; discriminate | | discriminate
    | constructor; [exact Hc | constructor]].
  assert (Hb : blocksOf "conditionsOfAccess" (allBlocks id name r o)
               = [("conditionsOfAccess",
                   match amb_conditionsOfAccess r with
                   | Some c => conceptTags "conditionsOfAccess" c
                   | None => []
                   end)])
    by block_eq.
  rewrite Hb, E. cbn [flat_map]. rewrite app_nil_r. reflexivity.
Qed.

End NestedFields.

Lemma prefix_kept_twice (a : Agent) (h : string) :
  agent_honorificPrefix a = Some h -> h <> "" ->
  obj_get "name" (creatorBack a) = Some (JStr (h ++ " " ++ agent_name a))
  /\ obj_get "honorificPrefix" (creatorBack a) = Some (JStr h).
Proof.
  intros E N. unfold creatorBack, getPersonOrOrgName. rewrite E.
  apply truthy_true in N. rewrite N. split; [reflexivity|].
  unfold field, optField, field. rewrite N.
  destruct (Str.truthy (agent_type a));
    (destruct (agent_id a) as [i|]; [destruct (Str.truthy i)|]); reflexivity.
Qed.

(** X19. Agents on the way back.  Creators and publishers whose name tag
    is not empty come back as a list (also a single one), one object per
    agent and in order, with the properties the flattener wrote: [name],
    the non-empty [type] and [id], and for creators the [honorificPrefix]
    and the [affiliation] with its non-empty [name], [type] and [id].  The
    [name] is not the original one when there is an honorific prefix: the
    prefix comes back both in front of the name and on its own. *)
Theorem agents_come_back (now : Z) (r : AmbLearningResource)
    (o : ConversionOptions) (dl : option string) (id name : string) :
  identified r id name ->
  exists e w,
    ambToNostr now r o = Success e w
    /\ (forall amb w',
          nostrToAmb (eventOf e) dl = Success amb w' ->
          (forall cs, amb_creator r = Some cs -> cs <> [] ->
             Forall named cs ->
             obj_get "creator" amb
             = Some (JArr (map JObj (map creatorBack cs))))
          /\ (forall ps, amb_publisher r = Some ps -> ps <> [] ->
                Forall named ps ->
                obj_get "publisher" amb
                = Some (JArr (map JObj (map publisherBack ps)))))
    /\ (forall a h, agent_honorificPrefix a = Some h -> h <> "" ->
          obj_get "name" (creatorBack a)
          = Some (JStr (h ++ " " ++ agent_name a))
          /\ obj_get "honorificPrefix" (creatorBack a) = Some (JStr h)).
Proof.
  intro Hid. rewrite (ambToNostr_identified now r o id name Hid).
  eexists. eexists. split; [reflexivity|]. split; [|apply prefix_kept_twice].
  intros amb w' H.
  apply nostrToAmb_success in H as (_ & tags' & Ht & Hres & _).
  injection Ht as <-. cbn [tags] in Hres.
  split.
  - apply (creators_back id name r o _ amb Hres).
  - apply (publishers_back id name r o _ amb Hres).
Qed.

(** X20. Concepts on the way back, for a resource all of whose label
    language codes, in every Concept field, have no colon and are no
    inherited names; with a non-empty [type] the way back then succeeds.
    In a field whose Concepts have a non-empty [id] and labels under
    distinct language codes, none of which is empty, [prefLabel],
    [inLanguage] or made of digits, the Concepts come back one object per
    Concept and in order, with [id], then [prefLabel] mapping each language
    code to its label, in the order of the labels, then the non-empty
    [type]; labels with an empty text are dropped, and [prefLabel] with them
    when none is left.  [about], [audience] and [learningResourceType] are
    lists in all cases; [educationalLevel] is a bare object when there is
    one level and a list otherwise; [conditionsOfAccess] is an object. *)
Theorem concepts_come_back (now : Z) (r : AmbLearningResource)
    (o : ConversionOptions) (dl : option string) (id name : string) :
  identified r id name ->
  plainCodes r ->
  exists e w,
    ambToNostr now r o = Success e w
    /\ (amb_type r <> [] ->
        exists amb, nostrToAmb (eventOf e) dl = Success amb [])
    /\ forall amb w',
         nostrToAmb (eventOf e) dl = Success amb w' ->
         (forall cs, amb_about r = Some cs -> cs <> [] ->
            Forall wellLabelled cs ->
            obj_get "about" amb
            = Some (JArr (map JObj (map conceptBack cs))))
         /\ (forall cs, amb_audience r = Some cs -> cs <> [] ->
               Forall wellLabelled cs ->
               obj_get "audience" amb
               = Some (JArr (map JObj (map conceptBack cs))))
         /\ (forall cs, amb_learningResourceType r = Some cs -> cs <> [] ->
               Forall wellLabelled cs ->
               obj_get "learningResourceType" amb
               = Some (JArr (map JObj (map conceptBack cs))))
         /\ (forall cs, amb_educationalLevel r = Some cs -> cs <> [] ->
               Forall wellLabelled cs ->
               obj_get "educationalLevel" amb
               = Some (collapse (map conceptBack cs)))
         /\ (forall c, amb_conditionsOfAccess r = Some c ->
               wellLabelled c ->
               obj_get "conditionsOfAccess" amb
               = Some (JObj (conceptBack c))).
Proof.
  intros Hid Hc. rewrite (ambToNostr_identified now r o id name Hid).
  eexists. eexists. split; [reflexivity|]. split.
  { intro Hty. destruct Hid as (_ & Nid & _ & Nname).
    destruct (emitted_accepted now r o dl id name Nid Nname Hty Hc)
      as (amb & _ & Hamb).
    exists amb. exact Hamb. }
  intros amb w' H.
  apply nostrToAmb_success in H as (_ & tags' & Ht & Hres & _).
  injection Ht as <-. cbn [tags] in Hres.
  repeat apply conj.
  - apply (about_back id name r o _ amb Hres).
  - apply (audience_back id name r o _ amb Hres).
  - apply (learningResourceType_back id name r o _ amb Hres).
  - apply (educationalLevel_back id name r o _ amb Hres).
  - apply (conditionsOfAccess_back id name r o _ amb Hres).
Qed.

Lemma agents_come_back_witness :
  exists e w,
    ambToNostr 0 authoredCourse noOptions = Success e w
    /\ nostrToAmb (eventOf e) None = Success authoredCourseBack []
    /\ obj_get "creator" authoredCourseBack
       = Some (JArr [JObj [("name", JStr "Dr. Jens"); ("type", JStr "Person");
                           ("id", JStr "https://orcid.org/0000-0002-3064-147X");
                           ("honorificPrefix", JStr "Dr.");
                           ("affiliation",
                             JObj [("name", JStr "WWU");
                                   ("type", JStr "Organization")])]]).
Proof.
  destruct (agents_come_back 0 authoredCourse noOptions None
              "https://oer.gitlab.io/OS"
              "Computer Structures and Operating Systems"
              ltac:(repeat split; discriminate)) as (e & w & He & H & _).
  exists e, w. split; [exact He|].
  injection He as <- _.
  assert (Hback : nostrToAmb
                    (eventOf {| pubkey := pubkeyOf noOptions;
                                created_at := createdAtOf 0 noOptions;
                                kind := AMB_KIND;
                                tags := buildTags "https://oer.gitlab.io/OS"
                                          "Computer Structures and Operating Systems"
                                          authoredCourse noOptions;
                                content := "" |}) None
                  = Success authoredCourseBack []) by (vm_compute; reflexivity).
  split; [exact Hback|].
  destruct (H authoredCourseBack [] Hback) as (Hc & _).
  apply (Hc _ eq_refl); [discriminate|].
  constructor; [discriminate | constructor].
Defined.

Lemma concepts_come_back_witness :
  exists e w,
    ambToNostr 0 courseWithSubjects noOptions = Success e w
    /\ nostrToAmb (eventOf e) None = Success courseWithSubjectsBack []
    /\ obj_get "educationalLevel" courseWithSubjectsBack
       = Some (JObj [("id",
                      JStr "https://w3id.org/kim/educationalLevel/level_06");
                     ("prefLabel", JObj [("en", JStr "Bachelor")])]).
Proof.
  destruct (concepts_come_back 0 courseWithSubjects noOptions None
              "https://oer.gitlab.io/OS"
              "Computer Structures and Operating Systems"
              ltac:(repeat split; discriminate)
              ltac:(repeat constructor; unfold ownName; simpl;
                    intuition discriminate))
    as (e & w & He & _ & H).
  exists e, w. split; [exact He|].
  injection He as <- _.
  assert (Hback : nostrToAmb
                    (eventOf {| pubkey := pubkeyOf noOptions;
                                created_at := createdAtOf 0 noOptions;
                                kind := AMB_KIND;
                                tags := buildTags "https://oer.gitlab.io/OS"
                                          "Computer Structures and Operating Systems"
                                          courseWithSubjects noOptions;
                                content := "" |}) None
                  = Success courseWithSubjectsBack [])
    by (vm_compute; reflexivity).
  split; [exact Hback|].
  destruct (H courseWithSubjectsBack [] Hback) as (_ & _ & _ & Hl & _).
  apply (Hl _ eq_refl); [discriminate|].
  constructor; [|constructor].
  split; [discriminate|]. split.
  - repeat constructor. intros [].
  - constructor; [|constructor].
    repeat split; try discriminate. unfold ownName. simpl.
    intuition discriminate.
Defined.


(** ** Private keys *)

Section PrivateKeys.

Lemma lower_hex (c : ascii) : isHexDigit (Str.lowerAscii c) = isHexDigit c.
Proof. destruct c as [[] [] [] [] [] [] [] []]; reflexivity. Qed.

Lemma lower_lower (c : ascii) :
  Str.lowerAscii (Str.lowerAscii c) = Str.lowerAscii c.
Proof. destruct c as [[] [] [] [] [] [] [] []]; reflexivity. Qed.

Lemma toLowerCase_idem (s : string) :
  Str.toLowerCase (Str.toLowerCase s) = Str.toLowerCase s.
Proof.
  induction s as [|c s IH]; [reflexivity|].
  cbn [Str.toLowerCase]. rewrite lower_lower, IH. reflexivity.
Qed.

Lemma toLowerCase_length (s : string) :
  String.length (Str.toLowerCase s) = String.length s.
Proof. induction s as [|c s IH]; [reflexivity|]. cbn. rewrite IH. reflexivity. Qed.

Lemma toLowerCase_allHex (s : string) :
  allHex (Str.toLowerCase s) = allHex s.
Proof.
  induction s as [|c s IH]; [reflexivity|].
  cbn [Str.toLowerCase allHex]. rewrite lower_hex, IH. reflexivity.
Qed.

Lemma toLowerCase_hex64 (s : string) :
  isHex64 (Str.toLowerCase s) = isHex64 s.
Proof.
  unfold isHex64. rewrite toLowerCase_length, toLowerCase_allHex. reflexivity.
Qed.

Lemma toLowerCase_append (s s' : string) :
  Str.toLowerCase (s ++ s') = (Str.toLowerCase s ++ Str.toLowerCase s')%string.
Proof.
  induction s as [|c s IH]; [reflexivity|].
  cbn [append Str.toLowerCase]. rewrite IH. reflexivity.
Qed.

(** No string of hexadecimal digits starts with [nsec1]. *)
Lemma hex_not_nsec (key : string) :
  allHex key = true -> Str.startsWith key "nsec1" = false.
Proof.
  unfold Str.startsWith. destruct key as [|c key]; [reflexivity|].
  cbn [allHex]. intro H. apply andb_true_iff in H as [H _].
  rewrite prefix_cons. destruct (Ascii.eqb "n" c) eqn:E; [|reflexivity].
  apply Ascii.eqb_eq in E. subst c. discriminate H.
Qed.

Lemma byte_digits (b : Byte.byte) :
  exists h l,
    padStart2 (toString16 b) = String h (String l "")
    /\ isHexDigit h = true /\ isHexDigit l = true
    /\ Str.lowerAscii h = h /\ Str.lowerAscii l = l.
Proof.
  destruct b; eexists; eexists; (split; [reflexivity|]);
    repeat split; reflexivity.
Qed.

Lemma toHex_length (bytes : list Byte.byte) :
  String.length (toHex bytes) = (2 * length bytes)%nat.
Proof.
  induction bytes as [|b bytes IH]; [reflexivity|].
  cbn [toHex length]. destruct (byte_digits b) as (h & l & -> & _).
  cbn [append String.length]. rewrite IH. lia.
Qed.

Lemma toHex_allHex (bytes : list Byte.byte) : allHex (toHex bytes) = true.
Proof.
  induction bytes as [|b bytes IH]; [reflexivity|].
  cbn [toHex]. destruct (byte_digits b) as (h & l & -> & Hh & Hl & _).
  cbn [append allHex]. rewrite Hh, Hl, IH. reflexivity.
Qed.

Lemma toHex_lower (bytes : list Byte.byte) : lowerCase (toHex bytes).
Proof.
  unfold lowerCase. induction bytes as [|b bytes IH]; [reflexivity|].
  cbn [toHex]. destruct (byte_digits b) as (h & l & -> & _ & _ & Hh & Hl).
  cbn [append Str.toLowerCase]. rewrite Hh, Hl, IH. reflexivity.
Qed.

(** The byte behind two digits. *)
Lemma byte_digits_injective (b b' : Byte.byte) :
  padStart2 (toString16 b) = padStart2 (toString16 b') -> b = b'.
Proof.
  intro H.
  assert (E : forall x, Byte.of_N
                (match padStart2 (toString16 x) with
                 | String h (String l _) =>
                     let v (c : ascii) :=
                       let n := N_of_ascii c in
                       if (n <? 58)%N then (n - 48)%N else (n - 87)%N in
                     v h * 16 + v l
                 | _ => 0
                 end)%N = Some x)
    by (intro x; destruct x; reflexivity).
  pose proof (E b) as Eb. rewrite H, E in Eb. injection Eb as ->.
  reflexivity.
Qed.

Lemma toHex_injective (bytes bytes' : list Byte.byte) :
  toHex bytes = toHex bytes' -> bytes = bytes'.
Proof.
  revert bytes'. induction bytes as [|b bytes IH]; intros [|b' bytes'] H.
  - reflexivity.
  - cbn [toHex] in H. destruct (byte_digits b') as (h & l & E & _).
    rewrite E in H. discriminate H.
  - cbn [toHex] in H. destruct (byte_digits b) as (h & l & E & _).
    rewrite E in H. discriminate H.
  - cbn [toHex] in H.
    destruct (byte_digits b) as (h & l & E & _).
    destruct (byte_digits b') as (h' & l' & E' & _).
    pose proof H as H'. rewrite E, E' in H'. cbn [append] in H'.
    injection H' as Hh Hl Hrest.
    assert (Eb : b = b').
    { apply byte_digits_injective. rewrite E, E'. congruence. }
    subst b'. f_equal. apply IH. exact Hrest.
Qed.

Variable decode : string -> option Decoded.

Lemma hex_key_parsed (key : string) :
  isHex64 key = true ->
  parsePrivateKey decode key = inr (Str.toLowerCase key).
Proof.
  intro H. unfold parsePrivateKey.
  pose proof H as H'. unfold isHex64 in H'.
  apply andb_true_iff in H' as [_ Hh].
  rewrite (hex_not_nsec key Hh), H. reflexivity.
Qed.

End PrivateKeys.

(** X21. A key of 64 hexadecimal digits is accepted, whatever the decoder
    does, and comes back in lower case: the result is again 64 hexadecimal
    digits, has no upper-case letter, and is a key that [parsePrivateKey]
    maps to itself.  A key that neither starts with [nsec1] nor consists of
    64 hexadecimal digits is rejected, also by [isValidPrivateKey]. *)
Theorem hex_keys_are_normalised (decode : string -> option Decoded)
    (key : string) :
  (isHex64 key = true ->
   parsePrivateKey decode key = inr (Str.toLowerCase key)
   /\ isHex64 (Str.toLowerCase key) = true
   /\ lowerCase (Str.toLowerCase key)
   /\ parsePrivateKey decode (Str.toLowerCase key)
      = inr (Str.toLowerCase key)
   /\ isValidPrivateKey decode key = true)
  /\ (Str.startsWith key "nsec1" = false -> isHex64 key = false ->
      parsePrivateKey decode key = inl NotHex
      /\ isValidPrivateKey decode key = false).
Proof.
  split.
  - intro H.
    assert (Hl : isHex64 (Str.toLowerCase key) = true)
      by (rewrite toLowerCase_hex64; exact H).
    repeat split.
    + apply hex_key_parsed. exact H.
    + exact Hl.
    + apply toLowerCase_idem.
    + rewrite (hex_key_parsed decode _ Hl), toLowerCase_idem. reflexivity.
    + unfold isValidPrivateKey. rewrite (hex_key_parsed decode key H).
      reflexivity.
  - intros Hn Hh. unfold isValidPrivateKey, parsePrivateKey.
    rewrite Hn, Hh. split; reflexivity.
Qed.


Lemma hex_keys_are_normalised_witness :
  parsePrivateKey sampleDecode sampleHexKey
  = inr "1234567890abcdef1234567890abcdef1234567890abcdef1234567890abcdef".
Proof.
  apply (proj1 (proj1 (hex_keys_are_normalised sampleDecode sampleHexKey)
                  eq_refl)).
Defined.


(** ** The direction of a conversion *)

Section Direction.

Lemma lower_space (c : ascii) : isSpace (Str.lowerAscii c) = isSpace c.
Proof. destruct c as [[] [] [] [] [] [] [] []]; reflexivity. Qed.

Lemma lower_allSpace (s : string) :
  allSpace (Str.toLowerCase s) = allSpace s.
Proof.
  induction s as [|c s IH]; [reflexivity|].
  cbn [Str.toLowerCase allSpace]. rewrite lower_space, IH. reflexivity.
Qed.

Lemma trimStart_spaces (s : string) : allSpace s = true -> trimStart s = "".
Proof.
  induction s as [|c s IH]; [reflexivity|]. cbn [allSpace trimStart].
  intro H. apply andb_true_iff in H as [Hc Hs]. rewrite Hc. exact (IH Hs).
Qed.

Lemma trimEnd_spaces (s : string) : allSpace s = true -> trimEnd s = "".
Proof.
  induction s as [|c s IH]; [reflexivity|]. cbn [allSpace trimEnd].
  intro H. apply andb_true_iff in H as [Hc Hs]. rewrite (IH Hs), Hc.
  reflexivity.
Qed.

Lemma trimStart_leading (pre s : string) :
  allSpace pre = true -> trimStart (pre ++ s) = trimStart s.
Proof.
  induction pre as [|c pre IH]; [reflexivity|]. cbn [allSpace append trimStart].
  intro H. apply andb_true_iff in H as [Hc Hs]. rewrite Hc. exact (IH Hs).
Qed.

Lemma trimEnd_trailing (s post : string) :
  allSpace post = true -> trimEnd (s ++ post) = trimEnd s.
Proof.
  intro H. induction s as [|c s IH].
  - cbn [append]. rewrite (trimEnd_spaces post H). reflexivity.
  - cbn [append trimEnd]. rewrite IH. reflexivity.
Qed.

Lemma trim_trailing (s post : string) :
  allSpace post = true -> trim (s ++ post) = trim s.
Proof.
  intro H. unfold trim. induction s as [|c s IH].
  - cbn [append]. rewrite (trimStart_spaces post H). reflexivity.
  - cbn [append trimStart]. destruct (isSpace c); [exact IH|].
    apply (trimEnd_trailing (String c s) post H).
Qed.

Lemma trim_around (pre s post : string) :
  allSpace pre = true -> allSpace post = true ->
  trim (pre ++ s ++ post) = trim s.
Proof.
  intros Hpre Hpost. unfold trim. rewrite (trimStart_leading pre _ Hpre).
  apply (trim_trailing s post Hpost).
Qed.

End Direction.

(** X23. [parseDirection] ignores case and surrounding white space: a
    direction in lower case, or with spaces, tabs or line breaks around
    it, is parsed like the direction itself.  The two names and their
    spellings with a hyphen are accepted, and the name of a direction is
    parsed to that direction; the empty string is an error.
    (On ASCII strings.) *)
Theorem direction_ignores_case_and_space (s pre post : string) :
  asciiOnly (pre ++ s ++ post) = true ->
  allSpace pre = true -> allSpace post = true ->
  parseDirection (pre ++ s ++ post) = parseDirection s
  /\ parseDirection (Str.toLowerCase s) = parseDirection s
  /\ (forall d, parseDirection (directionName d) = Some d)
  /\ parseDirection "amb-nostr" = Some AmbToNostr
  /\ parseDirection "nostr-amb" = Some NostrToAmb
  /\ parseDirection "" = None.
Proof.
  intros _ Hpre Hpost. split; [|split; [|split]].
  - unfold parseDirection. rewrite !toLowerCase_append.
    rewrite trim_around by (rewrite lower_allSpace; assumption).
    reflexivity.
  - unfold parseDirection. rewrite toLowerCase_idem. reflexivity.
  - intros [|]; reflexivity.
  - repeat split; reflexivity.
Qed.

Lemma direction_ignores_case_and_space_witness :
  parseDirection "  AMB:Nostr " = Some AmbToNostr.
Proof.
  apply (eq_trans
           (proj1 (direction_ignores_case_and_space "AMB:Nostr" "  " " "
                     eq_refl eq_refl eq_refl))).
  reflexivity.
Defined.


(** ** The tag helpers on any event *)

Section TagHelpers.

Lemma find_filter {A : Type} (f : A -> bool) (l : list A) :
  find f l = hd_error (filter f l).
Proof.
  induction l as [|x l IH]; [reflexivity|]. cbn [find filter].
  destruct (f x); [reflexivity | exact IH].
Qed.

Lemma filterMap_map {A B : Type} (f : A -> option B) (l : list A) :
  filterMap (fun value => value) (map f l) = filterMap f l.
Proof.
  induction l as [|x l IH]; [reflexivity|]. cbn [map filterMap].
  destruct (f x); rewrite IH; reflexivity.
Qed.

End TagHelpers.

(** X24. The three tag helpers agree with each other.  [getTagValue] looks
    at the first tag with the key only: its result is the second element
    of the first tag that [findTags] returns, and [undefined] when that tag
    has no second element, even if a later tag has one.  [getTagValues]
    collects the second elements of the tags [findTags] returns, in order;
    whatever [getTagValue] returns is among them. *)
Theorem tag_helpers_agree (event : NostrEducationalEvent) (key : string) :
  getTagValue event key
  = match findTags event key with
    | tag :: _ => tagValue tag
    | [] => None
    end
  /\ getTagValues event key = filterMap tagValue (findTags event key)
  /\ (forall v, getTagValue event key = Some v ->
                In v (getTagValues event key))
  /\ (forall v, In v (getTagValues event key) <->
                exists rest, In (key :: v :: rest) (tags event))
  /\ (length (getTagValues event key) <= length (findTags event key))%nat.
Proof.
  assert (H1 : getTagValue event key
               = match findTags event key with
                 | tag :: _ => tagValue tag
                 | [] => None
                 end).
  { unfold getTagValue, findTags. rewrite find_filter.
    destruct (filter (hasKey key) (tags event)); reflexivity. }
  assert (H2 : getTagValues event key
               = filterMap tagValue (findTags event key))
    by (unfold getTagValues, findTags; apply filterMap_map).
  split; [exact H1|]. split; [exact H2|]. split; [|split].
  - intros v Hv. rewrite H2. rewrite H1 in Hv.
    destruct (findTags event key) as [|tag l]; [discriminate|].
    cbn [filterMap]. rewrite Hv. left. reflexivity.
  - intro v. rewrite H2, filterMap_In. unfold findTags. split.
    + intros (t & Hin & Hv). apply filter_In in Hin as [Hin Hk].
      destruct t as [|k [|v' rest]]; try discriminate.
      cbn in Hk, Hv. apply String.eqb_eq in Hk. injection Hv as ->.
      subst k. exists rest. exact Hin.
    + intros (rest & Hin). exists (key :: v :: rest). split; [|reflexivity].
      apply filter_In. split; [exact Hin|]. cbn. apply String.eqb_refl.
  - rewrite H2. clear H1 H2.
    induction (findTags event key) as [|t l IH]; [constructor|].
    cbn [filterMap length]. destruct (tagValue t); cbn [length]; lia.
Qed.

(** X25. What each option controls.  The tags of the event depend on the
    resource, on [relayHints] and on whether [includeRelationships] is
    [false], and on nothing else: not on [pubkey], [timestamp] or the
    clock.  [pubkey] decides the pubkey of the event and the warning,
    [timestamp] and the clock decide [created_at].  [deterministicIds] is
    never read. *)
Theorem options_control_separate_parts (now now' : Z)
    (r : AmbLearningResource) (o o' : ConversionOptions) (id name : string) :
  identified r id name ->
  exists e w e' w',
    ambToNostr now r o = Success e w
    /\ ambToNostr now' r o' = Success e' w'
    /\ (opt_relayHints o = opt_relayHints o' ->
        (opt_includeRelationships o = Some false <->
         opt_includeRelationships o' = Some false) ->
        tags e = tags e')
    /\ (opt_pubkey o = opt_pubkey o' -> pubkey e = pubkey e' /\ w = w')
    /\ (opt_timestamp o = opt_timestamp o' -> now = now' ->
        created_at e = created_at e')
    /\ kind e = kind e' /\ content e = content e'.
Proof.
  intro Hid.
  rewrite (ambToNostr_identified now r o id name Hid).
  rewrite (ambToNostr_identified now' r o' id name Hid).
  eexists. eexists. eexists. eexists.
  split; [reflexivity|]. split; [reflexivity|].
  cbn [tags pubkey created_at kind content].
  split; [|split; [|split; [|split; reflexivity]]].
  - intros Hr Hi. unfold buildTags, coreTags. rewrite Hr.
    replace (includesRelationships o') with (includesRelationships o);
      [reflexivity|].
    unfold includesRelationships.
    destruct (opt_includeRelationships o) as [[|]|],
      (opt_includeRelationships o') as [[|]|]; try reflexivity;
      destruct Hi as [H1 H2];
      first [ discriminate (H1 eq_refl) | discriminate (H2 eq_refl) ].
  - intro Hp. unfold pubkeyOf. rewrite Hp. split; reflexivity.
  - intros Ht ->. unfold createdAtOf. rewrite Ht. reflexivity.
Qed.

Lemma tag_helpers_agree_witness :
  getTagValue bareTagEvent "t" = None
  /\ getTagValues bareTagEvent "t" = ["x"].
Proof.
  pose proof (tag_helpers_agree bareTagEvent "t") as (H1 & H2 & _).
  split; [rewrite H1 | rewrite H2]; reflexivity.
Defined.

Lemma options_control_separate_parts_witness :
  exists e w e' w',
    ambToNostr 1700000000 courseWithParts (optionsAt 1700000000) = Success e w
    /\ ambToNostr 0 courseWithParts otherOptions = Success e' w'
    /\ tags e = tags e'.
Proof.
  destruct (options_control_separate_parts 1700000000 0 courseWithParts
              (optionsAt 1700000000) otherOptions
              "https://oer.gitlab.io/OS"
              "Computer Structures and Operating Systems"
              ltac:(repeat split; discriminate))
    as (e & w & e' & w' & He & He' & Ht & _).
  exists e, w, e', w'. split; [exact He|]. split; [exact He'|].
  apply Ht; [reflexivity|]. split; discriminate.
Defined.


(** ** Where a new object starts *)

Section Records.

Variables (all : list RelatedTag) (F : string).
Hypothesis flat : Str.hasColon F = false.

Lemma obj_has_record (k : string) (rec : Fields) :
  obj_has k (recordObject rec) = true <-> In k (map fst rec).
Proof.
  unfold obj_has. induction rec as [|[k' v'] rec IH]; cbn.
  - split; [discriminate | intros []].
  - destruct (String.eqb_spec k k') as [->|N].
    + split; auto.
    + rewrite IH. split; [auto | intros [E|H]; [congruence | exact H]].
Qed.

Lemma record_loop (rec : Fields) :
  NoDup (map fst rec) ->
  Forall (fun kv => ordinaryKey (fst kv) /\ Str.hasColon (fst kv) = false
                    /\ ownName (fst kv) /\ snd kv <> ""
                    /\ numericName (fst kv) = false) rec ->
  forall (idx : Z) (objects : list obj) (cur : obj),
    (forall kv, In kv rec -> obj_has (fst kv) cur = false) ->
    nestedLoop all (recordTags F rec) idx (objects, cur)
    = Some (objects, cur ++ recordObject rec).
Proof.
  induction rec as [|[k v] rec IH]; intros Hnd Hok idx objects cur Hcur.
  - cbn. rewrite app_nil_r. reflexivity.
  - inversion Hnd as [|? ? Hnew Hnd']; subst.
    inversion Hok as [|? ? ((Nk & Np & Nl) & Hc & _ & Nv & _) Hok']; subst.
    cbn [fst snd] in *. cbn [recordTags map nestedLoop fst snd].
    rewrite (next_tag all idx (F ++ ":" ++ k) F k v objects cur
               (property_key_segments F k flat Hc) Nk Np Nl Nv
               (Hcur (k, v) (or_introl eq_refl))).
    cbn [bind]. fold (recordTags F rec). rewrite (IH Hnd' Hok').
    + cbn [recordObject map fst snd]. rewrite <- app_assoc. reflexivity.
    + intros kv Hin. rewrite obj_has_app, (Hcur kv (or_intror Hin)).
      unfold obj_has. cbn [obj_get orb].
      destruct (String.eqb_spec (fst kv) k) as [E|_]; [|reflexivity].
      exfalso. apply Hnew. rewrite <- E. apply in_map. exact Hin.
Qed.

Lemma record_item (idx : Z) (rec : Fields) (objects : list obj) (cur : obj) :
  properRecord rec ->
  cur = [] \/ obj_has (firstKey rec) cur = true ->
  nestedLoop all (recordTags F rec) idx (objects, cur)
  = Some (finish (objects, cur), recordObject rec).
Proof.
  intros (Hne & Hnd & Hok) Hcur. destruct rec as [|[k v] rec]; [contradiction|].
  inversion Hnd as [|? ? Hnew Hnd']; subst.
  inversion Hok as [|? ? ((Nk & Np & Nl) & Hc & _ & Nv & _) Hok']; subst.
  cbn [fst snd firstKey] in *. cbn [recordTags map nestedLoop fst snd].
  rewrite (first_tag all idx (F ++ ":" ++ k) F k v objects cur
             (property_key_segments F k flat Hc) Nk Np Nl Nv Hcur).
  cbn [bind]. fold (recordTags F rec).
  rewrite (record_loop rec Hnd' Hok').
  - reflexivity.
  - intros kv Hin. unfold obj_has. cbn [obj_get].
    destruct (String.eqb_spec (fst kv) k) as [E|_]; [|reflexivity].
    exfalso. apply Hnew. rewrite <- E. apply in_map. exact Hin.
Qed.

Lemma records_loop (records : list Fields) :
  Forall properRecord records ->
  chained records ->
  forall (idx : Z) (objects : list obj) (cur : obj),
    (match records with
     | rec :: _ => cur = [] \/ obj_has (firstKey rec) cur = true
     | [] => True
     end) ->
    option_map finish
      (nestedLoop all (flat_map (recordTags F) records) idx (objects, cur))
    = Some (finish (objects, cur) ++ map recordObject records).
Proof.
  induction 1 as [|rec records Hrec _ IH]; intros Hch idx objects cur Hcur.
  - cbn. rewrite app_nil_r. reflexivity.
  - cbn [flat_map]. rewrite nestedLoop_app.
    rewrite (record_item idx rec objects cur Hrec Hcur). cbn [bind].
    assert (Hnonempty : obj_has (firstKey rec) (recordObject rec) = true).
    { destruct Hrec as (Hne & _). destruct rec as [|[k v] rec];
        [contradiction|].
      unfold obj_has. cbn. rewrite String.eqb_refl. reflexivity. }
    rewrite IH.
    + rewrite (finish_with _ _ _ Hnonempty). cbn [map].
      rewrite <- app_assoc. reflexivity.
    + destruct records as [|r2 rest]; [exact I|]. apply Hch.
    + destruct records as [|r2 rest]; [exact I|]. right.
      apply obj_has_record. apply Hch.
Qed.

End Records.

(** X26. Where [reconstructNestedObjects] starts a new object.  The tags
    [F:k] are read in order, and a new object starts exactly at a tag whose
    property the current object has already.  So records with non-empty
    values and distinct property names (not empty, not [prefLabel] or
    [inLanguage], without a colon, no inherited names and not made of
    digits), each of which starts with a property that the record before it
    has, come back one object per record, whatever the other properties are
    and in whatever order they come: a single record as a bare object,
    several as a list. *)
Theorem objects_split_at_repeated_property (F : string)
    (records : list Fields) :
  Str.hasColon F = false ->
  records <> [] ->
  Forall properRecord records ->
  chained records ->
  reconstructNestedObjects (flat_map (recordTags F) records)
  = Some (collapse (map recordObject records))
  /\ reconstructProperty F (flat_map (recordTags F) records)
     = Some (collapse (map recordObject records)).
Proof.
  intros Hf Hne Hrs Hch.
  assert (H : reconstructNestedObjects (flat_map (recordTags F) records)
              = Some (collapse (map recordObject records))).
  { unfold reconstructNestedObjects. rewrite collectObjects_finish.
    rewrite (records_loop _ F Hf records Hrs Hch 0%Z [] []);
      [reflexivity|].
    destruct records; [exact I | left; reflexivity]. }
  split; [exact H|]. unfold reconstructProperty.
  replace (existsb _ _) with true; [exact H|].
  symmetry. destruct records as [|rec records]; [contradiction|].
  inversion Hrs as [|? ? (Hrec & _) _]; subst.
  destruct rec as [|[k v] rec]; [contradiction|].
  cbn [flat_map recordTags map app existsb rt_key fst].
  change (":" ++ k)%string with (String ":" k).
  rewrite hasColon_append. reflexivity.
Qed.

Lemma objects_split_at_repeated_property_witness :
  reconstructNestedObjects (flat_map (recordTags "contributor") twoRecords)
  = Some (JArr [JObj [("name", JStr "Jens"); ("role", JStr "author")];
                JObj [("role", JStr "editor"); ("name", JStr "Ada");
                      ("since", JStr "2020")]]).
Proof.
  apply (proj1 (objects_split_at_repeated_property "contributor" twoRecords
                  eq_refl ltac:(discriminate)
                  ltac:(repeat constructor; unfold ownName; simpl;
                        intuition discriminate)
                  ltac:(simpl; auto))).
Defined.

(** * Nested fields on the round trip *)

(** The statements of C2 and C3 about whole conversions rest on the
    lemmas on the emitted tags above. *)

(** C2, as the code has it.  When [about] holds one Concept whose
    [prefLabel] maps the codes en, de and fr to non-empty labels, the
    flattener emits exactly three [about:prefLabel:<lang>] tags with
    distinct keys, one per entry and in the order of the entries, and the
    tags under [about] reconstruct to one object whose [prefLabel] has
    exactly these three entries.  When, moreover, the language codes of
    the labels of all the Concepts of the resource have no colon and are
    no inherited names, every successful unflattening of the event has
    this object as the only element of [about], and the unflattening
    succeeds when [type] is not empty. *)
Theorem three_languages_preserved (now : Z) (r : AmbLearningResource)
    (o : ConversionOptions) (dl : option string) (id name : string)
    (c : Concept) (labels : LocalizedString) :
  identified r id name ->
  amb_about r = Some [c] ->
  concept_prefLabel c = Some labels ->
  Permutation (map fst labels) ["en"; "de"; "fr"] ->
  Forall (fun e => snd e <> "") labels ->
  exists e w,
    ambToNostr now r o = Success e w
    /\ filter isAboutPrefLabelTag (tags e)
       = map (fun l => createTag ("about:prefLabel:" ++ fst l) (snd l)) labels
    /\ length (filter isAboutPrefLabelTag (tags e)) = 3
    /\ NoDup (map keyOf (filter isAboutPrefLabelTag (tags e)))
    /\ (forall k, In k (map keyOf (tags e)) -> Str.baseKey k = "about" ->
        reconstructProperty "about" (relatedTags k "about" (tags e))
        = Some (JObj (conceptObject c labels)))
    /\ (plainCodes r ->
        forall amb w', nostrToAmb (eventOf e) dl = Success amb w' ->
        obj_get "about" amb = Some (JArr [JObj (conceptObject c labels)]))
    /\ (plainCodes r -> amb_type r <> [] ->
        exists amb,
          nostrToAmb (eventOf e) dl = Success amb []
          /\ obj_get "about" amb
             = Some (JArr [JObj (conceptObject c labels)])).
Proof.
  intros Hid Habout Hl P G.
  rewrite (ambToNostr_identified now r o id name Hid).
  eexists. eexists. split; [reflexivity|]. cbn [tags].
  pose proof (allBlocks_based id name r o) as Hbased.
  assert (Hblock : blocksOf "about" (allBlocks id name r o)
                   = [("about", conceptTags "about" c)]).
  { unfold allBlocks, blocksOf, coreBlocks, relationshipBlocks.
    rewrite Habout. destruct (includesRelationships o); simpl;
      rewrite app_nil_r; reflexivity. }
  assert (Hplain : plainBase "about") by (repeat split; discriminate).
  assert (Huniform : uniformBlock "about" (conceptTags "about" c))
    by (right; apply (conceptTags_nested "about")).
  assert (Hfilter : filter isAboutPrefLabelTag (buildTags id name r o)
                    = map (fun l => createTag ("about:prefLabel:" ++ fst l) (snd l))
                        labels).
  { rewrite buildTags_blocks.
    rewrite (filter_blocks _ "about" _ prefLabel_tag_base Hbased), Hblock.
    unfold flatten. simpl. rewrite app_nil_r.
    apply about_prefLabel_tags, Hl. }
  assert (Hgroup : forall k, In k (map keyOf (buildTags id name r o)) ->
             Str.baseKey k = "about" ->
             reconstructProperty "about"
               (relatedTags k "about" (buildTags id name r o))
             = Some (JObj (conceptObject c labels))).
  { intros k Hk Hb. rewrite buildTags_blocks in Hk |- *.
    rewrite (related_of_block _ "about" _ Hbased Hblock k Hb).
    rewrite (related_uniform _ "about" _ Hbased Hblock Hplain Huniform).
    + apply (about_reconstructed c labels Hl P G).
    + apply in_map_iff in Hk as (t & Hkt & Hin). exists t.
      split; [|exact Hkt].
      apply (block_owns _ "about" _ Hbased Hblock); [exact Hin | congruence]. }
  assert (Hback : forall amb,
             unflattenTags (buildTags id name r o) (languageOf dl) = Some amb ->
             obj_get "about" amb
             = Some (JArr [JObj (conceptObject c labels)])).
  { intros amb Hu. rewrite buildTags_blocks in Hu.
    apply (flattened_field _ "about" _ Hbased Hblock Hplain Huniform
             (languageOf dl) (JObj (conceptObject c labels)) amb).
    + apply (about_tags_given c labels Hl P).
    + apply (about_reconstructed c labels Hl P G).
    + exact Hu. }
  split; [exact Hfilter|]. rewrite Hfilter. split; [|split; [|split; [|split]]].
  - rewrite length_map, <- (length_map fst), (Permutation_length P). reflexivity.
  - rewrite map_map. cbn [keyOf createTag hd].
    eapply prefLabel_keys_distinct; eassumption.
  - exact Hgroup.
  - intros _ amb w' H.
    apply nostrToAmb_success in H as (_ & ts & Hts & Hu & _).
    cbn [eventOf ev_tags tags] in Hts. injection Hts as <-.
    apply Hback, Hu.
  - intros Hc Ht. destruct Hid as (_ & Nid & _ & Nname).
    destruct (emitted_accepted now r o dl id name Nid Nname Ht Hc)
      as (amb & Hu & Hamb).
    exists amb. split; [exact Hamb | apply Hback, Hu].
Qed.


Lemma three_languages_preserved_witness :
  let labels :=
    [("en", "Computer Science"); ("de", "Informatik"); ("fr", "Informatique")] in
  let c := {| concept_id := "http://example.org/concept";
              concept_type := Some "Concept";
              concept_prefLabel := Some labels |} in
  exists e w,
    ambToNostr 0 (resourceAbout labels) noOptions = Success e w
    /\ filter isAboutPrefLabelTag (tags e)
       = map (fun l => createTag ("about:prefLabel:" ++ fst l) (snd l)) labels
    /\ length (filter isAboutPrefLabelTag (tags e)) = 3
    /\ NoDup (map keyOf (filter isAboutPrefLabelTag (tags e)))
    /\ (forall k, In k (map keyOf (tags e)) -> Str.baseKey k = "about" ->
        reconstructProperty "about" (relatedTags k "about" (tags e))
        = Some (JObj (conceptObject c labels)))
    /\ (forall amb w', nostrToAmb (eventOf e) None = Success amb w' ->
        obj_get "about" amb = Some (JArr [JObj (conceptObject c labels)]))
    /\ (exists amb,
          nostrToAmb (eventOf e) None = Success amb []
          /\ obj_get "about" amb
             = Some (JArr [JObj (conceptObject c labels)])).
Proof.
  intros labels c.
  assert (Hcodes : plainCodes (resourceAbout labels)).
  { repeat constructor; unfold ownName; cbn; intuition discriminate. }
  destruct (three_languages_preserved 0 (resourceAbout labels) noOptions None
              "https://example.org/c1" "X" c labels
              ltac:(repeat split; discriminate) eq_refl eq_refl
              (Permutation_refl _)
              ltac:(repeat constructor; discriminate))
    as (e & w & He & H1 & H2 & H3 & H4 & H5 & H6).
  exists e, w. split; [exact He|]. split; [exact H1|]. split; [exact H2|].
  split; [exact H3|]. split; [exact H4|]. split; [exact (H5 Hcodes)|].
  apply (H6 Hcodes). discriminate.
Defined.

